(** * RSS feed aggregator: parser, aggregator, builder and worker

    A shallow embedding of [src/rss-parser.ts], [src/feed-aggregator.ts],
    [src/rss-builder.ts], [src/config.ts] and the handlers of
    [src/index.ts], with the properties of the feed
    normalisation-and-merge pipeline stated and proved over it.

    Conventions of the embedding.
    - A JavaScript string is a [string]: a sequence of code units, here
      the code units below 256.  Every regular expression and literal of
      the sources is ASCII, so the only place where other code units
      would be told apart is [trim], whose white space is given for this
      range.
    - [a || b] and [if (a)] on strings, numbers and objects go through
      JavaScript truthiness: the empty string and 0 are falsy, an object
      (a [Date], an enclosure) is always truthy.
    - A regular expression is a term of [Regex.regex], run by a
      backtracking matcher; [match], [matchAll] and [replace] are defined
      on top of it.
    - A [Date] is its time value: an integer number of milliseconds since
      the epoch, or NaN for an invalid date.  The host's date parser
      behind [new Date(text)] is a parameter, [newDate].
    - A [number] field that the sources only print or test (ttl, width,
      height, enclosure length, maxItems) is an integer [Z]; where it is
      printed, it stands for the Number nearest to it.
    - An [async] function returns how its promise settles; the network
      behind [fetch] is a parameter.  A handler that reads the clock also
      counts its readings; the clock is a parameter.

    The file has three parts: the embedding, the vocabulary of the
    properties with the sample inputs, and the proofs, by component. *)

From Stdlib Require Import String Ascii List ZArith Lia Bool Arith.
From Stdlib Require Import Permutation Sorted DecimalString NArith.
From Stdlib Require DecimalPos.
Import ListNotations.
Local Open Scope list_scope.
Local Open Scope string_scope.

(** * The embedding *)

(** ** JavaScript strings *)

Module JSString.

(** The two characters a string literal of this file cannot hold. *)
Definition dq : string := String (ascii_of_nat 34) "".
Definition nl : string := String (ascii_of_nat 10) "".

(** [Array.prototype.join]. *)
Fixpoint join (sep : string) (xs : list string) : string :=
  match xs with
  | [] => ""
  | [x] => x
  | x :: rest => x ++ sep ++ join sep rest
  end.

(** [s.startsWith(p)]: [Some] of what follows the prefix. *)
Fixpoint strip_prefix (p s : string) : option string :=
  match p with
  | "" => Some s
  | String a p' =>
      match s with
      | String b s' => if Ascii.eqb a b then strip_prefix p' s' else None
      | "" => None
      end
  end.

Definition starts_with (p s : string) : bool :=
  match strip_prefix p s with Some _ => true | None => false end.

(** [s.includes(p)]. *)
Fixpoint includes (p s : string) : bool :=
  starts_with p s ||
  match s with
  | "" => false
  | String _ s' => includes p s'
  end.

(** White space of [String.prototype.trim] among the code units below
    256: TAB, LF, VT, FF, CR, SP and NBSP. *)
Definition is_space (c : ascii) : bool :=
  let n := nat_of_ascii c in
  (((9 <=? n) && (n <=? 13)) || (n =? 32) || (n =? 160))%nat.

Fixpoint trimStart (s : string) : string :=
  match s with
  | "" => ""
  | String c s' => if is_space c then trimStart s' else s
  end.

Fixpoint trimEnd (s : string) : string :=
  match s with
  | "" => ""
  | String c s' =>
      match trimEnd s' with
      | "" => if is_space c then "" else String c ""
      | t => String c t
      end
  end.

Definition trim (s : string) : string := trimEnd (trimStart s).

(** Truthiness of a string that may be [null] or [undefined]. *)
Definition truthy (o : option string) : bool :=
  match o with
  | Some s => negb (s =? "")
  | None => false
  end.

(** [a || b] where both sides may be [null]. *)
Definition or_else (a b : option string) : option string :=
  if truthy a then a else b.

(** [a || 'default']. *)
Definition or_default (a : option string) (d : string) : string :=
  match a with
  | Some s => if s =? "" then d else s
  | None => d
  end.

(** [const v = ...; if (v) item.field = v]: the field is set only to a
    truthy value. *)
Definition if_truthy (a : option string) : option string :=
  if truthy a then a else None.

(** The decimal digits of an integer. *)
Definition decimal (n : Z) : string := NilZero.string_of_int (Z.to_int n).

(** The Number an integer stands for: the nearest value with 53
    significant bits, a tie going to the even significand.  An integer
    below 2^53 is its own value. *)
Definition numberValue (x : Z) : Z :=
  (let bits := Z.log2 x + 1 in
   if bits <=? 53 then x
   else
     let shift := bits - 53 in
     let q := Z.shiftr x shift in
     let r := x - Z.shiftl q shift in
     let half := Z.shiftl 1 (shift - 1) in
     let q := if (half <? r) || ((half =? r) && Z.odd q) then q + 1 else q in
     Z.shiftl q shift)%Z.

(** A value of magnitude 2^1024 or more after rounding is an infinity. *)
Definition isFinite (n : Z) : bool :=
  (numberValue (Z.abs n) <? 2 ^ 1024)%Z.

(** Of the two multiples of [unit] around [x], the one that denotes
    [x], the nearer one when both do (the even one on a tie). *)
Definition nearest (x unit : Z) : option Z :=
  (let lo := x / unit * unit in
   let hi := lo + unit in
   match numberValue lo =? x, numberValue hi =? x with
   | true, true =>
       if x - lo <? hi - x then Some lo
       else if hi - x <? x - lo then Some hi
       else if Z.even (x / unit) then Some lo else Some hi
   | true, false => Some lo
   | false, true => Some hi
   | false, false => None
   end)%Z.

(** The decimal with the fewest significant digits that denotes the
    Number [x]: the search goes from one significant digit, [e] zeros at
    the end, to all the digits of [x]. *)
Fixpoint shortest (x : Z) (e : nat) : Z :=
  match e with
  | O => x
  | S e' =>
      match nearest x (10 ^ Z.of_nat e) with
      | Some v => v
      | None => shortest x e'
      end
  end.

Fixpoint trimZeros (digits : string) : string :=
  match digits with
  | "" => ""
  | String c rest =>
      match trimZeros rest with
      | "" => if Ascii.eqb c "0" then "" else String c ""
      | t => String c t
      end
  end.

(** The exponent form of a decimal of more than 21 digits. *)
Definition exponential (digits : string) : string :=
  let exponent := decimal (Z.of_nat (String.length digits) - 1) in
  match trimZeros digits with
  | String c "" => String c "" ++ "e+" ++ exponent
  | String c rest => String c "" ++ "." ++ rest ++ "e+" ++ exponent
  | "" => digits
  end.

Definition magnitude_to_string (x : Z) : string :=
  if (x <? 2 ^ 53)%Z then decimal x
  else
    let x := numberValue x in
    if (2 ^ 1024 <=? x)%Z then "Infinity"
    else
      let digits := decimal (shortest x (String.length (decimal x) - 1)) in
      if (String.length digits <=? 21)%nat then digits else exponential digits.

(** Template-literal rendering of an integer [number]
    ([Number::toString]): all the digits of an integer below 2^53, which
    no shorter decimal denotes; above, the shortest decimal that denotes
    the number, filled with zeros up to 21 digits and in exponent form
    beyond. *)
Definition number_to_string (n : Z) : string :=
  if (n <? 0)%Z then "-" ++ magnitude_to_string (- n)
  else magnitude_to_string n.

(** [s.padStart(2, '0')]. *)
Definition padStart2 (s : string) : string :=
  match s with
  | String c "" => String "0" (String c "")
  | "" => "00"
  | _ => s
  end.

End JSString.
Import JSString.

(** ** Regular expressions

    The fragment of ECMAScript regular expressions the sources use:
    literal text, a character class under a greedy [*], a lazy [*?] or a
    greedy [+], one character of a class, concatenation and one capture
    group.  Matching is the backtracking matcher of the language
    definition, in continuation-passing style: a quantifier tries its
    alternatives in order (greedy: one more character first; lazy: the
    continuation first) and the first success wins. *)

Module Regex.

Inductive regex : Type :=
| Lit (l : string)                 (* literal characters *)
| Cls (p : ascii -> bool)          (* [...] once *)
| Star (p : ascii -> bool)         (* [...]*  *)
| StarLazy (p : ascii -> bool)     (* [...]*? *)
| Plus (p : ascii -> bool)         (* [...]+  *)
| Seq (r1 r2 : regex)
| Group (r : regex).               (* ( ... ) *)

Declare Scope regex_scope.
Delimit Scope regex_scope with re.
Bind Scope regex_scope with regex.
Infix ";;" := Seq (at level 61, right associativity) : regex_scope.

(** Character classes of the sources. *)
Definition any : ascii -> bool := fun _ => true.                  (* [\s\S] *)
Definition none_of (cs : string) : ascii -> bool :=                (* [^cs] *)
  fun c => negb (existsb (Ascii.eqb c) (list_ascii_of_string cs)).
Definition one_of (cs : string) : ascii -> bool :=                 (* [cs] *)
  fun c => existsb (Ascii.eqb c) (list_ascii_of_string cs).

(** Canonicalisation under the [i] flag (without [u]): a code unit is
    compared through its upper case, and a code unit outside ASCII never
    canonicalises to an ASCII one, so against the ASCII literals of the
    sources only the letters a-z fold. *)
Definition upper (c : ascii) : ascii :=
  let n := nat_of_ascii c in
  if ((97 <=? n) && (n <=? 122))%nat then ascii_of_nat (n - 32) else c.

Definition char_eq (ci : bool) (a b : ascii) : bool :=
  if ci then Ascii.eqb (upper a) (upper b) else Ascii.eqb a b.

(** The result of a successful match: the capture group (when it took
    part) and the text after the match. *)
Definition match_state : Type := option string * string.

Section Matcher.
Variable ci : bool.   (* the [i] flag *)

Fixpoint lit (l s : string) : option string :=
  match l with
  | "" => Some s
  | String a l' =>
      match s with
      | String b s' => if char_eq ci a b then lit l' s' else None
      | "" => None
      end
  end.

Fixpoint star (p : ascii -> bool) (s : string)
    (k : string -> option match_state) : option match_state :=
  match s with
  | String c s' =>
      if p c then
        match star p s' k with
        | Some m => Some m
        | None => k s
        end
      else k s
  | "" => k ""
  end.

Fixpoint star_lazy (p : ascii -> bool) (s : string)
    (k : string -> option match_state) : option match_state :=
  match k s with
  | Some m => Some m
  | None =>
      match s with
      | String c s' => if p c then star_lazy p s' k else None
      | "" => None
      end
  end.

(** [consumed s s']: the text between the start [s] of a group and
    what is left, [s'], at its end. *)
Definition consumed (s s' : string) : string :=
  substring 0 (String.length s - String.length s') s.

Fixpoint run (r : regex) (s : string) (cap : option string)
    (k : string -> option string -> option match_state)
    : option match_state :=
  match r with
  | Lit l =>
      match lit l s with
      | Some s' => k s' cap
      | None => None
      end
  | Cls p =>
      match s with
      | String c s' => if p c then k s' cap else None
      | "" => None
      end
  | Star p => star p s (fun s' => k s' cap)
  | StarLazy p => star_lazy p s (fun s' => k s' cap)
  | Plus p =>
      match s with
      | String c s' => if p c then star p s' (fun s'' => k s'' cap) else None
      | "" => None
      end
  | Seq r1 r2 => run r1 s cap (fun s' cap' => run r2 s' cap' k)
  | Group r' => run r' s cap (fun s' _ => k s' (Some (consumed s s')))
  end.

(** A match attempt at the start of [s]. *)
Definition exec_at (r : regex) (s : string) : option match_state :=
  run r s None (fun s' cap => Some (cap, s')).

(** [s.match(r)] without the [g] flag: the first start position, from
    the left, at which the attempt succeeds. *)
Fixpoint search (r : regex) (s : string) : option match_state :=
  match exec_at r s with
  | Some m => Some m
  | None =>
      match s with
      | String _ s' => search r s'
      | "" => None
      end
  end.

(** [s.matchAll(r)] with the [g] flag: the matches from left to right,
    each search starting where the previous match ended (one further
    after an empty match).  [skip] counts the characters of the current
    match still to pass. *)
Fixpoint matchAll_from (r : regex) (skip : nat) (s : string)
    : list (option string) :=
  match skip with
  | S n =>
      match s with
      | String _ s' => matchAll_from r n s'
      | "" => []
      end
  | O =>
      match exec_at r s with
      | Some (cap, rest) =>
          cap ::
          match s with
          | String _ s' =>
              matchAll_from r (String.length s - String.length rest - 1) s'
          | "" => []
          end
      | None =>
          match s with
          | String _ s' => matchAll_from r 0 s'
          | "" => []
          end
      end
  end.

Definition matchAll (r : regex) (s : string) : list (option string) :=
  matchAll_from r 0 s.

(** [s.replace(r, rep)] with the [g] flag and a replacement text
    without [$]. *)
Fixpoint replace_from (r : regex) (rep : string) (skip : nat) (s : string)
    : string :=
  match skip with
  | S n =>
      match s with
      | String _ s' => replace_from r rep n s'
      | "" => ""
      end
  | O =>
      match exec_at r s with
      | Some (_, rest) =>
          match String.length s - String.length rest with
          | O =>
              rep ++
              match s with
              | String c s' => String c (replace_from r rep 0 s')
              | "" => ""
              end
          | S n =>
              rep ++
              match s with
              | String _ s' => replace_from r rep n s'
              | "" => ""
              end
          end
      | None =>
          match s with
          | String c s' => String c (replace_from r rep 0 s')
          | "" => ""
          end
      end
  end.

End Matcher.

(** [s.replace(/l/g, rep)] for a literal [l], case-sensitive. *)
Definition replace_all (l rep s : string) : string :=
  replace_from false (Lit l) rep 0 s.

(** The capture group of a match result, [match[1]].  In every match of
    an expression of the sources the group has taken part
    ([captures_always] below), so the other branch is never taken. *)
Definition group1 (m : match_state) : string :=
  match fst m with Some c => c | None => "" end.

End Regex.
Import Regex.

(** ** Dates

    A [Date] object is its time value.  The UTC field getters follow the
    language definition over the proleptic Gregorian calendar; on an
    invalid date every getter returns NaN. *)

Inductive JSDate : Type :=
| ValidDate (t : Z)      (* milliseconds since 1970-01-01T00:00:00Z *)
| InvalidDate.           (* the time value is NaN *)

(** [date.getTime()]: [None] stands for NaN. *)
Definition getTime (d : JSDate) : option Z :=
  match d with
  | ValidDate t => Some t
  | InvalidDate => None
  end.

Module UTC.
Local Open Scope Z_scope.

Definition msPerDay : Z := 86400000.
Definition Day (t : Z) : Z := t / msPerDay.
Definition WeekDay (t : Z) : Z := (Day t + 4) mod 7.
Definition HourFromTime (t : Z) : Z := (t / 3600000) mod 24.
Definition MinFromTime (t : Z) : Z := (t / 60000) mod 60.
Definition SecFromTime (t : Z) : Z := (t / 1000) mod 60.

(** Year, month (1-12) and day of the month of a day number counted
    from the epoch. *)
Definition civil (day : Z) : Z * Z * Z :=
  let z := day + 719468 in
  let era := z / 146097 in
  let doe := z - era * 146097 in
  let yoe := (doe - doe / 1460 + doe / 36524 - doe / 146096) / 365 in
  let doy := doe - (365 * yoe + yoe / 4 - yoe / 100) in
  let mp := (5 * doy + 2) / 153 in
  let d := doy - (153 * mp + 2) / 5 + 1 in
  let m := if mp <? 10 then mp + 3 else mp - 9 in
  let y := yoe + era * 400 in
  (if m <=? 2 then y + 1 else y, m, d).

Definition YearFromTime (t : Z) : Z := fst (fst (civil (Day t))).
Definition MonthFromTime (t : Z) : Z := snd (fst (civil (Day t))) - 1.
Definition DateFromTime (t : Z) : Z := snd (civil (Day t)).

End UTC.

(** [Date.prototype.toUTCString], which the language defines in full:
    the names of its two tables, the day of the month on two digits, the
    year on at least four with its sign, and the time of day. *)
Definition weekdayNames : list string :=
  ["Sun"; "Mon"; "Tue"; "Wed"; "Thu"; "Fri"; "Sat"].
Definition monthNames : list string :=
  ["Jan"; "Feb"; "Mar"; "Apr"; "May"; "Jun";
   "Jul"; "Aug"; "Sep"; "Oct"; "Nov"; "Dec"].

Fixpoint zeros (n : nat) : string :=
  match n with
  | O => ""
  | S n' => String "0" (zeros n')
  end.

(** ToZeroPaddedDecimalString. *)
Definition zeroPadded (n : Z) (minLength : nat) : string :=
  let s := number_to_string n in
  zeros (minLength - String.length s) ++ s.

Definition toUTCString (date : JSDate) : string :=
  match date with
  | ValidDate tv =>
      let weekday := nth (Z.to_nat (UTC.WeekDay tv)) weekdayNames "" in
      let month := nth (Z.to_nat (UTC.MonthFromTime tv)) monthNames "" in
      let day := zeroPadded (UTC.DateFromTime tv) 2 in
      let yv := UTC.YearFromTime tv in
      let yearSign := if (0 <=? yv)%Z then "" else "-" in
      let paddedYear := zeroPadded (Z.abs yv) 4 in
      weekday ++ ", " ++ day ++ " " ++ month ++ " " ++ yearSign ++ paddedYear
      ++ " " ++ zeroPadded (UTC.HourFromTime tv) 2
      ++ ":" ++ zeroPadded (UTC.MinFromTime tv) 2
      ++ ":" ++ zeroPadded (UTC.SecFromTime tv) 2 ++ " GMT"
  | InvalidDate => "Invalid Date"
  end.

(** ** The data model ([src/types.ts]) *)

Record FeedEnclosure : Type := {
  enclosure_url : string;
  enclosure_length : Z;
  enclosure_type : string
}.

Record FeedSource : Type := {
  source_url : string;
  source_title : string
}.

Record FeedItem : Type := {
  title : string;
  link : string;
  description : string;
  author : option string;
  category : option string;
  comments : option string;
  enclosure : option FeedEnclosure;
  guid : option string;
  pubDate : option JSDate;
  source : option FeedSource
}.

Record FeedImage : Type := {
  image_url : string;
  image_title : string;
  image_link : string;
  image_width : option Z;
  image_height : option Z;
  image_description : option string
}.

Record FeedConfig : Type := {
  config_title : string;
  config_description : string;
  config_link : string;
  config_language : option string;
  config_copyright : option string;
  config_managingEditor : option string;
  config_webMaster : option string;
  config_pubDate : option JSDate;
  config_lastBuildDate : option JSDate;
  config_category : option string;
  config_generator : option string;
  config_docs : option string;
  config_ttl : option Z;
  config_image : option FeedImage
}.

Record SourceFeed : Type := {
  feed_url : string;
  feed_title : string
}.

Record AggregatorConfig : Type := {
  aggregator_title : string;
  aggregator_description : string;
  aggregator_link : string;
  aggregator_sources : list SourceFeed;
  aggregator_maxItems : option Z;
  aggregator_language : option string;
  aggregator_copyright : option string
}.

(** ** The parser ([src/rss-parser.ts]) *)

Module RSSParser.

(** [decodeHTML]: five global replacements, in the order of the source. *)
Definition decodeHTML (str : string) : string :=
  replace_all "&apos;" "'"
    (replace_all "&quot;" dq
      (replace_all "&gt;" ">"
        (replace_all "&lt;" "<"
          (replace_all "&amp;" "&" str)))).

(** The two regular expressions [extractTag] builds from [tagName].  The
    tag names of the sources are letters with at most a colon, which
    stand for themselves in the pattern. *)
Definition tagRegex (tagName : string) : regex :=
  (Lit ("<" ++ tagName) ;; Star (none_of ">") ;; Lit ">" ;;
   Group (StarLazy any) ;; Lit ("</" ++ tagName ++ ">"))%re.

Definition nsTagRegex (tagName : string) : regex :=
  (Lit "<" ;; Star (none_of ":") ;; Lit (":" ++ tagName) ;;
   Star (none_of ">") ;; Lit ">" ;;
   Group (StarLazy any) ;;
   Lit "</" ;; Star (none_of ":") ;; Lit (":" ++ tagName ++ ">"))%re.

(** [extractTag]: [None] is the [null] of the source. *)
Definition extractTag (xml tagName : string) : option string :=
  let m := search true (tagRegex tagName) xml in
  let m :=
    match m with
    | None =>
        if negb (includes ":" tagName)
        then search true (nsTagRegex tagName) xml
        else None
    | Some _ => m
    end in
  match m with
  | Some m => Some (decodeHTML (trim (group1 m)))
  | None => None
  end.

Definition cdataRegex (tagName : string) : regex :=
  (Lit ("<" ++ tagName) ;; Star (none_of ">") ;; Lit "><![CDATA[" ;;
   Group (StarLazy any) ;; Lit ("]]></" ++ tagName ++ ">"))%re.

(** [extractCDATA]. *)
Definition extractCDATA (xml tagName : string) : option string :=
  match search true (cdataRegex tagName) xml with
  | Some m => Some (trim (group1 m))
  | None => None
  end.

Definition itemRegex : regex :=
  (Lit "<item>" ;; Group (StarLazy any) ;; Lit "</item>")%re.

Definition entryRegex : regex :=
  (Lit "<entry>" ;; Group (StarLazy any) ;; Lit "</entry>")%re.

(** The regular expression of [parseAtom] for the [href] of a [link]
    element; [quotes] is its class of the two quote characters. *)
Definition quotes : string := dq ++ "'".

Definition linkHrefRegex : regex :=
  (Lit "<link" ;; Star (none_of ">") ;; Lit "href=" ;; Cls (one_of quotes) ;;
   Group (Plus (none_of quotes)) ;; Cls (one_of quotes))%re.

(** [match[1]] of one [matchAll] result (always present, as above). *)
Definition capture (c : option string) : string :=
  match c with Some x => x | None => "" end.

Section WithDate.
(** [new Date(text)]: the host's date parser, which the language leaves
    to the implementation for every format but its own ISO one. *)
Variable newDate : string -> JSDate.

(** [if (sourceTitle) item.source = { url: sourceUrl, title: sourceTitle }]. *)
Definition sourceOf (sourceUrl : string) (sourceTitle : option string)
    : option FeedSource :=
  match if_truthy sourceTitle with
  | Some t => Some {| source_url := sourceUrl; source_title := t |}
  | None => None
  end.

(** [if (str) item.pubDate = new Date(str)]. *)
Definition dateOf (str : option string) : option JSDate :=
  match if_truthy str with
  | Some s => Some (newDate s)
  | None => None
  end.

(** The body of the loop of [parseRSS], for one item span. *)
Definition parseRSSItem (sourceUrl : string) (sourceTitle : option string)
    (itemXML : string) : FeedItem :=
  {| title := or_default (extractTag itemXML "title") "Untitled";
     link := or_default (extractTag itemXML "link") "";
     description :=
       or_default
         (or_else (extractCDATA itemXML "description")
                  (extractTag itemXML "description")) "";
     author :=
       if_truthy (or_else (extractTag itemXML "author")
                          (extractTag itemXML "dc:creator"));
     category := if_truthy (extractTag itemXML "category");
     comments := None;
     enclosure := None;
     guid := if_truthy (extractTag itemXML "guid");
     pubDate :=
       dateOf (or_else (extractTag itemXML "pubDate")
                       (extractTag itemXML "dc:date"));
     source := sourceOf sourceUrl sourceTitle |}.

Definition parseRSS (xmlContent sourceUrl : string)
    (sourceTitle : option string) : list FeedItem :=
  map (fun m => parseRSSItem sourceUrl sourceTitle (capture m))
      (matchAll true itemRegex xmlContent).

(** The body of the loop of [parseAtom], for one entry span. *)
Definition parseAtomEntry (sourceUrl : string) (sourceTitle : option string)
    (entryXML : string) : FeedItem :=
  let linkMatch := search true linkHrefRegex entryXML in
  let link := match linkMatch with Some m => group1 m | None => "" end in
  {| title := or_default (extractTag entryXML "title") "Untitled";
     link := link;
     description :=
       or_default
         (or_else
            (or_else
               (or_else (extractCDATA entryXML "content")
                        (extractTag entryXML "content"))
               (extractCDATA entryXML "summary"))
            (extractTag entryXML "summary")) "";
     author :=
       match if_truthy (extractTag entryXML "author") with
       | Some a => if_truthy (extractTag a "name")
       | None => None
       end;
     category := if_truthy (extractTag entryXML "category");
     comments := None;
     enclosure := None;
     guid := if_truthy (extractTag entryXML "id");
     pubDate :=
       dateOf (or_else (extractTag entryXML "published")
                       (extractTag entryXML "updated"));
     source := sourceOf sourceUrl sourceTitle |}.

Definition parseAtom (xmlContent sourceUrl : string)
    (sourceTitle : option string) : list FeedItem :=
  map (fun m => parseAtomEntry sourceUrl sourceTitle (capture m))
      (matchAll true entryRegex xmlContent).

Definition atomNamespace : string :=
  "xmlns=" ++ dq ++ "http://www.w3.org/2005/Atom" ++ dq.

(** The dialect test of [parse]. *)
Definition isAtom (xmlContent : string) : bool :=
  includes "<feed" xmlContent && includes atomNamespace xmlContent.

Definition parse (xmlContent sourceUrl : string)
    (sourceTitle : option string) : list FeedItem :=
  if isAtom xmlContent
  then parseAtom xmlContent sourceUrl sourceTitle
  else parseRSS xmlContent sourceUrl sourceTitle.

End WithDate.

End RSSParser.

(** ** Promises

    An [async] function is modelled by how its promise settles.  [await]
    is [bind]; a [throw] inside an [async] function rejects its promise. *)

Module Promise.

Inductive Promise (A : Type) : Type :=
| Fulfilled (a : A)
| Rejected (reason : string).
Arguments Fulfilled {A} a.
Arguments Rejected {A} reason.

Definition bind {A B : Type} (p : Promise A) (k : A -> Promise B) : Promise B :=
  match p with
  | Fulfilled a => k a
  | Rejected e => Rejected e
  end.

(** [p.catch(handler)], and [try { ... } catch (error) { ... }] around
    awaited code. *)
Definition catch {A : Type} (p : Promise A) (handler : string -> Promise A)
    : Promise A :=
  match p with
  | Fulfilled a => Fulfilled a
  | Rejected e => handler e
  end.

(** [Promise.all]: the values in the order of the promises, or the first
    rejection. *)
Fixpoint all {A : Type} (ps : list (Promise A)) : Promise (list A) :=
  match ps with
  | [] => Fulfilled []
  | p :: rest =>
      bind p (fun a => bind (all rest) (fun others => Fulfilled (a :: others)))
  end.

End Promise.
Import Promise.

Notation "'let*' x ':=' 'await' p 'in' k" := (bind p (fun x => k))
  (at level 10, x name, p at level 100, k at level 200).

(** ** The aggregator ([src/feed-aggregator.ts]) *)

Module FeedAggregator.
Local Open Scope Z_scope.

(** What [fetch] resolves to, as far as [fetchFeed] reads it. *)
Record Response : Type := {
  ok : bool;
  status : Z;
  statusText : string;
  text : Promise string           (* [response.text()] *)
}.

(** The comparator of [aggregate].  [getTime()] is an integer or NaN
    ([None]); the difference of two integers keeps its sign in floating
    point, and the sort reads nothing but the sign. *)
Definition timeOf (a : FeedItem) : option Z :=
  match pubDate a with
  | Some d => getTime d          (* a Date object is truthy, valid or not *)
  | None => Some 0
  end.

Definition compareFn (a b : FeedItem) : option Z :=
  match timeOf a, timeOf b with
  | Some dateA, Some dateB => Some (dateB - dateA)
  | _, _ => None
  end.

(** [Array.prototype.sort(comparefn)]: a stable sort on the sign of the
    comparator, a NaN result counting as 0.  The language fixes the
    result only for a consistent comparator, for which every stable sort
    returns the same array ([sort_unique] below): this is the case of
    [compareFn] on items of which none carries an invalid date.  For
    another comparator the result depends on the pairs the engine
    chooses to compare.  The calls are those of V8 on an array of fewer
    than 64 elements: it takes the run the array begins with, reversing
    a strictly descending one, and inserts the elements after it one by
    one at the place a binary search gives.  On a longer array V8 makes
    such runs of 32 to 64 elements and merges them; the definition goes
    on inserting, which gives the same array for a consistent
    comparator and may give another one for a list of 64 items or more
    that holds an invalid date. *)
Section Sort.
Context {A : Type}.
Variable comparefn : A -> A -> option Z.

(** What the sort reads of [comparefn(x, y)]: a NaN counts as 0. *)
Definition compareArrayElements (x y : A) : Z :=
  match comparefn x y with
  | Some v => v
  | None => 0%Z
  end.

(** The loop of CountAndMakeRun: how many elements of [work] go on the
    run that [previousElement] ends. *)
Fixpoint countRun (isDescending : bool) (previousElement : A) (work : list A)
    : nat :=
  match work with
  | [] => 0%nat
  | currentElement :: work' =>
      let order := compareArrayElements currentElement previousElement in
      if (if isDescending then 0 <=? order else order <? 0)%Z then 0%nat
      else S (countRun isDescending currentElement work')
  end.

(** CountAndMakeRun: the run the array starts with, a strictly
    descending one reversed, and the elements after it. *)
Definition countAndMakeRun (work : list A) : list A * list A :=
  match work with
  | elementHigh :: elementLow :: work' =>
      let isDescending := (compareArrayElements elementLow elementHigh <? 0)%Z in
      let runLength := (2 + countRun isDescending elementLow work')%nat in
      let run := firstn runLength work in
      (if isDescending then rev run else run, skipn runLength work)
  | _ => (work, [])
  end.

(** The binary search of BinaryInsertionSort, between [left] and
    [right]; [fuel] bounds the number of halvings, and the length of the
    interval is enough ([binarySearch_spec] below). *)
Fixpoint binarySearch (fuel : nat) (pivot : A) (work : list A) (left right : nat)
    : nat :=
  match fuel with
  | O => left
  | S fuel' =>
      if (left <? right)%nat then
        let mid := (left + (right - left) / 2)%nat in
        match nth_error work mid with
        | Some element =>
            if (compareArrayElements pivot element <? 0)%Z
            then binarySearch fuel' pivot work left mid
            else binarySearch fuel' pivot work (mid + 1)%nat right
        | None => left
        end
      else left
  end.

(** One step of BinaryInsertionSort: [pivot], the element that follows
    the sorted [work], is moved to the place the search gives. *)
Definition insertPivot (work : list A) (pivot : A) : list A :=
  let left := binarySearch (length work) pivot work 0 (length work) in
  firstn left work ++ pivot :: skipn left work.

Definition sort (work : list A) : list A :=
  let (run, rest) := countAndMakeRun work in
  fold_left insertPivot rest run.
End Sort.

(** [array.slice(0, end)]. *)
Definition slice0 {A : Type} (final : Z) (l : list A) : list A :=
  if final <? 0
  then firstn (length l - Z.to_nat (- final)) l
  else firstn (Z.to_nat final) l.

(** Lines 31-48 of [aggregate]: what it does with the settled results. *)
Definition combineItems (results : list (list FeedItem)) (maxItems : option Z)
    : list FeedItem :=
  let allItems := concat results in
  let allItems := sort compareFn allItems in
  match maxItems with
  | Some n => if negb (n =? 0) && (n >? 0) then slice0 n allItems else allItems
  | None => allItems
  end.

Section WithNetwork.
Variable newDate : string -> JSDate.
(** The network: how the request for a URL settles (a request is known
    by its URL: two sources with one URL get one answer). *)
Variable fetch : string -> Promise Response.

Definition fetchFeed (url title : string) : Promise (list FeedItem) :=
  catch
    (let* response := await fetch url in
     if negb (ok response)
     then Rejected ("HTTP " ++ number_to_string (status response) ++ ": "
                    ++ statusText response)%string
     else
       let* xmlContent := await text response in
       Fulfilled (RSSParser.parse newDate xmlContent url (Some title)))
    (fun error => Rejected error).      (* logged, then thrown again *)

Definition aggregate (sources : list SourceFeed) (maxItems : option Z)
    : Promise (list FeedItem) :=
  let fetchPromises :=
    map (fun source =>
           catch (fetchFeed (feed_url source) (feed_title source))
                 (fun error => Fulfilled []))
        sources in
  let* results := await all fetchPromises in
  Fulfilled (combineItems results maxItems).

End WithNetwork.

(** [extractFeedMetadata] and its regular expressions. *)
Local Open Scope string_scope.

Record FeedMetadata : Type := {
  metadata_title : option string;
  metadata_description : option string;
  metadata_link : option string
}.

(** [/<tag[^>]*>([^<]+)<\/tag>/i] and [/<tag>([^<]+)<\/tag>/i]. *)
Definition attributedTextRegex (tag : string) : regex :=
  (Lit ("<" ++ tag) ;; Star (none_of ">") ;; Lit ">" ;;
   Group (Plus (none_of "<")) ;; Lit ("</" ++ tag ++ ">"))%re.

Definition textRegex (tag : string) : regex :=
  (Lit ("<" ++ tag ++ ">") ;;
   Group (Plus (none_of "<")) ;; Lit ("</" ++ tag ++ ">"))%re.

(** The expression for the [href] of the [link] element of an Atom
    feed: that of [parseAtom], followed by the rest of the tag. *)
Definition linkElementRegex : regex :=
  (Lit "<link" ;; Star (none_of ">") ;; Lit "href=" ;;
   Cls (one_of RSSParser.quotes) ;; Group (Plus (none_of RSSParser.quotes)) ;;
   Cls (one_of RSSParser.quotes) ;; Star (none_of ">") ;; Lit ">")%re.

Definition channelRegex : regex :=
  (Lit "<channel>" ;; Group (StarLazy any) ;; Lit "</channel>")%re.

(** [const m = text.match(r); if (m) field = m[1].trim()]. *)
Definition matchTrimmed (r : regex) (text : string) : option string :=
  match search true r text with
  | Some m => Some (trim (group1 m))
  | None => None
  end.

Definition extractFeedMetadata (xmlContent : string) : FeedMetadata :=
  let isAtom :=
    includes "<feed" xmlContent
    && includes ("xmlns=" ++ dq ++ "http://www.w3.org/2005/Atom" ++ dq)
                xmlContent in
  if isAtom then
    {| metadata_title := matchTrimmed (attributedTextRegex "title") xmlContent;
       metadata_description :=
         matchTrimmed (attributedTextRegex "subtitle") xmlContent;
       metadata_link := matchTrimmed linkElementRegex xmlContent |}
  else
    match search true channelRegex xmlContent with
    | Some channelMatch =>
        let channelContent := group1 channelMatch in
        {| metadata_title := matchTrimmed (textRegex "title") channelContent;
           metadata_description :=
             matchTrimmed (textRegex "description") channelContent;
           metadata_link := matchTrimmed (textRegex "link") channelContent |}
    | None =>
        {| metadata_title := None; metadata_description := None;
           metadata_link := None |}
    end.

End FeedAggregator.

(** ** The builder ([src/rss-builder.ts]) *)

Module RSSFeedBuilder.
Local Open Scope string_scope.

Record RSSFeedBuilder : Type := {
  config : FeedConfig;
  items : list FeedItem
}.

Definition new (c : FeedConfig) : RSSFeedBuilder :=
  {| config := c; items := [] |}.


Definition addItems (b : RSSFeedBuilder) (more : list FeedItem)
    : RSSFeedBuilder :=
  {| config := config b; items := (items b ++ more)%list |}.

Definition escapeXML (str : string) : string :=
  replace_all "'" "&apos;"
    (replace_all dq "&quot;"
      (replace_all ">" "&gt;"
        (replace_all "<" "&lt;"
          (replace_all "&" "&amp;" str)))).

Definition days : list string :=
  ["Sun"; "Mon"; "Tue"; "Wed"; "Thu"; "Fri"; "Sat"].
Definition months : list string :=
  ["Jan"; "Feb"; "Mar"; "Apr"; "May"; "Jun";
   "Jul"; "Aug"; "Sep"; "Oct"; "Nov"; "Dec"].

(** [formatDate].  On an invalid date every getter is NaN, the two table
    lookups are [undefined], and the template prints them as such. *)
Definition formatDate (date : JSDate) : string :=
  match date with
  | ValidDate t =>
      let day := nth (Z.to_nat (UTC.WeekDay t)) days "undefined" in
      let dayNum := padStart2 (number_to_string (UTC.DateFromTime t)) in
      let month := nth (Z.to_nat (UTC.MonthFromTime t)) months "undefined" in
      let year := number_to_string (UTC.YearFromTime t) in
      let hours := padStart2 (number_to_string (UTC.HourFromTime t)) in
      let minutes := padStart2 (number_to_string (UTC.MinFromTime t)) in
      let seconds := padStart2 (number_to_string (UTC.SecFromTime t)) in
      day ++ ", " ++ dayNum ++ " " ++ month ++ " " ++ year ++ " "
      ++ hours ++ ":" ++ minutes ++ ":" ++ seconds ++ " GMT"
  | InvalidDate => "undefined, NaN undefined NaN NaN:NaN:NaN GMT"
  end.

(** [if (field) xml.push(line(field))] for an optional string, an
    optional number and an optional object. *)
Definition push_if (field : option string) (line : string -> string)
    : list string :=
  match if_truthy field with
  | Some v => [line v]
  | None => []
  end.

Definition push_if_number (field : option Z) (line : Z -> string)
    : list string :=
  match field with
  | Some n => if (n =? 0)%Z then [] else [line n]
  | None => []
  end.

Definition push_if_object {A : Type} (field : option A)
    (lines : A -> list string) : list string :=
  match field with
  | Some v => lines v
  | None => []
  end.

(** An XML element and an XML attribute, as the templates write them. *)
Definition element (tag body : string) : string :=
  "<" ++ tag ++ ">" ++ body ++ "</" ++ tag ++ ">".
Definition attribute (name value : string) : string :=
  name ++ "=" ++ dq ++ value ++ dq.

(** The [guid] element of [buildItem]. *)
Definition guidLine (item : FeedItem) : string :=
  let guid' := or_default (guid item) (link item) in
  let isPermaLink := if truthy (guid item) then "false" else "true" in
  "<guid " ++ attribute "isPermaLink" isPermaLink ++ ">"
  ++ escapeXML guid' ++ "</guid>".

(** The lines [buildItem] pushes, in order. *)
Definition buildItemLines (item : FeedItem) : list string :=
  List.concat
  [ ["<item>";
    element "title" (escapeXML (title item));
    element "link" (escapeXML (link item));
    "<description><![CDATA[" ++ description item ++ "]]></description>"];
    push_if (author item) (fun v => element "author" (escapeXML v));
    push_if (category item) (fun v => element "category" (escapeXML v));
    push_if (comments item) (fun v => element "comments" (escapeXML v));
    push_if_object (enclosure item) (fun e =>
        ["<enclosure " ++ attribute "url" (escapeXML (enclosure_url e)) ++ " "
         ++ attribute "length" (number_to_string (enclosure_length e)) ++ " "
         ++ attribute "type" (escapeXML (enclosure_type e)) ++ " />"]);
    [guidLine item];
    push_if_object (pubDate item) (fun d =>
        [element "pubDate" (formatDate d)]);
    push_if_object (source item) (fun s =>
        ["<source " ++ attribute "url" (escapeXML (source_url s)) ++ ">"
         ++ escapeXML (source_title s) ++ "</source>"]);
    ["</item>"] ].

Definition buildItem (item : FeedItem) : string :=
  join nl (buildItemLines item).

Definition imageLines (image : FeedImage) : list string :=
  List.concat
  [ ["<image>";
    element "url" (escapeXML (image_url image));
    element "title" (escapeXML (image_title image));
    element "link" (escapeXML (image_link image))];
    push_if_number (image_width image)
        (fun n => element "width" (number_to_string n));
    push_if_number (image_height image)
        (fun n => element "height" (number_to_string n));
    push_if (image_description image)
        (fun v => element "description" (escapeXML v));
    ["</image>"] ].

Definition defaultGenerator : string :=
  "RSS Feed Generator for Cloudflare Workers".

(** The lines [build] pushes before the items. *)
Definition channelLines (c : FeedConfig) : list string :=
  List.concat
  [ ["<?xml " ++ attribute "version" "1.0" ++ " "
      ++ attribute "encoding" "UTF-8" ++ "?>";
    "<rss " ++ attribute "version" "2.0" ++ " "
      ++ attribute "xmlns:atom" "http://www.w3.org/2005/Atom" ++ " "
      ++ attribute "xmlns:content" "http://purl.org/rss/1.0/modules/content/"
      ++ ">";
    "<channel>";
    element "title" (escapeXML (config_title c));
    element "link" (escapeXML (config_link c));
    element "description" (escapeXML (config_description c))];
    push_if (config_language c) (fun v => element "language" (escapeXML v));
    push_if (config_copyright c) (fun v => element "copyright" (escapeXML v));
    push_if (config_managingEditor c)
        (fun v => element "managingEditor" (escapeXML v));
    push_if (config_webMaster c) (fun v => element "webMaster" (escapeXML v));
    push_if_object (config_pubDate c)
        (fun d => [element "pubDate" (formatDate d)]);
    push_if_object (config_lastBuildDate c)
        (fun d => [element "lastBuildDate" (formatDate d)]);
    push_if (config_category c) (fun v => element "category" (escapeXML v));
    [element "generator"
         (escapeXML (or_default (config_generator c) defaultGenerator))];
    push_if (config_docs c) (fun v => element "docs" (escapeXML v));
    push_if_number (config_ttl c)
        (fun n => element "ttl" (number_to_string n));
    push_if_object (config_image c) imageLines;
    ["<atom:link " ++ attribute "href" (escapeXML (config_link c) ++ "/rss")
       ++ " " ++ attribute "rel" "self" ++ " "
       ++ attribute "type" "application/rss+xml" ++ " />"] ].

Definition buildLines (b : RSSFeedBuilder) : list string :=
  List.concat
  [ channelLines (config b);
    map buildItem (items b);
    ["</channel>"; "</rss>"] ].

Definition build (b : RSSFeedBuilder) : string :=
  join nl (buildLines b).

End RSSFeedBuilder.

Import RSSParser FeedAggregator RSSFeedBuilder.

(** ** The configuration ([src/config.ts]) *)

Module Config.

(** [aggregatorConfig].  [fullYear] is [new Date().getFullYear()] at the
    time the module is loaded. *)
Definition aggregatorConfig (fullYear : Z) : AggregatorConfig :=
  {| aggregator_title := "AI News Aggregator";
     aggregator_description :=
       "Latest artificial intelligence news from leading sources";
     aggregator_link := "https://rss-feed-generator.sas-innovation.workers.dev";
     aggregator_language := Some "en-us";
     aggregator_copyright :=
       Some ("Copyright " ++ number_to_string fullYear
             ++ " SAS Technology and Innovation");
     aggregator_maxItems := Some 100%Z;
     aggregator_sources :=
       [ {| feed_url :=
              "https://techcrunch.com/category/artificial-intelligence/feed/";
            feed_title := "TechCrunch AI" |};
         {| feed_url :=
              "https://news.mit.edu/topic/mitartificial-intelligence2-rss.xml";
            feed_title := "MIT News - AI" |};
         {| feed_url := "https://deepmind.google/blog/rss.xml";
            feed_title := "Google DeepMind" |};
         {| feed_url := "https://www.artificialintelligence-news.com/feed/";
            feed_title := "AI News" |} ] |}.

End Config.

(** ** JSON

    [JSON.stringify] for the values the worker serialises. *)

Module JSON.

(** The values the worker serialises; an object keeps its properties in
    the order they were written. *)
Unset Elimination Schemes.
Inductive value : Type :=
| Null
| Bool (b : bool)
| Num (n : Z)
| Str (s : string)
| Arr (elements : list value)
| Obj (properties : list (string * value)).
Set Elimination Schemes.

Definition backslash : string := String (ascii_of_nat 92) "".

Definition hexDigit (n : nat) : string :=
  nth n ["0"; "1"; "2"; "3"; "4"; "5"; "6"; "7"; "8"; "9";
         "a"; "b"; "c"; "d"; "e"; "f"] "".

(** QuoteJSONString, one code unit at a time. *)
Definition quoteChar (c : ascii) : string :=
  let n := nat_of_ascii c in
  (if n =? 8 then backslash ++ "b"
   else if n =? 9 then backslash ++ "t"
   else if n =? 10 then backslash ++ "n"
   else if n =? 12 then backslash ++ "f"
   else if n =? 13 then backslash ++ "r"
   else if n =? 34 then backslash ++ dq
   else if n =? 92 then backslash ++ backslash
   else if n <? 32 then
     backslash ++ "u00" ++ hexDigit (n / 16) ++ hexDigit (n mod 16)
   else String c "")%nat.

Fixpoint quoteChars (s : string) : string :=
  match s with
  | "" => ""
  | String c s' => quoteChar c ++ quoteChars s'
  end.

Definition quote (s : string) : string := dq ++ quoteChars s ++ dq.

(** The end of SerializeJSONObject and SerializeJSONArray: the members,
    already serialised, between the two brackets; [stepback] is the
    indentation outside and [gap] what one level adds to it. *)
Definition enclose (gap stepback opening closing : string)
    (partial : list string) : string :=
  match partial with
  | [] => opening ++ closing
  | _ =>
      if gap =? "" then opening ++ join "," partial ++ closing
      else
        let indent := stepback ++ gap in
        opening ++ nl ++ indent ++ join ("," ++ nl ++ indent) partial
        ++ nl ++ stepback ++ closing
  end.

(** SerializeJSONProperty, for the indentation [indent] reached. *)
Fixpoint serialize (gap indent : string) (v : value) : string :=
  match v with
  | Null => "null"
  | Bool b => if b then "true" else "false"
  | Num n => if isFinite n then number_to_string n else "null"
  | Str s => quote s
  | Arr elements =>
      enclose gap indent "[" "]" (map (serialize gap (indent ++ gap)) elements)
  | Obj properties =>
      enclose gap indent "{" "}"
        (map (fun p =>
                quote (fst p) ++ ":" ++ (if gap =? "" then "" else " ")
                ++ serialize gap (indent ++ gap) (snd p))
             properties)
  end.

(** [JSON.stringify(value)] and [JSON.stringify(value, null, 2)]. *)
Definition stringify (v : value) : string := serialize "" "" v.
Definition stringify2 (v : value) : string := serialize "  " "" v.

(** [object.key], for an object written as a literal. *)
Fixpoint lookup (key : string) (properties : list (string * value))
    : option value :=
  match properties with
  | [] => None
  | (k, v) :: rest => if k =? key then Some v else lookup key rest
  end.

Definition field (key : string) (v : value) : option value :=
  match v with
  | Obj properties => lookup key properties
  | _ => None
  end.

End JSON.

(** ** Reading the clock *)

(** A handler that reads the clock is a promise that also counts its
    readings: it is given the number of readings made before it and
    returns, with how it settles, the number made after it.  A reading
    made before a rejection stays made. *)
Module Timed.

Definition Timed (A : Type) : Type := nat -> Promise A * nat.

Definition ret {A : Type} (a : A) : Timed A := fun n => (Fulfilled a, n).

Definition bind {A B : Type} (m : Timed A) (k : A -> Timed B) : Timed B :=
  fun n =>
    match m n with
    | (Fulfilled a, n') => k a n'
    | (Rejected e, n') => (Rejected e, n')
    end.

(** [await p], for a promise that does not read the clock. *)
Definition await {A : Type} (p : Promise A) : Timed A := fun n => (p, n).

(** [try { body } catch (error) { handler }]. *)
Definition tryCatch {A : Type} (body : Timed A) (handler : string -> Timed A)
    : Timed A :=
  fun n =>
    match body n with
    | (Fulfilled a, n') => (Fulfilled a, n')
    | (Rejected e, n') => handler e n'
    end.

(** [for (const x of l) results.push(body(x))], where the body pushes
    one result and throws nothing. *)
Fixpoint forEach {A B : Type} (body : A -> Timed B) (l : list A)
    : Timed (list B) :=
  match l with
  | [] => ret []
  | x :: rest =>
      bind (body x) (fun b =>
      bind (forEach body rest) (fun bs => ret (b :: bs)))
  end.

End Timed.
Import Timed.

Notation "'let!' x ':=' m 'in' k" := (Timed.bind m (fun x => k))
  (at level 10, x name, m at level 100, k at level 200).

(** ** The worker ([src/index.ts])

    The handlers of the worker and its router.  The texts of its three
    pages are parameters, and the handler that is marked as deprecated
    and called from nowhere is left out. *)

Module Worker.

(** A request, as far as the worker reads it: its method and the path of
    its URL. *)
Record Request : Type := {
  method : string;
  pathname : string
}.

(** What the handlers pass to [new Response(body, init)]: the body
    ([None] for [null]), the status (200 when [init] gives none) and the
    headers of [init]. *)
Record HttpResponse : Type := {
  http_body : option string;
  http_status : Z;
  http_headers : list (string * string)
}.

(** One entry of the array [getNewsAPI] answers with. *)
Record NewsItem : Type := {
  news_title : string;
  news_link : string;
  news_description : string;
  news_pubDate : string;
  news_source : string;
  news_image : string
}.

(** The expression for the [src] of the first [img] tag of a
    description, between quotes of either kind. *)
Definition imgRegex : regex :=
  (Lit "<img" ;; Plus (none_of ">") ;; Lit "src=" ;; Cls (one_of quotes) ;;
   Group (Plus (none_of quotes)) ;; Cls (one_of quotes))%re.

(** [/<[^>]*>/g]. *)
Definition markupRegex : regex :=
  (Lit "<" ;; Star (none_of ">") ;; Lit ">")%re.

(** The callback of [feedItems.slice(0, 50).map(...)]. *)
Definition newsItem (item : FeedItem) : NewsItem :=
  let imageUrl :=
    match search true imgRegex (description item) with
    | Some imgMatch => group1 imgMatch
    | None => ""
    end in
  {| news_title := title item;
     news_link := link item;
     news_description :=
       substring 0 200 (replace_from false markupRegex "" 0 (description item));
     news_pubDate :=
       match pubDate item with
       | Some d => toUTCString d
       | None => ""
       end;
     news_source :=
       or_default (option_map source_title (source item)) "Unknown";
     news_image := imageUrl |}.

(** The object literal of that callback. *)
Definition newsValue (n : NewsItem) : JSON.value :=
  JSON.Obj [ ("title", JSON.Str (news_title n));
             ("link", JSON.Str (news_link n));
             ("description", JSON.Str (news_description n));
             ("pubDate", JSON.Str (news_pubDate n));
             ("source", JSON.Str (news_source n));
             ("image", JSON.Str (news_image n)) ].

Definition corsHeaders : list (string * string) :=
  [ ("Access-Control-Allow-Origin", "*");
    ("Access-Control-Allow-Methods", "GET, OPTIONS");
    ("Access-Control-Allow-Headers", "Content-Type") ].

Section WithHost.
Variable newDate : string -> JSDate.
Variable fetch : string -> Promise Response.
(** The clock: the time value of reading number [i] of a request, by
    [new Date()] or [Date.now()]. *)
Variable clock : nat -> Z.
(** The binding imported from [src/config.ts]. *)
Variable aggregatorConfig : AggregatorConfig.
(** The three pages, which are constant texts but for the list of the
    sources. *)
Variables (getHTMLPage getEmbedWidget getEmbedInfoPage : string).

Definition dateNow : Timed Z := fun n => (Fulfilled (clock n), S n).

Definition generateRSSFeed : Timed HttpResponse :=
  tryCatch
    (let! feedItems :=
       await (aggregate newDate fetch (aggregator_sources aggregatorConfig)
                        (aggregator_maxItems aggregatorConfig)) in
     let! now := dateNow in
     let feedConfig :=
       {| config_title := aggregator_title aggregatorConfig;
          config_description := aggregator_description aggregatorConfig;
          config_link := aggregator_link aggregatorConfig;
          config_language := aggregator_language aggregatorConfig;
          config_copyright := aggregator_copyright aggregatorConfig;
          config_managingEditor := None;
          config_webMaster := None;
          config_pubDate := None;
          config_lastBuildDate := Some (ValidDate now);
          config_category := None;
          config_generator := Some "RSS Feed Aggregator for Cloudflare Workers";
          config_docs := None;
          config_ttl := None;
          config_image := None |} in
     let rssBuilder := new feedConfig in
     let rssXML := build (addItems rssBuilder feedItems) in
     ret {| http_body := Some rssXML;
            http_status := 200;
            http_headers :=
              [ ("Content-Type", "application/rss+xml; charset=utf-8");
                ("Cache-Control", "public, max-age=900, s-maxage=900") ] |})
    (fun error =>
       ret {| http_body := Some "Error generating RSS feed";
              http_status := 500;
              http_headers := [] |}).

Definition getNewsAPI (corsHeaders : list (string * string))
    : Timed HttpResponse :=
  tryCatch
    (let! feedItems :=
       await (aggregate newDate fetch (aggregator_sources aggregatorConfig)
                        (aggregator_maxItems aggregatorConfig)) in
     let items := map newsItem (slice0 50 feedItems) in
     ret {| http_body :=
              Some (JSON.stringify (JSON.Arr (map newsValue items)));
            http_status := 200;
            http_headers :=
              [ ("Content-Type", "application/json");
                ("Cache-Control", "public, max-age=900, s-maxage=900") ]
              ++ corsHeaders |})
    (fun error =>
       ret {| http_body :=
                Some (JSON.stringify
                        (JSON.Obj [("error", JSON.Str "Failed to fetch news")]));
              http_status := 500;
              http_headers :=
                [("Content-Type", "application/json")] ++ corsHeaders |}).

(** The body of the loop of [getDebugInfo].  The reason of a rejection
    stands for the text [error.message || String(error)] of its error. *)
Definition debugEntry (source : SourceFeed) : Timed JSON.value :=
  tryCatch
    (let! startTime := dateNow in
     let! response := await (fetch (feed_url source)) in
     let! fetchEnd := dateNow in
     let fetchTime := (fetchEnd - startTime)%Z in
     let! xmlContent := await (text response) in
     let! parseStartTime := dateNow in
     let items :=
       RSSParser.parse newDate xmlContent (feed_url source)
                       (Some (feed_title source)) in
     let! parseEnd := dateNow in
     let parseTime := (parseEnd - parseStartTime)%Z in
     ret (JSON.Obj
       [ ("source", JSON.Str (feed_title source));
         ("url", JSON.Str (feed_url source));
         ("status", JSON.Str (if ok response then "success" else "failed"));
         ("httpStatus", JSON.Num (status response));
         ("fetchTime", JSON.Str (number_to_string fetchTime ++ "ms"));
         ("parseTime", JSON.Str (number_to_string parseTime ++ "ms"));
         ("itemCount", JSON.Num (Z.of_nat (length items)));
         ("contentLength", JSON.Num (Z.of_nat (String.length xmlContent)));
         ("firstItem",
          match items with
          | first :: _ =>
              JSON.Obj
                [ ("title", JSON.Str (title first));
                  ("hasDescription",
                   JSON.Bool (negb (description first =? "")));
                  ("hasDate",
                   JSON.Bool (match pubDate first with
                              | Some _ => true
                              | None => false
                              end)) ]
          | [] => JSON.Null
          end) ]))
    (fun error =>
       ret (JSON.Obj
         [ ("source", JSON.Str (feed_title source));
           ("url", JSON.Str (feed_url source));
           ("status", JSON.Str "error");
           ("error", JSON.Str error) ])).

Definition getDebugInfo (corsHeaders : list (string * string))
    : Timed HttpResponse :=
  let! results := forEach debugEntry (aggregator_sources aggregatorConfig) in
  ret {| http_body := Some (JSON.stringify2 (JSON.Arr results));
         http_status := 200;
         http_headers := [("Content-Type", "application/json")] ++ corsHeaders |}.

(** The [fetch] method of the default export. *)
Definition fetchHandler (request : Request) : Timed HttpResponse :=
  if method request =? "OPTIONS" then
    ret {| http_body := None; http_status := 200;
           http_headers := corsHeaders |}
  else if (pathname request =? "/rss") || (pathname request =? "/feed") then
    generateRSSFeed
  else if pathname request =? "/" then
    ret {| http_body := Some getHTMLPage; http_status := 200;
           http_headers := [("Content-Type", "text/html; charset=utf-8")] |}
  else if pathname request =? "/embed" then
    ret {| http_body := Some getEmbedWidget; http_status := 200;
           http_headers :=
             [("Content-Type", "text/html; charset=utf-8")] ++ corsHeaders |}
  else if pathname request =? "/embed-info" then
    ret {| http_body := Some getEmbedInfoPage; http_status := 200;
           http_headers := [("Content-Type", "text/html; charset=utf-8")] |}
  else if pathname request =? "/api/news" then
    getNewsAPI corsHeaders
  else if pathname request =? "/debug" then
    getDebugInfo corsHeaders
  else
    ret {| http_body := Some "Not Found"; http_status := 404;
           http_headers := [] |}.

End WithHost.

End Worker.
Import Worker.

(** * Vocabulary of the properties

    Nothing below this line is part of the program: these are the
    predicates the theorems are stated with, the sample inputs of the
    witnesses and counterexamples, and the notions the proofs use. *)

(** ** The builder *)

(** Record updates, for statements that compare two inputs. *)
Definition with_guid (g : option string) (item : FeedItem) : FeedItem :=
  {| title := title item; link := link item; description := description item;
     author := author item; category := category item;
     comments := comments item; enclosure := enclosure item;
     guid := g; pubDate := pubDate item; source := source item |}.

Definition with_ttl (n : option Z) (c : FeedConfig) : FeedConfig :=
  {| config_title := config_title c;
     config_description := config_description c;
     config_link := config_link c;
     config_language := config_language c;
     config_copyright := config_copyright c;
     config_managingEditor := config_managingEditor c;
     config_webMaster := config_webMaster c;
     config_pubDate := config_pubDate c;
     config_lastBuildDate := config_lastBuildDate c;
     config_category := config_category c;
     config_generator := config_generator c;
     config_docs := config_docs c;
     config_ttl := n;
     config_image := config_image c |}.

Definition with_image (i : option FeedImage) (c : FeedConfig) : FeedConfig :=
  {| config_title := config_title c;
     config_description := config_description c;
     config_link := config_link c;
     config_language := config_language c;
     config_copyright := config_copyright c;
     config_managingEditor := config_managingEditor c;
     config_webMaster := config_webMaster c;
     config_pubDate := config_pubDate c;
     config_lastBuildDate := config_lastBuildDate c;
     config_category := config_category c;
     config_generator := config_generator c;
     config_docs := config_docs c;
     config_ttl := config_ttl c;
     config_image := i |}.

Definition with_size (w h : option Z) (i : FeedImage) : FeedImage :=
  {| image_url := image_url i; image_title := image_title i;
     image_link := image_link i;
     image_width := w; image_height := h;
     image_description := image_description i |}.

Definition with_pubDate (d : option JSDate) (item : FeedItem) : FeedItem :=
  {| title := title item; link := link item; description := description item;
     author := author item; category := category item;
     comments := comments item; enclosure := enclosure item;
     guid := guid item; pubDate := d; source := source item |}.

(** The lines of a list that open a given element. *)
Definition elements (opening : string) (lines : list string) : list string :=
  filter (starts_with opening) lines.

(** The two forms of the [guid] element. *)
Definition permalinkGuid (text : string) : string :=
  "<guid isPermaLink=" ++ dq ++ "true" ++ dq ++ ">" ++ text ++ "</guid>".


(** ** The aggregator *)

(** A comparator that orders by a key, largest first: what the sort
    reads of it is positive exactly when the first key is the smaller
    one, and negative exactly when it is the larger one. *)
Definition by_key {A : Type} (comparefn : A -> A -> option Z) (key : A -> Z)
    (l : list A) : Prop :=
  forall x y, In x l -> In y l ->
    (0 <? compareArrayElements comparefn x y)%Z = (key x <? key y)%Z /\
    (compareArrayElements comparefn x y <? 0)%Z = (key y <? key x)%Z.

(** In non-increasing order of the key. *)
Definition descending {A : Type} (key : A -> Z) : list A -> Prop :=
  StronglySorted (fun a b => (key b <= key a)%Z).

(** The elements of one key, in their order in the list. *)
Definition with_key {A : Type} (key : A -> Z) (k : Z) (l : list A) : list A :=
  filter (fun x => (key x =? k)%Z) l.

(** The time an item is sorted by: its date, or the epoch when it has
    none (meaningful for valid dates only). *)
Definition timestamp (item : FeedItem) : Z :=
  match timeOf item with
  | Some t => t
  | None => 0
  end.

(** No item carries an invalid date. *)
Definition valid_dates (l : list FeedItem) : Prop :=
  Forall (fun item => pubDate item <> Some InvalidDate) l.

(** Adjacent items are in non-increasing order of time. *)
Definition newest_first (out : list FeedItem) : Prop :=
  forall i a b,
    nth_error out i = Some a -> nth_error out (S i) = Some b ->
    (timestamp b <= timestamp a)%Z.

(** Every item without a date stands after every item with one. *)
Definition undated_last (out : list FeedItem) : Prop :=
  forall i j a b,
    nth_error out i = Some a -> nth_error out j = Some b ->
    pubDate a = None -> pubDate b <> None -> j < i.

(** Every item without a date stands after every item dated after the
    epoch. *)
Definition undated_after_positive (out : list FeedItem) : Prop :=
  forall i j a b t,
    nth_error out i = Some a -> nth_error out j = Some b ->
    pubDate a = None -> pubDate b = Some (ValidDate t) -> (0 < t)%Z -> j < i.

(** [out] keeps, among the items of each time, the order they have in
    [input]. *)
Definition keeps_order (out input : list FeedItem) : Prop :=
  forall k, with_key timestamp k out = with_key timestamp k input.

(** The text a settled request delivers, if it delivers one: the request
    is fulfilled, the status is a success and the body can be read. *)
Definition response_body (p : Promise Response) : option string :=
  match p with
  | Fulfilled r =>
      if ok r then
        match text r with
        | Fulfilled xml => Some xml
        | Rejected _ => None
        end
      else None
  | Rejected _ => None
  end.

Section Settled.
Variable newDate : string -> JSDate.
Variable fetch : string -> Promise Response.

Definition succeeded (source : SourceFeed) : bool :=
  match response_body (fetch (feed_url source)) with
  | Some _ => true
  | None => false
  end.

(** The items a source contributes. *)
Definition itemsOf (source : SourceFeed) : list FeedItem :=
  match response_body (fetch (feed_url source)) with
  | Some xml =>
      RSSParser.parse newDate xml (feed_url source) (Some (feed_title source))
  | None => []
  end.

Definition settled (sources : list SourceFeed) : list (list FeedItem) :=
  map itemsOf sources.
End Settled.

(** [maxItems] applied to a length. *)
Definition bounded (maxItems : option Z) (total : nat) : nat :=
  match maxItems with
  | Some k => if (0 <? k)%Z then Nat.min (Z.to_nat k) total else total
  | None => total
  end.

(** ** The parser *)

(** [s] contains [p]: the meaning of [includes]. *)
Definition contains (p s : string) : Prop :=
  exists before after_, s = before ++ p ++ after_.

(** The expression holds a capture group that every match passes. *)
Fixpoint captures (r : regex) : bool :=
  match r with
  | Group _ => true
  | Seq r1 r2 => captures r1 || captures r2
  | _ => false
  end.

(** Every match of [r], found by [match] or by [matchAll], has its
    capture group: reading [match[1]] gives a string. *)
Definition always_captures (r : regex) : Prop :=
  (forall s m, search true r s = Some m -> fst m <> None) /\
  (forall s, Forall (fun c => c <> None) (matchAll true r s)).

(** The item every field of which is defaulted or omitted. *)
Definition defaultItem (sourceUrl : string) (sourceTitle : option string)
    : FeedItem :=
  {| title := "Untitled"; link := ""; description := "";
     author := None; category := None; comments := None; enclosure := None;
     guid := None; pubDate := None;
     source := sourceOf sourceUrl sourceTitle |}.

(** ** Building and parsing back *)

(** The place of a character among the five that are escaped, in the
    order both functions treat them; 0 for every other character. *)
Definition rank (c : ascii) : nat :=
  if Ascii.eqb c "&" then 1
  else if Ascii.eqb c "<" then 2
  else if Ascii.eqb c ">" then 3
  else if Ascii.eqb c (ascii_of_nat 34) then 4
  else if Ascii.eqb c "'" then 5
  else 0.

Definition entity (n : nat) : string :=
  match n with
  | 1 => "&amp;" | 2 => "&lt;" | 3 => "&gt;" | 4 => "&quot;" | 5 => "&apos;"
  | _ => ""
  end.

(** The text in which the characters of rank [lo < rank <= hi] stand as
    entities and every other character as itself. *)
Definition written (lo hi : nat) (c : ascii) : string :=
  if ((lo <? rank c) && (rank c <=? hi))%nat then entity (rank c)
  else String c "".

Fixpoint spelled (lo hi : nat) (s : string) : string :=
  match s with
  | "" => ""
  | String c s' => written lo hi c ++ spelled lo hi s'
  end.

Inductive special : ascii -> nat -> Prop :=
| special_amp : special "&" 1
| special_lt : special "<" 2
| special_gt : special ">" 3
| special_quot : special (ascii_of_nat 34) 4
| special_apos : special "'" 5.

(** Every character of [s] satisfies [p]. *)
Fixpoint all_chars (p : ascii -> bool) (s : string) : bool :=
  match s with
  | "" => true
  | String c s' => p c && all_chars p s'
  end.

Definition ordinary (c : ascii) : bool := (rank c =? 0)%nat.

(** The text of an entity after its ampersand. *)
Definition entity_name (n : nat) : string :=
  match entity n with
  | String _ x => x
  | "" => ""
  end.

(** Text that holds none of the four entities a later pass of
    [decodeHTML] would read where the escaping left a bare ampersand. *)
Definition entity_free (s : string) : Prop :=
  includes "&lt;" s = false /\ includes "&gt;" s = false /\
  includes "&quot;" s = false /\ includes "&apos;" s = false.

Definition trimmed (s : string) : Prop := trim s = s.

(** [l] matches somewhere inside [s] ([includes], under the [i] flag when
    [ci] is set). *)
Fixpoint occurs (ci : bool) (l s : string) : bool :=
  match lit ci l s with
  | Some _ => true
  | None =>
      match s with
      | "" => false
      | String _ s' => occurs ci l s'
      end
  end.

(** What a title or link must be to be read back as it is. *)
Definition text_safe (s : string) : Prop := trimmed s /\ entity_free s.

(** What a description must be to be read back as it is. *)
Definition cdata_safe (d : string) : Prop :=
  trimmed d /\ d <> "" /\ occurs true "]]></description>" d = false.

(** [l] matches at no position inside [s], whatever text follows [s]. *)
Fixpoint nomatch (ci : bool) (l s : string) : Prop :=
  match s with
  | "" => True
  | String c s' =>
      (forall rest, lit ci l (String c s' ++ rest) = None) /\ nomatch ci l s'
  end.

(** A definite mismatch of [l] against the start of [s]. *)
Fixpoint mismatch (ci : bool) (l s : string) : bool :=
  match l, s with
  | String a l', String b s' =>
      if char_eq ci a b then mismatch ci l' s' else true
  | _, _ => false
  end.

(** No proper end of [l] is a start of [whole]. *)
Fixpoint tails_mismatch (ci : bool) (whole l : string) : bool :=
  match l with
  | "" => true
  | String _ l' => mismatch ci l whole && tails_mismatch ci whole l'
  end.

Definition borderless (ci : bool) (l : string) : bool :=
  match l with
  | "" => false
  | String _ l' => tails_mismatch ci l l'
  end.

(** The continuation [k] fails at every position inside [body]. *)
Fixpoint fails_inside (k : string -> option match_state) (body tail : string)
    : Prop :=
  match body with
  | "" => True
  | String c b => k (String c b ++ tail) = None /\ fails_inside k b tail
  end.

(** [l] matches at no position inside [body] when [tail] follows. *)
Fixpoint unmatched (ci : bool) (l body tail : string) : Prop :=
  match body with
  | "" => True
  | String c b =>
      lit ci l (String c b ++ tail) = None /\ unmatched ci l b tail
  end.

(** Text without an opening angle bracket. *)
Definition no_lt (s : string) : Prop :=
  all_chars (fun c => negb (Ascii.eqb "<" c)) s = true.

(** Each line followed by a line feed. *)
Fixpoint unlines (ls : list string) : string :=
  match ls with
  | [] => ""
  | l :: rest => l ++ nl ++ unlines rest
  end.

(** The start of the span between the item tags of a built item. *)
Definition itemHead (t l d : string) : string :=
nl ++ element "title" (escapeXML t) ++ nl
++ element "link" (escapeXML l) ++ nl
++ "<description><![CDATA[" ++ d ++ "]]></description>".

(** The lines of an item after its description and before its closing
    tag. *)
Definition itemRest (item : FeedItem) : list string :=
  List.concat
  [ push_if (author item) (fun v => element "author" (escapeXML v));
    push_if (category item) (fun v => element "category" (escapeXML v));
    push_if (comments item) (fun v => element "comments" (escapeXML v));
    push_if_object (enclosure item) (fun e =>
        ["<enclosure " ++ attribute "url" (escapeXML (enclosure_url e)) ++ " "
         ++ attribute "length" (number_to_string (enclosure_length e)) ++ " "
         ++ attribute "type" (escapeXML (enclosure_type e)) ++ " />"]);
    [guidLine item];
    push_if_object (pubDate item) (fun d =>
        [element "pubDate" (formatDate d)]);
    push_if_object (source item) (fun s =>
        ["<source " ++ attribute "url" (escapeXML (source_url s)) ++ ">"
         ++ escapeXML (source_title s) ++ "</source>"]) ].

(** The text between the item tags of a built item. *)
Definition itemSpan (item : FeedItem) : string :=
  itemHead (title item) (link item) (description item)
  ++ nl ++ unlines (itemRest item).

(** The text after the channel lines of a built document. *)
Definition itemsText (its : list FeedItem) : string :=
  unlines (map buildItem its) ++ "</channel>" ++ nl ++ "</rss>".

(** An item whose title, link and description are read back as they
    are. *)
Definition round_trips (item : FeedItem) : Prop :=
  text_safe (title item) /\ title item <> "" /\
  text_safe (link item) /\
  cdata_safe (description item) /\
  occurs true "</item>" (description item) = false.

(** ** Escaping *)

(** What [escapeXML] writes for one character. *)
Definition escapeChar (c : ascii) : string :=
  if Ascii.eqb c "&" then "&amp;"
  else if Ascii.eqb c "<" then "&lt;"
  else if Ascii.eqb c ">" then "&gt;"
  else if Ascii.eqb c (ascii_of_nat 34) then "&quot;"
  else if Ascii.eqb c "'" then "&apos;"
  else String c "".

(** The characters that end a text node or an attribute value. *)
Definition delimiter (c : ascii) : bool :=
  Ascii.eqb c "<" || Ascii.eqb c ">" || Ascii.eqb c (ascii_of_nat 34)
  || Ascii.eqb c "'".

(** The names of the five entities, after the ampersand. *)
Definition entityNames : list string := ["amp;"; "lt;"; "gt;"; "quot;"; "apos;"].

(** ** The form of parsed items *)

(** An optional text field, when it is set, is set to a text that is not
    empty and has no white space around it. *)
Definition set_clean (field : option string) : Prop :=
  forall v, field = Some v -> v <> "" /\ trimmed v.

(** The form of every item the parser returns. *)
Definition normalised (item : FeedItem) : Prop :=
  title item <> "" /\ trimmed (title item) /\ trimmed (description item) /\
  set_clean (author item) /\ set_clean (category item) /\
  set_clean (guid item) /\
  comments item = None /\ enclosure item = None.

(** Every capture group of the expression is a class under [+]. *)
Fixpoint groups_plus (p : ascii -> bool) (r : regex) : Prop :=
  match r with
  | Group g => g = Plus p
  | Seq r1 r2 => groups_plus p r1 /\ groups_plus p r2
  | _ => True
  end.

(** A capture that is set, not empty and made of characters of [p]. *)
Definition captured (p : ascii -> bool) (cap : option string) : Prop :=
  exists u, cap = Some u /\ u <> "" /\ all_chars p u = true.

(** A CDATA section, as a feed writes it around a text. *)
Definition cdataSection (t : string) : string := "<![CDATA[" ++ t ++ "]]>".

(** ** Dates *)

Definition is_digit (c : ascii) : bool :=
  let n := nat_of_ascii c in ((48 <=? n) && (n <=? 57))%nat.

(** A field of two decimal digits. *)
Definition two_digits (s : string) : Prop :=
  String.length s = 2 /\ all_chars is_digit s = true.

(** ** Attribution *)

(** The source an item of [s] is attributed to. *)
Definition attribution (s : SourceFeed) : option FeedSource :=
  if feed_title s =? "" then None
  else Some {| source_url := feed_url s; source_title := feed_title s |}.

(** No two items of the list are sorted by the same time. *)
Definition distinct_times (l : list FeedItem) : Prop :=
  NoDup (map timestamp l).

(** ** Feed metadata *)

(** The two lines of a built document before its channel. *)
Definition documentHead : string :=
  "<?xml " ++ attribute "version" "1.0" ++ " "
  ++ attribute "encoding" "UTF-8" ++ "?>" ++ nl
  ++ "<rss " ++ attribute "version" "2.0" ++ " "
  ++ attribute "xmlns:atom" "http://www.w3.org/2005/Atom" ++ " "
  ++ attribute "xmlns:content" "http://purl.org/rss/1.0/modules/content/"
  ++ ">" ++ nl.

(** The three required elements of a channel, as they are written. *)
Definition channelHead (t l d : string) : string :=
  nl ++ element "title" (escapeXML t) ++ nl
  ++ element "link" (escapeXML l) ++ nl
  ++ element "description" (escapeXML d) ++ nl.

(** The lines of a channel after its required elements. *)
Definition channelRest (c : FeedConfig) : list string :=
  List.concat
  [ push_if (config_language c) (fun v => element "language" (escapeXML v));
    push_if (config_copyright c) (fun v => element "copyright" (escapeXML v));
    push_if (config_managingEditor c)
        (fun v => element "managingEditor" (escapeXML v));
    push_if (config_webMaster c) (fun v => element "webMaster" (escapeXML v));
    push_if_object (config_pubDate c)
        (fun d => [element "pubDate" (formatDate d)]);
    push_if_object (config_lastBuildDate c)
        (fun d => [element "lastBuildDate" (formatDate d)]);
    push_if (config_category c) (fun v => element "category" (escapeXML v));
    [element "generator"
         (escapeXML (or_default (config_generator c) defaultGenerator))];
    push_if (config_docs c) (fun v => element "docs" (escapeXML v));
    push_if_number (config_ttl c)
        (fun n => element "ttl" (number_to_string n));
    push_if_object (config_image c) imageLines;
    ["<atom:link " ++ attribute "href" (escapeXML (config_link c) ++ "/rss")
       ++ " " ++ attribute "rel" "self" ++ " "
       ++ attribute "type" "application/rss+xml" ++ " />"] ].


(** No field is set. *)
Definition noMetadata : FeedMetadata :=
  {| metadata_title := None; metadata_description := None;
     metadata_link := None |}.

(** ** The endpoints *)

(** Text in which the expression for a tag finds nothing: no opening
    angle bracket is followed, anywhere after it, by a closing one. *)
Definition tag_free (s : string) : Prop := search false markupRegex s = None.

(** What follows the first closing angle bracket. *)
Fixpoint after_gt (s : string) : option string :=
  match s with
  | "" => None
  | String c s' => if Ascii.eqb c ">" then Some s' else after_gt s'
  end.

(** The configuration [generateRSSFeed] builds the feed with. *)
Definition servedConfig (c : AggregatorConfig) (now : Z) : FeedConfig :=
  {| config_title := aggregator_title c;
     config_description := aggregator_description c;
     config_link := aggregator_link c;
     config_language := aggregator_language c;
     config_copyright := aggregator_copyright c;
     config_managingEditor := None;
     config_webMaster := None;
     config_pubDate := None;
     config_lastBuildDate := Some (ValidDate now);
     config_category := None;
     config_generator := Some "RSS Feed Aggregator for Cloudflare Workers";
     config_docs := None;
     config_ttl := None;
     config_image := None |}.

(** What an entry of the debug endpoint reports of a source: its title
    and URL, then either the error of the request or of the reading of
    its body, or the status of the answer with the number of items the
    parser finds in the body and the length of the body. *)
Definition reports (newDate : string -> JSDate)
    (fetch : string -> Promise Response) (s : SourceFeed) (e : JSON.value)
    : Prop :=
  let failed reason :=
    JSON.field "status" e = Some (JSON.Str "error") /\
    JSON.field "error" e = Some (JSON.Str reason) in
  JSON.field "source" e = Some (JSON.Str (feed_title s)) /\
  JSON.field "url" e = Some (JSON.Str (feed_url s)) /\
  match fetch (feed_url s) with
  | Fulfilled response =>
      match text response with
      | Fulfilled xml =>
          JSON.field "status" e
            = Some (JSON.Str (if ok response then "success" else "failed")) /\
          JSON.field "httpStatus" e = Some (JSON.Num (status response)) /\
          JSON.field "itemCount" e
            = Some (JSON.Num (Z.of_nat (length
                (parse newDate xml (feed_url s) (Some (feed_title s)))))) /\
          JSON.field "contentLength" e
            = Some (JSON.Num (Z.of_nat (String.length xml)))
      | Rejected reason => failed reason
      end
  | Rejected reason => failed reason
  end.

(** The paths the worker answers, and those it answers from the
    network. *)
Definition routes : list string :=
  ["/rss"; "/feed"; "/"; "/embed"; "/embed-info"; "/api/news"; "/debug"].

Definition networkRoutes : list string :=
  ["/rss"; "/feed"; "/api/news"; "/debug"].

Definition preflightResponse : HttpResponse :=
  {| http_body := None; http_status := 200; http_headers := corsHeaders |}.

Definition notFoundResponse : HttpResponse :=
  {| http_body := Some "Not Found"; http_status := 404; http_headers := [] |}.

(** ** Sample inputs *)

(** An item whose guid is present and empty. *)
Definition emptyGuidItem : FeedItem :=
  {| title := "Post"; link := "https://example.com/post?a=1&b=2";
     description := "<p>Body</p>";
     author := None; category := None; comments := None; enclosure := None;
     guid := Some ""; pubDate := None; source := None |}.


(** The host's date parser on the date texts of the samples; each text
    is what [formatDate] prints for its time value. *)
Definition sampleNewDate (s : string) : JSDate :=
  if s =? "Mon, 20 Jan 2025 00:00:00 GMT" then ValidDate 1737331200000
  else if s =? "Sat, 18 Jan 2025 00:00:00 GMT" then ValidDate 1737158400000
  else if s =? "Wed, 31 Dec 1969 23:59:59 GMT" then ValidDate (-1000)
  else InvalidDate.

Definition newsFeed : string :=
  "<rss><channel><title>News</title>"
  ++ "<item><title>Saturday</title><link>https://news.example/1</link>"
  ++ "<pubDate>Sat, 18 Jan 2025 00:00:00 GMT</pubDate></item>"
  ++ "<item><title>Monday</title><link>https://news.example/2</link>"
  ++ "<pubDate>Mon, 20 Jan 2025 00:00:00 GMT</pubDate></item>"
  ++ "</channel></rss>".

Definition archiveFeed : string :=
  "<rss><channel><title>Archive</title>"
  ++ "<item><title>Undated</title><link>https://archive.example/1</link></item>"
  ++ "<item><title>Old</title><link>https://archive.example/2</link>"
  ++ "<pubDate>Wed, 31 Dec 1969 23:59:59 GMT</pubDate></item>"
  ++ "</channel></rss>".

Definition brokenFeed : string :=
  "<rss><channel><title>Broken</title>"
  ++ "<item><title>Garbled</title><link>https://broken.example/1</link>"
  ++ "<pubDate>not a date</pubDate></item>"
  ++ "<item><title>Dated</title><link>https://broken.example/2</link>"
  ++ "<pubDate>Mon, 20 Jan 2025 00:00:00 GMT</pubDate></item>"
  ++ "</channel></rss>".

Definition success (xml : string) : Promise Response :=
  Fulfilled {| ok := true; status := 200; statusText := "OK";
               text := Fulfilled xml |}.

Definition sampleFetch (url : string) : Promise Response :=
  if url =? "https://news.example/feed" then success newsFeed
  else if url =? "https://archive.example/feed" then success archiveFeed
  else if url =? "https://broken.example/feed" then success brokenFeed
  else if url =? "https://down.example/feed" then
    Fulfilled {| ok := false; status := 500;
                 statusText := "Internal Server Error";
                 text := Fulfilled "<html>error</html>" |}
  else Rejected "network error".

Definition newsSource : SourceFeed :=
  {| feed_url := "https://news.example/feed"; feed_title := "News" |}.

Definition archiveSource : SourceFeed :=
  {| feed_url := "https://archive.example/feed"; feed_title := "Archive" |}.

Definition brokenSource : SourceFeed :=
  {| feed_url := "https://broken.example/feed"; feed_title := "Broken" |}.

Definition downSource : SourceFeed :=
  {| feed_url := "https://down.example/feed"; feed_title := "Down" |}.

Definition unreachableSource : SourceFeed :=
  {| feed_url := "https://nowhere.example/feed"; feed_title := "Nowhere" |}.

Definition parsedItem (t l : string) (d : option JSDate) (s : SourceFeed)
    : FeedItem :=
  {| title := t; link := l; description := "";
     author := None; category := None; comments := None; enclosure := None;
     guid := None; pubDate := d;
     source := Some {| source_url := feed_url s; source_title := feed_title s |} |}.

Definition saturdayItem : FeedItem :=
  parsedItem "Saturday" "https://news.example/1"
             (Some (ValidDate 1737158400000)) newsSource.

Definition mondayItem : FeedItem :=
  parsedItem "Monday" "https://news.example/2"
             (Some (ValidDate 1737331200000)) newsSource.

Definition undatedItem : FeedItem :=
  parsedItem "Undated" "https://archive.example/1" None archiveSource.

Definition oldItem : FeedItem :=
  parsedItem "Old" "https://archive.example/2"
             (Some (ValidDate (-1000))) archiveSource.

Definition garbledItem : FeedItem :=
  parsedItem "Garbled" "https://broken.example/1" (Some InvalidDate) brokenSource.

Definition datedItem : FeedItem :=
  parsedItem "Dated" "https://broken.example/2"
             (Some (ValidDate 1737331200000)) brokenSource.

Definition stray_rss_feed : string :=
  "<feed " ++ atomNamespace ++ "><title>Notes on rss</title>"
  ++ "<entry><title>An entry</title><link href='https://atom.example/1'/>"
  ++ "<summary>About rss readers</summary></entry>"
  ++ "<item><title>An item</title></item></feed>".

Definition stray_rss_entry : FeedItem :=
  {| title := "An entry"; link := "https://atom.example/1";
     description := "About rss readers";
     author := None; category := None; comments := None; enclosure := None;
     guid := None; pubDate := None; source := None |}.

(** An RSS document that holds a feed tag without the namespace
    declaration, and an entry element. *)
Definition stray_feed_rss : string :=
  "<rss><channel><title>Notes</title><feed>atom</feed>"
  ++ "<item><title>An item</title><link>https://rss.example/1</link>"
  ++ "<description>About feed readers</description></item>"
  ++ "<entry><title>An entry</title></entry></channel></rss>".

Definition stray_feed_item : FeedItem :=
  {| title := "An item"; link := "https://rss.example/1";
     description := "About feed readers";
     author := None; category := None; comments := None; enclosure := None;
     guid := None; pubDate := None; source := None |}.

Definition truncatedFeed : string :=
  "<rss><channel><item><title>Cut off</tit".

Definition sampleConfig : FeedConfig :=
  {| config_title := "AI News Aggregator";
     config_description := "Latest artificial intelligence news";
     config_link := "https://rss.example.workers.dev";
     config_language := Some "en-us";
     config_copyright := Some "Copyright 2025 R&D";
     config_managingEditor := None; config_webMaster := None;
     config_pubDate := None;
     config_lastBuildDate := Some (ValidDate 1737331200000);
     config_category := None;
     config_generator := Some "RSS Feed Aggregator for Cloudflare Workers";
     config_docs := None; config_ttl := Some 60%Z; config_image := None |}.

(** A title that holds the text of an entity, and a description laid out
    on lines of its own, as the template literals of
    [src/example-config.ts] are. *)
Definition entityItem : FeedItem :=
  {| title := "Using &lt; in HTML";
     link := "https://blog.example/entities";
     description := nl ++ "  <p>Write the entity, not the sign.</p>" ++ nl;
     author := None; category := None; comments := None; enclosure := None;
     guid := None; pubDate := None; source := None |}.

(** A title with the five escaped characters and a description with
    markup and the same characters. *)
Definition markupItem : FeedItem :=
  {| title := "Q&A: is <b> " ++ dq ++ "bold" ++ dq ++ " or 'strong'?";
     link := "https://blog.example/post?id=7&lang=en";
     description :=
       "<p>Tom & Jerry say <a href=" ++ dq ++ "https://x.example/?a=1&b=2"
       ++ dq ++ ">it's &lt;b&gt;</a></p>";
     author := Some "editor@blog.example (Ed)"; category := Some "Q&A";
     comments := None;
     enclosure := Some {| enclosure_url := "https://blog.example/a.mp3";
                          enclosure_length := 43200000;
                          enclosure_type := "audio/mpeg" |};
     guid := Some "urn:post:7";
     pubDate := Some (ValidDate 1737331200000);
     source := None |}.

Definition plainItem : FeedItem :=
  {| title := "AT&amp;T"; link := "";
     description := "plain text";
     author := None; category := None; comments := None; enclosure := None;
     guid := None; pubDate := None; source := None |}.


(** A configuration with an ampersand in its title. *)
Definition labConfig : FeedConfig :=
  {| config_title := "R&D News";
     config_description := "Notes from the lab";
     config_link := "https://lab.example/?feed=rss&lang=en";
     config_language := None; config_copyright := None;
     config_managingEditor := None; config_webMaster := None;
     config_pubDate := None; config_lastBuildDate := None;
     config_category := None; config_generator := None;
     config_docs := None; config_ttl := None; config_image := None |}.

(** An item with another description. *)
Definition with_description (d : string) (item : FeedItem) : FeedItem :=
  {| title := title item; link := link item; description := d;
     author := author item; category := category item;
     comments := comments item; enclosure := enclosure item;
     guid := guid item; pubDate := pubDate item; source := source item |}.

(** A configuration of the aggregator with the given sources. *)
Definition sourcesConfig (sources : list SourceFeed) : AggregatorConfig :=
  {| aggregator_title := "Sample"; aggregator_description := "Sample feeds";
     aggregator_link := "https://sample.example";
     aggregator_sources := sources; aggregator_maxItems := None;
     aggregator_language := None; aggregator_copyright := None |}.


(** * The embedding at work

    The definitions on inputs whose results are known. *)

Example trim_example : trim (nl ++ "  a b " ++ nl) = "a b".
Proof. reflexivity. Qed.

Example includes_example :
  includes "<feed" "<rss><feed>" = true /\ includes "<feed" "<rss><fee" = false.
Proof. split; reflexivity. Qed.

Example number_to_string_example :
  number_to_string 43200000 = "43200000" /\ number_to_string (-7) = "-7"
  /\ number_to_string 0 = "0".
Proof. repeat split; reflexivity. Qed.

Example number_to_string_large :
  map number_to_string
      [2 ^ 53 - 1; 2 ^ 53 + 1; 2 ^ 64; 10 ^ 21 - 1; 10 ^ 21; - 2 ^ 70;
       10 ^ 23; 2 ^ 1024]%Z
  = [ "9007199254740991"; "9007199254740992"; "18446744073709552000";
      "1e+21"; "1e+21"; "-1.1805916207174113e+21"; "1e+23"; "Infinity" ].
Proof. vm_compute. reflexivity. Qed.

Example formatDate_examples :
  formatDate (ValidDate 0) = "Thu, 01 Jan 1970 00:00:00 GMT" /\
  formatDate (ValidDate 1737331200000) = "Mon, 20 Jan 2025 00:00:00 GMT" /\
  formatDate (ValidDate 951868799000) = "Tue, 29 Feb 2000 23:59:59 GMT" /\
  formatDate (ValidDate (-1000)) = "Wed, 31 Dec 1969 23:59:59 GMT" /\
  formatDate InvalidDate = "undefined, NaN undefined NaN NaN:NaN:NaN GMT".
Proof. repeat split; vm_compute; reflexivity. Qed.

Example escapeXML_example :
  escapeXML ("a&b<c>d" ++ dq ++ "e'f") = "a&amp;b&lt;c&gt;d&quot;e&apos;f".
Proof. reflexivity. Qed.

Example decodeHTML_example :
  decodeHTML "a&amp;b&lt;c&gt;d&quot;e&apos;f&AMP;" = "a&b<c>d" ++ dq ++ "e'f&AMP;".
Proof. reflexivity. Qed.

Example extractTag_examples :
  extractTag "<TITLE type='html'> Caf&amp;eacute; </Title>" "title"
    = Some "Caf&eacute;" /\
  extractTag "<dc:title>Namespaced</dc:title>" "title" = Some "Namespaced" /\
  extractTag "<dc:creator>Ann</dc:creator>" "dc:creator" = Some "Ann" /\
  extractTag "<title>Unclosed" "title" = None /\
  extractTag "<title></title>" "title" = Some "".
Proof. repeat split; reflexivity. Qed.

Example extractCDATA_examples :
  extractCDATA "<description><![CDATA[ <p>&amp;</p> ]]></description>"
               "description" = Some "<p>&amp;</p>" /\
  extractCDATA "<description>plain</description>" "description" = None.
Proof. split; reflexivity. Qed.

Example parse_example :
  parse sampleNewDate newsFeed "https://news.example/feed" (Some "News")
  = [saturdayItem; mondayItem].
Proof. vm_compute. reflexivity. Qed.

Example sort_example :
  combineItems [[saturdayItem; undatedItem]; [mondayItem; oldItem]] None
  = [mondayItem; saturdayItem; undatedItem; oldItem].
Proof. vm_compute. reflexivity. Qed.

(** With an invalid date among the items the comparator is not
    consistent: the run ends at the garbled item, which stays behind the
    two items of the run, and the last item is placed by comparisons
    with those two alone. *)
Example sort_invalid_date_example :
  combineItems [[undatedItem; saturdayItem; garbledItem; mondayItem]] None
  = [mondayItem; saturdayItem; undatedItem; garbledItem].
Proof. vm_compute. reflexivity. Qed.

Example buildItem_example :
  buildItemLines emptyGuidItem
  = [ "<item>";
      "<title>Post</title>";
      "<link>https://example.com/post?a=1&amp;b=2</link>";
      "<description><![CDATA[<p>Body</p>]]></description>";
      permalinkGuid "https://example.com/post?a=1&amp;b=2";
      "</item>" ].
Proof. vm_compute. reflexivity. Qed.

Example toUTCString_examples :
  toUTCString (ValidDate 1737331200000) = "Mon, 20 Jan 2025 00:00:00 GMT" /\
  toUTCString (ValidDate (-62198755200000)) = "Fri, 01 Jan -0001 00:00:00 GMT" /\
  formatDate (ValidDate (-62198755200000)) = "Fri, 01 Jan -1 00:00:00 GMT" /\
  toUTCString InvalidDate = "Invalid Date".
Proof. repeat split; vm_compute; reflexivity. Qed.

(** A channel without a link of its own is given the link of its first
    item, and an Atom feed the first [href] of the text. *)
Example extractFeedMetadata_examples :
  extractFeedMetadata newsFeed
    = {| metadata_title := Some "News"; metadata_description := None;
         metadata_link := Some "https://news.example/1" |} /\
  extractFeedMetadata stray_rss_feed
    = {| metadata_title := Some "Notes on rss"; metadata_description := None;
         metadata_link := Some "https://atom.example/1" |} /\
  extractFeedMetadata "<rss><channel><title> </title></channel></rss>"
    = {| metadata_title := Some ""; metadata_description := None;
         metadata_link := None |}.
Proof. repeat split; vm_compute; reflexivity. Qed.

Example newsItem_example :
  newsItem markupItem
  = {| news_title := title markupItem;
       news_link := "https://blog.example/post?id=7&lang=en";
       news_description := "Tom & Jerry say it's &lt;b&gt;";
       news_pubDate := "Mon, 20 Jan 2025 00:00:00 GMT";
       news_source := "Unknown";
       news_image := "" |} /\
  news_description (newsItem (with_description
                                "a <b>bold</b> move: 1 < 2 and 3 > 2 <i"
                                plainItem))
  = "a bold move: 1  2 <i" /\
  news_image (newsItem (with_description
                          "<p><IMG alt='x' src='https://x.example/a.png'></p>"
                          plainItem))
  = "https://x.example/a.png".
Proof. repeat split; vm_compute; reflexivity. Qed.

Example stringify_examples :
  JSON.stringify (JSON.Arr [JSON.Obj [("a", JSON.Str ("x" ++ dq ++ nl));
                                      ("b", JSON.Arr [JSON.Num 1; JSON.Null]);
                                      ("c", JSON.Obj [])]])
  = "[{" ++ dq ++ "a" ++ dq ++ ":" ++ dq ++ "x\" ++ dq ++ "\n" ++ dq ++ ","
    ++ dq ++ "b" ++ dq ++ ":[1,null]," ++ dq ++ "c" ++ dq ++ ":{}}]" /\
  JSON.stringify2 (JSON.Arr [JSON.Obj [("b", JSON.Arr [JSON.Bool true]);
                                       ("c", JSON.Arr [])]])
  = "[" ++ nl ++ "  {" ++ nl
    ++ "    " ++ dq ++ "b" ++ dq ++ ": [" ++ nl
    ++ "      true" ++ nl
    ++ "    ]," ++ nl
    ++ "    " ++ dq ++ "c" ++ dq ++ ": []" ++ nl
    ++ "  }" ++ nl ++ "]".
Proof. split; vm_compute; reflexivity. Qed.

(** The debug endpoint on a source that answers, a source that answers
    with an error status and a source that cannot be reached. *)
Example getDebugInfo_example :
  exists results,
    fst (getDebugInfo sampleNewDate sampleFetch (fun i => Z.of_nat (10 * i))
           (sourcesConfig [newsSource; downSource; unreachableSource])
           corsHeaders 0)
    = Fulfilled
        {| http_body := Some (JSON.stringify2 (JSON.Arr results));
           http_status := 200;
           http_headers := ("Content-Type", "application/json") :: corsHeaders |} /\
    map (JSON.field "status") results
    = [Some (JSON.Str "success"); Some (JSON.Str "failed");
       Some (JSON.Str "error")] /\
    map (JSON.field "itemCount") results
    = [Some (JSON.Num 2); Some (JSON.Num 0); None] /\
    map (JSON.field "fetchTime") results
    = [Some (JSON.Str "10ms"); Some (JSON.Str "10ms"); None].
Proof. eexists. repeat split; vm_compute; reflexivity. Qed.

(** Every source of the configuration has a title, and no two have the
    same URL. *)
Example aggregatorConfig_sources (fullYear : Z) :
  Forall (fun s => feed_title s <> "")
         (aggregator_sources (Config.aggregatorConfig fullYear)) /\
  NoDup (map feed_url (aggregator_sources (Config.aggregatorConfig fullYear))).
Proof.
  split.
  - repeat constructor; discriminate.
  - repeat constructor; simpl; intuition discriminate.
Qed.


(** * Properties of the builder *)

Lemma elements_concat (opening : string) (ls : list (list string)) :
elements opening (List.concat ls) = List.concat (map (elements opening) ls).
Proof.
unfold elements. induction ls as [|l ls IH]; simpl.
- reflexivity.
- rewrite filter_app, IH. reflexivity.
Qed.

Lemma elements_push_if opening field line :
(forall v, starts_with opening (line v) = false) ->
elements opening (push_if field line) = [].
Proof.
intros H. unfold push_if. destruct (if_truthy field); simpl; [rewrite H|]; reflexivity.
Qed.

Lemma elements_push_if_object {A} opening (field : option A) lines :
(forall v, elements opening (lines v) = []) ->
elements opening (push_if_object field lines) = [].
Proof.
intros H. destruct field; simpl; [apply H | reflexivity].
Qed.

Lemma elements_push_if_number opening field line :
(forall v, starts_with opening (line v) = false) ->
elements opening (push_if_number field line) = [].
Proof.
intros H. unfold push_if_number. destruct field as [n|]; [|reflexivity].
destruct (n =? 0)%Z; simpl; [|rewrite H]; reflexivity.
Qed.

Lemma guid_elements (item : FeedItem) :
elements "<guid" (buildItemLines item) = [guidLine item].
Proof.
unfold buildItemLines. rewrite elements_concat. simpl map.
rewrite !elements_push_if by reflexivity.
rewrite !elements_push_if_object by reflexivity.
reflexivity.
Qed.

Lemma guidLine_falsy (item : FeedItem) :
  truthy (guid item) = false ->
  guidLine item = permalinkGuid (escapeXML (link item)).
Proof.
  unfold guidLine, permalinkGuid, attribute, or_default, truthy.
  destruct (guid item) as [g|]; [|reflexivity].
  destruct (g =? "") eqn:E; [reflexivity | discriminate].
Qed.





Lemma buildItem_empty_guid (item : FeedItem) :
  guid item = Some "" -> buildItem item = buildItem (with_guid None item).
Proof.
  intros H. unfold buildItem, buildItemLines, guidLine. simpl. rewrite H.
  reflexivity.
Qed.

Lemma join_contains (sep line : string) (lines : list string) :
  In line lines -> contains line (join sep lines).
Proof.
  induction lines as [|x lines IH]; intros H; [contradiction|].
  destruct lines as [|y lines].
  - destruct H as [<-|[]]. exists "", "". cbn [join append].
    clear IH. induction x as [|c x IHx]; [reflexivity|].
    cbn [append]. f_equal. exact IHx.
  - change (join sep (x :: y :: lines)) with (x ++ sep ++ join sep (y :: lines)).
    destruct H as [<-|H].
    + exists "", (sep ++ join sep (y :: lines)). reflexivity.
    + destruct (IH H) as [before [after_ E]]. rewrite E.
      exists (x ++ sep ++ before), after_.
      clear. induction x as [|c x IHx]; cbn [append].
      * induction sep as [|c sep IHs]; cbn [append]; [reflexivity|].
        f_equal. exact IHs.
      * f_equal. exact IHx.
Qed.

(** C9: an item whose guid is the empty string is serialised exactly as
    the same item without a guid, alone and inside any document; its
    guid element is the permalink form around the escaped link, and the
    text of the item holds it. *)
Theorem C9_empty_guid_is_absent (item : FeedItem) :
  guid item = Some "" ->
  buildItem item = buildItem (with_guid None item) /\
  elements "<guid" (buildItemLines item)
    = [permalinkGuid (escapeXML (link item))] /\
  (forall c before after_,
     build {| config := c; items := (before ++ item :: after_)%list |}
     = build {| config := c;
                items := (before ++ with_guid None item :: after_)%list |}) /\
  contains (permalinkGuid (escapeXML (link item))) (buildItem item).
Proof.
  intros H.
  assert (Hg : elements "<guid" (buildItemLines item)
               = [permalinkGuid (escapeXML (link item))]).
  { rewrite guid_elements, guidLine_falsy; [reflexivity | rewrite H; reflexivity]. }
  split; [apply buildItem_empty_guid, H|]. split; [exact Hg|]. split.
  - intros c before after_. unfold build, buildLines. simpl.
    rewrite !map_app. simpl. rewrite (buildItem_empty_guid item H). reflexivity.
  - unfold buildItem. apply join_contains.
    assert (Hin : In (permalinkGuid (escapeXML (link item)))
                     (elements "<guid" (buildItemLines item)))
      by (rewrite Hg; left; reflexivity).
    unfold elements in Hin. apply filter_In in Hin. apply Hin.
Qed.

(** Witness of C9, at [emptyGuidItem]. *)
Lemma C9_empty_guid_is_absent_witness :
  buildItem emptyGuidItem = buildItem (with_guid None emptyGuidItem) /\
  elements "<guid" (buildItemLines emptyGuidItem)
    = [permalinkGuid "https://example.com/post?a=1&amp;b=2"] /\
  contains (permalinkGuid "https://example.com/post?a=1&amp;b=2")
           (buildItem emptyGuidItem).
Proof.
  destruct (C9_empty_guid_is_absent emptyGuidItem eq_refl) as [H1 [H2 [_ H4]]].
  split; [exact H1 | split; [exact H2 | exact H4]].
Defined.

(** C10: a ttl, an image width or an image height of 0 leaves no element
    in the document, which is the one built from the configuration
    without that field. *)
Theorem C10_zero_number_omitted (c : FeedConfig) (i : FeedImage)
    (w h : option Z) (its : list FeedItem) :
  build {| config := with_ttl (Some 0%Z) c; items := its |}
    = build {| config := with_ttl None c; items := its |} /\
  build {| config := with_image (Some (with_size (Some 0%Z) h i)) c; items := its |}
    = build {| config := with_image (Some (with_size None h i)) c; items := its |} /\
  build {| config := with_image (Some (with_size w (Some 0%Z) i)) c; items := its |}
    = build {| config := with_image (Some (with_size w None i)) c; items := its |} /\
  elements "<ttl>" (channelLines (with_ttl (Some 0%Z) c)) = [] /\
  elements "<width>" (imageLines (with_size (Some 0%Z) h i)) = [] /\
  elements "<height>" (imageLines (with_size w (Some 0%Z) i)) = [].
Proof.
  split; [reflexivity|]. split; [reflexivity|]. split; [reflexivity|].
  split; [|split].
  - unfold channelLines. rewrite elements_concat. simpl map.
    rewrite !elements_push_if by reflexivity.
    rewrite !elements_push_if_object by reflexivity.
    rewrite (elements_push_if_object "<ttl>" (config_image c)).
    + reflexivity.
    + intros v. unfold imageLines. rewrite elements_concat. simpl map.
      rewrite !elements_push_if by reflexivity.
      rewrite !elements_push_if_number by reflexivity. reflexivity.
  - unfold imageLines. rewrite elements_concat. simpl map.
    rewrite !elements_push_if by reflexivity.
    rewrite (elements_push_if_number "<width>" h) by reflexivity. reflexivity.
  - unfold imageLines. rewrite elements_concat. simpl map.
    rewrite !elements_push_if by reflexivity.
    rewrite (elements_push_if_number "<height>" w) by reflexivity. reflexivity.
Qed.
(** * Properties of the aggregator *)

(** ** The sort *)

Section SortFacts.
Context {A : Type}.
Variable comparefn : A -> A -> option Z.
Local Open Scope list_scope.

Lemma insertPivot_perm (work : list A) (pivot : A) :
  Permutation (insertPivot comparefn work pivot) (work ++ [pivot]).
Proof.
  unfold insertPivot. set (left := binarySearch _ _ _ _ _ _).
  rewrite <- (firstn_skipn left work) at 3. rewrite <- app_assoc.
  apply Permutation_app_head.
  change (pivot :: skipn left work) with ([pivot] ++ skipn left work).
  apply Permutation_app_comm.
Qed.

Lemma binaryInsertionSort_perm (rest work : list A) :
  Permutation (fold_left (insertPivot comparefn) rest work) (work ++ rest).
Proof.
  revert work. induction rest as [|pivot rest IH]; intros work; simpl.
  - rewrite app_nil_r. apply Permutation_refl.
  - eapply perm_trans; [apply IH|].
    change (pivot :: rest) with ([pivot] ++ rest). rewrite app_assoc.
    apply Permutation_app_tail, insertPivot_perm.
Qed.

Lemma countAndMakeRun_perm (work : list A) :
  Permutation (fst (countAndMakeRun comparefn work)
               ++ snd (countAndMakeRun comparefn work)) work.
Proof.
  unfold countAndMakeRun.
  destruct work as [|x0 [|x1 work]];
    [apply Permutation_refl | apply Permutation_refl |].
  cbv zeta. set (n := 2 + countRun _ _ _ _). cbn [fst snd].
  apply perm_trans
    with (firstn n (x0 :: x1 :: work) ++ skipn n (x0 :: x1 :: work));
    [|rewrite firstn_skipn; apply Permutation_refl].
  apply Permutation_app_tail.
  destruct (compareArrayElements comparefn x1 x0 <? 0)%Z;
    [symmetry; apply Permutation_rev | apply Permutation_refl].
Qed.

Lemma sort_perm (l : list A) : Permutation (sort comparefn l) l.
Proof.
  unfold sort. pose proof (countAndMakeRun_perm l) as H.
  destruct (countAndMakeRun comparefn l) as [run rest]. cbn [fst snd] in H.
  eapply perm_trans; [apply binaryInsertionSort_perm | exact H].
Qed.

Lemma sort_length (l : list A) : length (sort comparefn l) = length l.
Proof. apply Permutation_length, sort_perm. Qed.

Variable key : A -> Z.

(** *** The run *)

Lemma countRun_bound (d : bool) (p : A) (l : list A) :
  countRun comparefn d p l <= length l.
Proof.
  revert p. induction l as [|c l IH]; intros p; cbn [countRun length]; [lia|].
  destruct (if d then _ else _); [lia|]. specialize (IH c). lia.
Qed.

(** The elements counted go on in the order the run began with. *)
Lemma countRun_chain (d : bool) (p : A) (l : list A) :
  (forall x y, In x (p :: l) -> In y (p :: l) ->
     (compareArrayElements comparefn x y <? 0)%Z = (key y <? key x)%Z) ->
  Sorted (fun a b => if d then (key a < key b)%Z else (key b <= key a)%Z)
         (p :: firstn (countRun comparefn d p l) l).
Proof.
  revert p. induction l as [|c l IH]; intros p Hk; cbn [countRun firstn].
  - repeat constructor.
  - assert (Hc : (compareArrayElements comparefn c p <? 0)%Z = (key p <? key c)%Z)
      by (apply Hk; [right; left | left]; reflexivity).
    destruct (if d then _ else _) eqn:E.
    + repeat constructor.
    + cbn [firstn]. constructor.
      * apply IH. intros x y Hx Hy. apply Hk; right; assumption.
      * constructor. destruct d.
        -- destruct (Z.leb_spec 0 (compareArrayElements comparefn c p)); [discriminate|].
           destruct (Z.ltb_spec (compareArrayElements comparefn c p) 0); [|lia].
           symmetry in Hc. apply Z.ltb_lt in Hc. exact Hc.
        -- rewrite E in Hc. symmetry in Hc. apply Z.ltb_ge in Hc. exact Hc.
Qed.

Lemma descending_app (front back : list A) :
  descending key (front ++ back) <->
  descending key front /\ descending key back /\
  forall a b, In a front -> In b back -> (key b <= key a)%Z.
Proof.
  unfold descending. induction front as [|f front IH]; cbn [app].
  - split; [intros H; split; [constructor | split; [exact H | intros ? ? []]]
           | intros [_ [H _]]; exact H].
  - split.
    + intros H. inversion H as [|? ? Hs Hf]; subst.
      apply IH in Hs. destruct Hs as [H1 [H2 H3]].
      apply Forall_app in Hf. destruct Hf as [Hf1 Hf2].
      split; [constructor; assumption|]. split; [exact H2|].
      intros a b [<-|Ha] Hb; [|apply H3; assumption].
      rewrite Forall_forall in Hf2. apply Hf2, Hb.
    + intros [H1 [H2 H3]]. inversion H1 as [|? ? Hs Hf]; subst.
      constructor.
      * apply IH. split; [exact Hs|]. split; [exact H2|].
        intros a b Ha Hb. apply H3; [right|]; assumption.
      * apply Forall_app. split; [exact Hf|].
        apply Forall_forall. intros b Hb. apply H3; [left; reflexivity | exact Hb].
Qed.

Lemma descending_rev (l : list A) :
  StronglySorted (fun a b => (key a < key b)%Z) l -> descending key (rev l).
Proof.
  induction 1 as [|x l H IH Hx]; [constructor|].
  cbn [rev]. apply descending_app.
  split; [exact IH|]. split; [repeat constructor|].
  intros a b Ha [<-|[]]. rewrite Forall_forall in Hx.
  apply in_rev in Ha. specialize (Hx a Ha). lia.
Qed.

(** A run of distinct keys holds at most one element of each key:
    reversing it keeps the elements of each key in their order. *)
Lemma with_key_rev (k : Z) (l : list A) :
  StronglySorted (fun a b => (key a < key b)%Z) l ->
  with_key key k (rev l) = with_key key k l.
Proof.
  unfold with_key. induction 1 as [|x l H IH Hx]; [reflexivity|].
  cbn [rev]. rewrite filter_app, IH. cbn [filter].
  destruct (Z.eqb_spec (key x) k) as [E|E]; [|apply app_nil_r].
  replace (filter (fun y => (key y =? k)%Z) l) with (@nil A); [reflexivity|].
  symmetry. clear IH H. induction Hx as [|y l Hy Hl IHl]; [reflexivity|].
  cbn [filter]. destruct (Z.eqb_spec (key y) k); [lia | exact IHl].
Qed.

Lemma countAndMakeRun_sorted (l : list A) :
  by_key comparefn key l ->
  descending key (fst (countAndMakeRun comparefn l)) /\
  forall k, with_key key k (fst (countAndMakeRun comparefn l)
                            ++ snd (countAndMakeRun comparefn l))
            = with_key key k l.
Proof.
  intros Hk. unfold countAndMakeRun.
  destruct l as [|x0 [|x1 l]]; cbn [fst snd].
  - split; [constructor | intros k; reflexivity].
  - split; [repeat constructor | intros k; reflexivity].
  - cbv zeta. cbn [fst snd].
    set (d := (compareArrayElements comparefn x1 x0 <? 0)%Z).
    set (n := countRun comparefn d x1 l).
    assert (Hd : d = (key x0 <? key x1)%Z)
      by (apply Hk; [right; left | left]; reflexivity).
    pose proof (countRun_chain d x1 l) as Hc. fold n in Hc.
    assert (Hrun : Sorted (fun a b => if d then (key a < key b)%Z
                                      else (key b <= key a)%Z)
                          (firstn (2 + n) (x0 :: x1 :: l))).
    { cbn [plus firstn]. constructor.
      - apply Hc. intros x y Hx Hy. apply Hk; right; assumption.
      - constructor. destruct d.
        + symmetry in Hd. apply Z.ltb_lt in Hd. exact Hd.
        + symmetry in Hd. apply Z.ltb_ge in Hd. exact Hd. }
    assert (Hsplit : forall k,
              with_key key k (firstn (2 + n) (x0 :: x1 :: l)
                              ++ skipn (2 + n) (x0 :: x1 :: l))
              = with_key key k (x0 :: x1 :: l))
      by (intros k; rewrite firstn_skipn; reflexivity).
    destruct d.
    + apply Sorted_StronglySorted in Hrun; [|intros a b c; lia].
      split; [apply descending_rev, Hrun|].
      intros k. rewrite <- Hsplit. unfold with_key at 1 2.
      rewrite !filter_app. f_equal. apply with_key_rev, Hrun.
    + apply Sorted_StronglySorted in Hrun; [|intros a b c; lia].
      split; [exact Hrun | exact Hsplit].
Qed.

(** *** The insertions *)

Lemma descending_nth (work : list A) (mid : nat) (element : A) :
  descending key work -> nth_error work mid = Some element ->
  Forall (fun y => (key element <= key y)%Z) (firstn (S mid) work) /\
  Forall (fun y => (key y <= key element)%Z) (skipn mid work).
Proof.
  intros H. revert mid. induction H as [|x work H IH Hx]; intros mid Hn.
  - destruct mid; discriminate.
  - destruct mid as [|mid]; cbn [nth_error] in Hn.
    + injection Hn as <-. cbn [firstn skipn]. split.
      * constructor; [lia | constructor].
      * constructor; [lia | exact Hx].
    + destruct (IH mid Hn) as [H1 H2]. cbn [skipn]. split; [|exact H2].
      change (firstn (S (S mid)) (x :: work)) with (x :: firstn (S mid) work).
      constructor; [|exact H1].
      rewrite Forall_forall in Hx. apply Hx. eapply nth_error_In, Hn.
Qed.

Lemma binarySearch_spec (pivot : A) (work : list A) (fuel left right : nat) :
  descending key work ->
  (forall y, In y work ->
     (compareArrayElements comparefn pivot y <? 0)%Z = (key y <? key pivot)%Z) ->
  left <= right <= length work -> right - left <= fuel ->
  Forall (fun y => (key pivot <= key y)%Z) (firstn left work) ->
  Forall (fun y => (key y < key pivot)%Z) (skipn right work) ->
  let found := binarySearch comparefn fuel pivot work left right in
  Forall (fun y => (key pivot <= key y)%Z) (firstn found work) /\
  Forall (fun y => (key y < key pivot)%Z) (skipn found work).
Proof.
  intros Hd Hk. revert left right.
  induction fuel as [|fuel IH]; intros left right Hb Hf Hl Hr; cbn [binarySearch].
  - replace right with left in Hr by lia. split; assumption.
  - destruct (Nat.ltb_spec left right) as [Hlt|Hge];
      [|replace right with left in Hr by lia; split; assumption].
    set (mid := left + (right - left) / 2).
    assert (Hmid : left <= mid < right).
    { unfold mid. pose proof (Nat.div_lt (right - left) 2). lia. }
    destruct (nth_error work mid) as [element|] eqn:E;
      [|apply nth_error_None in E; lia].
    destruct (descending_nth work mid element Hd E) as [Hbefore Hafter].
    rewrite (Hk element (nth_error_In _ _ E)).
    destruct (Z.ltb_spec (key element) (key pivot)) as [Hlow|Hhigh].
    + apply IH; [lia | lia | exact Hl |].
      eapply Forall_impl; [|exact Hafter]. cbv beta. intros y Hy. lia.
    + apply IH; [lia | lia | | exact Hr].
      replace (mid + 1) with (S mid) by lia.
      eapply Forall_impl; [|exact Hbefore]. cbv beta. intros y Hy. lia.
Qed.

Lemma insertPivot_sorted (work : list A) (pivot : A) :
  descending key work ->
  (forall y, In y work ->
     (compareArrayElements comparefn pivot y <? 0)%Z = (key y <? key pivot)%Z) ->
  descending key (insertPivot comparefn work pivot) /\
  forall k, with_key key k (insertPivot comparefn work pivot)
            = with_key key k (work ++ [pivot]).
Proof.
  intros Hd Hk. unfold insertPivot.
  set (left := binarySearch _ _ _ _ _ _).
  destruct (binarySearch_spec pivot work (length work) 0 (length work) Hd Hk)
    as [Hfront Hback]; [lia | lia | constructor | |].
  { rewrite skipn_all. constructor. }
  fold left in Hfront, Hback.
  pose proof Hd as Hparts. rewrite <- (firstn_skipn left work) in Hparts.
  apply descending_app in Hparts. destruct Hparts as [H1 [H2 H3]].
  split.
  - apply descending_app. split; [exact H1|]. split.
    + constructor; [exact H2|].
      eapply Forall_impl; [|exact Hback]. cbv beta. intros y Hy. lia.
    + intros a b Ha [<-|Hb]; [|apply H3; assumption].
      rewrite Forall_forall in Hfront. apply Hfront, Ha.
  - intros k. unfold with_key.
    rewrite <- (firstn_skipn left work) at 3.
    rewrite !filter_app. cbn [filter]. rewrite <- app_assoc.
    f_equal. destruct (Z.eqb_spec (key pivot) k) as [E|E];
      [|symmetry; apply app_nil_r].
    replace (filter (fun x => (key x =? k)%Z) (skipn left work)) with (@nil A);
      [reflexivity|].
    symmetry. clear H2 H3. induction Hback as [|y l Hy Hl IHl]; [reflexivity|].
    cbn [filter]. destruct (Z.eqb_spec (key y) k); [lia | exact IHl].
Qed.

Lemma binaryInsertionSort_sorted (rest work : list A) :
  by_key comparefn key (work ++ rest) -> descending key work ->
  descending key (fold_left (insertPivot comparefn) rest work) /\
  forall k, with_key key k (fold_left (insertPivot comparefn) rest work)
            = with_key key k (work ++ rest).
Proof.
  revert work. induction rest as [|pivot rest IH]; intros work Hk Hd.
  - cbn [fold_left]. rewrite app_nil_r. split; [exact Hd | reflexivity].
  - cbn [fold_left].
    destruct (insertPivot_sorted work pivot Hd) as [Hs Hw].
    { intros y Hy. apply Hk; apply in_or_app;
        [right; left; reflexivity | left; exact Hy]. }
    destruct (IH (insertPivot comparefn work pivot)) as [Hs' Hw'];
      [|exact Hs|].
    { intros x y Hx Hy. apply Hk.
      - apply in_app_or in Hx. destruct Hx as [Hx|Hx].
        + apply (Permutation_in _ (insertPivot_perm work pivot)) in Hx.
          apply in_app_or in Hx. apply in_or_app.
          destruct Hx as [Hx|[<-|[]]]; [left; exact Hx | right; left; reflexivity].
        + apply in_or_app. right. right. exact Hx.
      - apply in_app_or in Hy. destruct Hy as [Hy|Hy].
        + apply (Permutation_in _ (insertPivot_perm work pivot)) in Hy.
          apply in_app_or in Hy. apply in_or_app.
          destruct Hy as [Hy|[<-|[]]]; [left; exact Hy | right; left; reflexivity].
        + apply in_or_app. right. right. exact Hy. }
    split; [exact Hs'|]. intros k. rewrite Hw'.
    unfold with_key in *. rewrite filter_app, Hw, !filter_app.
    rewrite <- app_assoc. f_equal.
    cbn [filter]. destruct (key pivot =? k)%Z; reflexivity.
Qed.

Lemma sort_sorted (l : list A) :
  by_key comparefn key l ->
  descending key (sort comparefn l) /\
  forall k, with_key key k (sort comparefn l) = with_key key k l.
Proof.
  intros Hk. unfold sort.
  destruct (countAndMakeRun_sorted l Hk) as [Hrun Hkeys].
  pose proof (countAndMakeRun_perm l) as Hp.
  destruct (countAndMakeRun comparefn l) as [run rest]. cbn [fst snd] in *.
  destruct (binaryInsertionSort_sorted rest run) as [Hs Hw]; [|exact Hrun|].
  { intros x y Hx Hy.
    apply Hk; eapply Permutation_in; try exact Hp; assumption. }
  split; [exact Hs|]. intros k. rewrite Hw. apply Hkeys.
Qed.

Lemma sort_descending (l : list A) :
  by_key comparefn key l -> descending key (sort comparefn l).
Proof. intros Hk. apply sort_sorted, Hk. Qed.

Lemma sort_with_key (k : Z) (l : list A) :
  by_key comparefn key l -> with_key key k (sort comparefn l) = with_key key k l.
Proof. intros Hk. apply sort_sorted, Hk. Qed.

(** A list in descending key order is determined by its elements of
    each key, taken in order. *)
Lemma descending_unique (l1 l2 : list A) :
  descending key l1 -> descending key l2 ->
  (forall k, with_key key k l1 = with_key key k l2) ->
  l1 = l2.
Proof.
  intros H1. revert l2. induction H1 as [|x l1 H1 IH Hx]; intros l2 H2 Hk.
  - destruct l2 as [|y l2]; [reflexivity|].
    specialize (Hk (key y)). simpl in Hk. rewrite Z.eqb_refl in Hk. discriminate.
  - destruct H2 as [|y l2 H2 Hy].
    + specialize (Hk (key x)). simpl in Hk. rewrite Z.eqb_refl in Hk. discriminate.
    + assert (Hxy : key x = key y).
      { assert (Hin1 : In x (with_key key (key x) (y :: l2))).
        { rewrite <- Hk. simpl. rewrite Z.eqb_refl. left. reflexivity. }
        assert (Hin2 : In y (with_key key (key y) (x :: l1))).
        { rewrite Hk. simpl. rewrite Z.eqb_refl. left. reflexivity. }
        apply filter_In in Hin1. apply filter_In in Hin2.
        destruct Hin1 as [[->|Hin1] _]; [reflexivity|].
        destruct Hin2 as [[->|Hin2] _]; [reflexivity|].
        rewrite Forall_forall in Hx, Hy.
        specialize (Hx y Hin2). specialize (Hy x Hin1). simpl in Hx, Hy. lia. }
      pose proof (Hk (key x)) as Hhead. simpl in Hhead.
      rewrite Z.eqb_refl, <- Hxy, Z.eqb_refl in Hhead.
      injection Hhead as -> Htail. f_equal.
      apply IH; [exact H2|].
      intros k. specialize (Hk k). simpl in Hk.
      destruct (Z.eqb_spec (key y) k).
      * injection Hk as Hk. exact Hk.
      * exact Hk.
Qed.

(** For a comparator that orders by a key, the result of [sort] is the
    only stable sorted arrangement: whatever sequence of comparisons an
    implementation makes, it returns this list. *)
Theorem sort_unique (l l' : list A) :
  by_key comparefn key l -> descending key l' ->
  (forall k, with_key key k l' = with_key key k l) ->
  l' = sort comparefn l.
Proof.
  intros Hk Hd Hs. apply descending_unique.
  - exact Hd.
  - apply sort_descending, Hk.
  - intros k. rewrite Hs, sort_with_key by exact Hk. reflexivity.
Qed.
End SortFacts.

(** ** Order and limit *)

Lemma compareFn_by_key (l : list FeedItem) :
  valid_dates l -> by_key compareFn timestamp l.
Proof.
  intros Hv x y Hx Hy. unfold valid_dates in Hv. rewrite Forall_forall in Hv.
  pose proof (Hv x Hx) as Vx. pose proof (Hv y Hy) as Vy.
  unfold compareArrayElements, compareFn, timestamp, timeOf.
  destruct (pubDate x) as [[tx|]|], (pubDate y) as [[ty|]|];
    try congruence; simpl; split;
    repeat match goal with
           | |- context [(?a <? ?b)%Z] => destruct (Z.ltb_spec a b)
           end;
    try reflexivity; lia.
Qed.

Lemma descending_adjacent {A} (key : A -> Z) (l : list A) :
  descending key l ->
  forall i a b, nth_error l i = Some a -> nth_error l (S i) = Some b ->
  (key b <= key a)%Z.
Proof.
  intros H. induction H as [|x l H IH Hx]; intros i a b Ha Hb.
  - destruct i; discriminate.
  - destruct i as [|i]; simpl in Ha, Hb.
    + injection Ha as <-. destruct l as [|y l]; [discriminate|].
      injection Hb as <-. inversion Hx; subst. assumption.
    + eapply IH; eassumption.
Qed.

Lemma descending_pairs {A} (key : A -> Z) (l : list A) :
  descending key l ->
  forall i j a b, nth_error l i = Some a -> nth_error l j = Some b ->
  i < j -> (key b <= key a)%Z.
Proof.
  intros H. induction H as [|x l H IH Hx]; intros i j a b Ha Hb Hij.
  - destruct i; discriminate.
  - destruct j as [|j]; [lia|]. destruct i as [|i]; simpl in Ha, Hb.
    + injection Ha as <-. rewrite Forall_forall in Hx.
      apply Hx. eapply nth_error_In, Hb.
    + eapply IH; try eassumption. lia.
Qed.

Lemma positive_limit (n : Z) :
  (negb (n =? 0) && (n >? 0))%Z = (0 <? n)%Z.
Proof.
  destruct (Z.eqb_spec n 0), (Z.ltb_spec 0 n); simpl; try lia; try reflexivity;
    rewrite Z.gtb_ltb; destruct (Z.ltb_spec 0 n); try reflexivity; lia.
Qed.

Lemma slice0_positive {A} (n : Z) (l : list A) :
  (0 < n)%Z -> slice0 n l = firstn (Z.to_nat n) l.
Proof.
  intros H. unfold slice0. destruct (Z.ltb_spec n 0); [lia | reflexivity].
Qed.

(** What [combineItems] returns, case by case. *)
Lemma combine_unlimited (results : list (list FeedItem)) :
  combineItems results None = sort compareFn (concat results).
Proof. reflexivity. Qed.

Lemma combine_positive (results : list (list FeedItem)) (k : Z) :
  (0 < k)%Z ->
  combineItems results (Some k) = firstn (Z.to_nat k) (combineItems results None).
Proof.
  intros H. unfold combineItems. rewrite positive_limit.
  destruct (Z.ltb_spec 0 k); [|lia]. apply slice0_positive, H.
Qed.

Lemma combine_nonpositive (results : list (list FeedItem)) (k : Z) :
  (k <= 0)%Z -> combineItems results (Some k) = combineItems results None.
Proof.
  intros H. unfold combineItems. rewrite positive_limit.
  destruct (Z.ltb_spec 0 k); [lia | reflexivity].
Qed.

Lemma combine_prefix (results : list (list FeedItem)) (maxItems : option Z) :
  exists rest, (combineItems results maxItems ++ rest)%list = combineItems results None.
Proof.
  destruct maxItems as [k|].
  - destruct (Z.ltb_spec 0 k).
    + rewrite combine_positive by assumption.
      exists (skipn (Z.to_nat k) (combineItems results None)). apply firstn_skipn.
    + rewrite combine_nonpositive by assumption. exists []. apply app_nil_r.
  - exists []. apply app_nil_r.
Qed.

Lemma combine_length (results : list (list FeedItem)) (maxItems : option Z) :
  length (combineItems results maxItems)
  = bounded maxItems (length (concat results)).
Proof.
  unfold bounded. destruct maxItems as [k|].
  - destruct (Z.ltb_spec 0 k).
    + rewrite combine_positive by assumption.
      rewrite length_firstn, combine_unlimited, sort_length. reflexivity.
    + rewrite combine_nonpositive by assumption.
      rewrite combine_unlimited. apply sort_length.
  - rewrite combine_unlimited. apply sort_length.
Qed.

(** ** Fetching and aggregating *)

Section AggregateFacts.
Variable newDate : string -> JSDate.
Variable fetch : string -> Promise Response.

Lemma fetchFeed_settles (source : SourceFeed) :
  catch (fetchFeed newDate fetch (feed_url source) (feed_title source))
        (fun _ => Fulfilled [])
  = Fulfilled (itemsOf newDate fetch source).
Proof.
  unfold fetchFeed, itemsOf, response_body.
  destruct (fetch (feed_url source)) as [r|e]; simpl; [|reflexivity].
  destruct (ok r); simpl; [|reflexivity].
  destruct (text r); reflexivity.
Qed.

Lemma all_settles (sources : list SourceFeed) :
  all (map (fun source =>
              catch (fetchFeed newDate fetch (feed_url source) (feed_title source))
                    (fun _ => Fulfilled []))
           sources)
  = Fulfilled (settled newDate fetch sources).
Proof.
  induction sources as [|s sources IH]; simpl; [reflexivity|].
  rewrite fetchFeed_settles. simpl. rewrite IH. reflexivity.
Qed.

Lemma aggregate_settles (sources : list SourceFeed) (maxItems : option Z) :
  aggregate newDate fetch sources maxItems
  = Fulfilled (combineItems (settled newDate fetch sources) maxItems).
Proof. unfold aggregate. rewrite all_settles. reflexivity. Qed.

Lemma itemsOf_failed (source : SourceFeed) :
  succeeded fetch source = false -> itemsOf newDate fetch source = [].
Proof.
  unfold succeeded, itemsOf.
  destruct (response_body (fetch (feed_url source))); [discriminate | reflexivity].
Qed.

Lemma concat_settled_succeeded (sources : list SourceFeed) :
  concat (settled newDate fetch (filter (succeeded fetch) sources))
  = concat (settled newDate fetch sources).
Proof.
  induction sources as [|s sources IH]; simpl; [reflexivity|].
  destruct (succeeded fetch s) eqn:E; simpl.
  - rewrite IH. reflexivity.
  - rewrite (itemsOf_failed s E). exact IH.
Qed.

Lemma combineItems_concat (r1 r2 : list (list FeedItem)) (m : option Z) :
  concat r1 = concat r2 -> combineItems r1 m = combineItems r2 m.
Proof. intros H. unfold combineItems. rewrite H. reflexivity. Qed.

Lemma length_concat_settled (sources : list SourceFeed) :
  length (concat (settled newDate fetch sources))
  = list_sum (map (fun s => length (itemsOf newDate fetch s)) sources).
Proof.
  induction sources as [|s sources IH]; simpl; [reflexivity|].
  rewrite length_app, IH. reflexivity.
Qed.
End AggregateFacts.

Lemma combineItems_sorted (results : list (list FeedItem)) (maxItems : option Z) :
  valid_dates (concat results) ->
  let out := combineItems results maxItems in
  newest_first out /\ undated_after_positive out /\
  exists rest,
    Permutation (out ++ rest) (concat results) /\
    keeps_order (out ++ rest) (concat results).
Proof.
  intros Hv out. destruct (combine_prefix results maxItems) as [rest Hrest].
  fold out in Hrest.
  pose proof (compareFn_by_key _ Hv) as Hk.
  pose proof (sort_descending compareFn timestamp _ Hk) as Hd.
  rewrite <- combine_unlimited, <- Hrest in Hd.
  assert (Hnth : forall i a, nth_error out i = Some a ->
                             nth_error (out ++ rest) i = Some a).
  { intros i a Ha. rewrite nth_error_app1; [exact Ha|].
    apply nth_error_Some. rewrite Ha. discriminate. }
  split; [|split].
  - intros i a b Ha Hb.
    eapply (descending_adjacent timestamp _ Hd); apply Hnth; eassumption.
  - intros i j a b t Ha Hb Hna Hdb Ht.
    destruct (Nat.lt_ge_cases j i) as [Hlt|Hge]; [exact Hlt|].
    exfalso. destruct (Nat.eq_dec i j) as [->|Hne].
    + rewrite Ha in Hb. injection Hb as ->. congruence.
    + assert (Hij : i < j) by lia.
      pose proof (descending_pairs timestamp _ Hd i j a b
                    (Hnth _ _ Ha) (Hnth _ _ Hb) Hij) as Hle.
      unfold timestamp, timeOf in Hle. rewrite Hna, Hdb in Hle. simpl in Hle. lia.
  - exists rest. rewrite Hrest, combine_unlimited. split.
    + apply sort_perm.
    + intros k. apply sort_with_key, Hk.
Qed.

(** C1, counterexample: one feed with an undated item followed by an item
    dated one second before the epoch.  The aggregator returns them in
    this order, the undated item before a dated one. *)
Lemma C1_counterexample :
  aggregate sampleNewDate sampleFetch [archiveSource] None
    = Fulfilled [undatedItem; oldItem] /\
  pubDate undatedItem = None /\
  pubDate oldItem = Some (ValidDate (-1000)) /\
  ~ undated_last [undatedItem; oldItem].
Proof.
  split; [vm_compute; reflexivity|]. split; [reflexivity|]. split; [reflexivity|].
  intros H. specialize (H 0 1 undatedItem oldItem eq_refl eq_refl eq_refl).
  assert (1 < 0) by (apply H; discriminate). lia.
Qed.

(** C1, amended: when no fetched item carries an invalid date, the list
    [aggregate] returns is in non-increasing order of time, an item
    without a date counting as dated at the epoch: every adjacent pair is
    in order, the undated items stand after every item dated after the
    epoch, and the list is the beginning of a rearrangement of all the
    fetched items that keeps, among items of equal time, their order in
    the concatenated input. *)
Theorem C1_sorted_by_time (newDate : string -> JSDate)
    (fetch : string -> Promise Response)
    (sources : list SourceFeed) (maxItems : option Z) :
  valid_dates (concat (settled newDate fetch sources)) ->
  exists out,
    aggregate newDate fetch sources maxItems = Fulfilled out /\
    newest_first out /\ undated_after_positive out /\
    exists rest,
      Permutation (out ++ rest) (concat (settled newDate fetch sources)) /\
      keeps_order (out ++ rest) (concat (settled newDate fetch sources)).
Proof.
  intros Hv. eexists. split; [apply aggregate_settles|].
  apply combineItems_sorted, Hv.
Qed.

(** Witness of C1: two feeds that answer and one that does not, limited
    to three items. *)
Lemma C1_sorted_by_time_witness :
  exists out,
    aggregate sampleNewDate sampleFetch
      [newsSource; downSource; archiveSource] (Some 3%Z) = Fulfilled out /\
    out = [mondayItem; saturdayItem; undatedItem] /\
    newest_first out /\ undated_after_positive out.
Proof.
  assert (Hv : valid_dates (concat (settled sampleNewDate sampleFetch
                                      [newsSource; downSource; archiveSource]))).
  { vm_compute. repeat constructor; discriminate. }
  destruct (C1_sorted_by_time sampleNewDate sampleFetch
              [newsSource; downSource; archiveSource] (Some 3%Z) Hv)
    as [out [Hout [Hs [Hu _]]]].
  exists out. split; [exact Hout|]. split; [|split; assumption].
  vm_compute in Hout. injection Hout as <-. reflexivity.
Defined.

(** C2: evaluation at the failing input.  The feed [brokenFeed] holds an
    item whose date text does not parse, followed by a validly dated
    item.  The parser gives the first an invalid date, and the aggregator
    returns it before the dated item; the same item without a date is
    returned after it.  Between two validly dated items, the item with
    the invalid date even keeps the older one ahead of the newer one. *)
Lemma C2_invalid_date_keeps_its_place :
  aggregate sampleNewDate sampleFetch [brokenSource] None
    = Fulfilled [garbledItem; datedItem] /\
  pubDate garbledItem = Some InvalidDate /\
  pubDate datedItem = Some (ValidDate 1737331200000) /\
  combineItems [[with_pubDate None garbledItem; datedItem]] None
    = [datedItem; with_pubDate None garbledItem] /\
  combineItems [[saturdayItem; garbledItem; mondayItem]] None
    = [saturdayItem; garbledItem; mondayItem].
Proof. repeat split; vm_compute; reflexivity. Qed.

(** C3, counterexample: with [maxItems = 1], the feed that holds an
    undated item followed by an item dated one second before the epoch is
    cut to the undated item, and the dated item is dropped: under the
    ordering the claim refers to, which places an item without a date
    after all dated items, the dated item is the most recent one.  The
    feed whose first item carries a date text that does not parse is cut,
    in the same way, to that item, and its validly dated item is
    dropped. *)
Lemma C3_counterexample :
  concat (settled sampleNewDate sampleFetch [archiveSource])
    = [undatedItem; oldItem] /\
  aggregate sampleNewDate sampleFetch [archiveSource] (Some 1%Z)
    = Fulfilled [undatedItem] /\
  pubDate undatedItem = None /\
  pubDate oldItem = Some (ValidDate (-1000)) /\
  concat (settled sampleNewDate sampleFetch [brokenSource])
    = [garbledItem; datedItem] /\
  aggregate sampleNewDate sampleFetch [brokenSource] (Some 1%Z)
    = Fulfilled [garbledItem] /\
  pubDate garbledItem = Some InvalidDate /\
  pubDate datedItem = Some (ValidDate 1737331200000).
Proof.
  split; [vm_compute; reflexivity|]. split; [vm_compute; reflexivity|].
  split; [reflexivity|]. split; [reflexivity|].
  split; [vm_compute; reflexivity|]. split; [vm_compute; reflexivity|].
  split; reflexivity.
Qed.

(** C3, amended: with [maxItems = k > 0], [aggregate] returns the first
    [k] entries of the list it returns without a limit, [min k total]
    items; with [maxItems] unset, zero or negative it returns that whole
    list, a rearrangement of the fetched items.  When no fetched item
    carries an invalid date, that list is the fetched items in
    non-increasing order of time, an item without a date counting as
    dated at the epoch and items of equal time keeping the order of the
    concatenated input: the items retained are the most recent ones,
    each of them at least as recent as each item dropped. *)
Theorem C3_limit (newDate : string -> JSDate)
    (fetch : string -> Promise Response)
    (sources : list SourceFeed) (maxItems : option Z) :
  let merged := concat (settled newDate fetch sources) in
  exists full out dropped,
    aggregate newDate fetch sources None = Fulfilled full /\
    aggregate newDate fetch sources maxItems = Fulfilled out /\
    full = (out ++ dropped)%list /\
    Permutation full merged /\
    (forall k : Z, maxItems = Some k -> (0 < k)%Z ->
       out = firstn (Z.to_nat k) full /\
       length out = Nat.min (Z.to_nat k) (length merged)) /\
    (maxItems = None \/ (exists k : Z, maxItems = Some k /\ (k <= 0)%Z) ->
       out = full /\ dropped = []) /\
    (valid_dates merged ->
       descending timestamp full /\
       keeps_order full merged /\
       forall a b, In a out -> In b dropped ->
                   (timestamp b <= timestamp a)%Z).
Proof.
  intros merged.
  destruct (combine_prefix (settled newDate fetch sources) maxItems)
    as [dropped Hd].
  exists (combineItems (settled newDate fetch sources) None),
         (combineItems (settled newDate fetch sources) maxItems), dropped.
  split; [apply aggregate_settles|]. split; [apply aggregate_settles|].
  split; [symmetry; exact Hd|].
  split; [rewrite combine_unlimited; apply sort_perm|].
  split; [|split].
  - intros k -> Hk. rewrite combine_positive in * by exact Hk.
    split; [reflexivity|].
    rewrite length_firstn, combine_unlimited, sort_length. reflexivity.
  - intros Hm.
    assert (E : combineItems (settled newDate fetch sources) maxItems
                = combineItems (settled newDate fetch sources) None).
    { destruct Hm as [->|[k [-> Hk]]];
        [reflexivity | apply combine_nonpositive, Hk]. }
    split; [exact E|]. rewrite E in Hd.
    apply (app_inv_head (combineItems (settled newDate fetch sources) None)).
    rewrite Hd, app_nil_r. reflexivity.
  - intros Hv. pose proof (compareFn_by_key _ Hv) as Hk.
    assert (Hs : descending timestamp
                   (combineItems (settled newDate fetch sources) None)).
    { rewrite combine_unlimited. apply sort_descending, Hk. }
    split; [exact Hs|]. split.
    + intros k. rewrite combine_unlimited. apply sort_with_key, Hk.
    + rewrite <- Hd in Hs. apply descending_app in Hs. apply Hs.
Qed.

(** Witness of C3: four fetched items, none with an invalid date, under
    the limits 3 and -2. *)
Lemma C3_limit_witness :
  (exists out dropped,
     aggregate sampleNewDate sampleFetch [newsSource; archiveSource] (Some 3%Z)
       = Fulfilled out /\
     out = [mondayItem; saturdayItem; undatedItem] /\
     dropped = [oldItem] /\
     descending timestamp (out ++ dropped)%list /\
     forall a b, In a out -> In b dropped -> (timestamp b <= timestamp a)%Z) /\
  aggregate sampleNewDate sampleFetch [newsSource; archiveSource] (Some (-2)%Z)
    = Fulfilled [mondayItem; saturdayItem; undatedItem; oldItem].
Proof.
  assert (Hv : valid_dates (concat (settled sampleNewDate sampleFetch
                                      [newsSource; archiveSource]))).
  { vm_compute. repeat constructor; discriminate. }
  split.
  - destruct (C3_limit sampleNewDate sampleFetch [newsSource; archiveSource]
                (Some 3%Z))
      as [full [out [dropped [Hfull [Hout [Hsplit [_ [_ [_ Hrecent]]]]]]]]].
    destruct (Hrecent Hv) as [Hs [_ Hr]].
    exists out, dropped. split; [exact Hout|].
    vm_compute in Hfull. injection Hfull as <-.
    vm_compute in Hout. injection Hout as <-.
    assert (Hdr : dropped = [oldItem]).
    { apply (app_inv_head [mondayItem; saturdayItem; undatedItem]).
      symmetry. exact Hsplit. }
    split; [reflexivity|]. split; [exact Hdr|].
    split; [rewrite <- Hsplit; exact Hs | exact Hr].
  - destruct (C3_limit sampleNewDate sampleFetch [newsSource; archiveSource]
                (Some (-2)%Z))
      as [full [out [dropped [Hfull [Hout [_ [_ [_ [Hall _]]]]]]]]].
    destruct Hall as [-> _]; [right; exists (-2)%Z; split; [reflexivity|lia]|].
    vm_compute in Hfull. injection Hfull as <-. exact Hout.
Defined.

(** C4: a source whose request is rejected, answers with a non-success
    status or whose body cannot be read contributes the empty list, and
    [aggregate] is always fulfilled: with the result it has for the
    successful sources alone, whose length is the sum of their item
    counts bounded by [maxItems], and which, without [maxItems], is a
    rearrangement of exactly their items. *)
Theorem C4_failures_are_isolated (newDate : string -> JSDate)
    (fetch : string -> Promise Response)
    (sources : list SourceFeed) (maxItems : option Z) :
  let successful := filter (succeeded fetch) sources in
  (forall source, succeeded fetch source = false ->
     catch (fetchFeed newDate fetch (feed_url source) (feed_title source))
           (fun _ => Fulfilled [])
     = Fulfilled []) /\
  exists out,
    aggregate newDate fetch sources maxItems = Fulfilled out /\
    aggregate newDate fetch successful maxItems = Fulfilled out /\
    length out
      = bounded maxItems
          (list_sum (map (fun s => length (itemsOf newDate fetch s)) successful)) /\
    (maxItems = None ->
     Permutation out (concat (map (itemsOf newDate fetch) successful))).
Proof.
  intros successful. split.
  - intros source Hs. rewrite fetchFeed_settles, itemsOf_failed by exact Hs.
    reflexivity.
  - exists (combineItems (settled newDate fetch sources) maxItems).
    split; [apply aggregate_settles|]. split; [|split].
    + rewrite aggregate_settles. f_equal. apply combineItems_concat.
      apply concat_settled_succeeded.
    + rewrite combine_length, <- length_concat_settled.
      unfold successful. rewrite concat_settled_succeeded. reflexivity.
    + intros ->. rewrite combine_unlimited.
      eapply perm_trans; [apply sort_perm|].
      unfold successful. fold (settled newDate fetch (filter (succeeded fetch) sources)).
      rewrite concat_settled_succeeded. apply Permutation_refl.
Qed.

(** Witness of C4: four sources, one answering 500 and one unreachable. *)
Lemma C4_failures_are_isolated_witness :
  aggregate sampleNewDate sampleFetch
    [newsSource; downSource; archiveSource; unreachableSource] None
    = Fulfilled [mondayItem; saturdayItem; undatedItem; oldItem] /\
  filter (succeeded sampleFetch)
    [newsSource; downSource; archiveSource; unreachableSource]
    = [newsSource; archiveSource].
Proof.
  destruct (C4_failures_are_isolated sampleNewDate sampleFetch
              [newsSource; downSource; archiveSource; unreachableSource] None)
    as [_ [out [Hout _]]].
  split; [|reflexivity].
  rewrite Hout. vm_compute in Hout. injection Hout as <-. reflexivity.
Defined.
(** * Properties of the parser *)

(** ** Strings *)

Lemma append_assoc (a b c : string) : (a ++ b) ++ c = a ++ (b ++ c).
Proof. induction a as [|x a IH]; simpl; [reflexivity | rewrite IH; reflexivity]. Qed.

Lemma append_nil_r (a : string) : a ++ "" = a.
Proof. induction a as [|x a IH]; simpl; [reflexivity | rewrite IH; reflexivity]. Qed.

Lemma length_append (a b : string) :
  String.length (a ++ b) = String.length a + String.length b.
Proof. induction a as [|x a IH]; simpl; [reflexivity | rewrite IH; reflexivity]. Qed.

Lemma strip_prefix_spec (p s r : string) :
  strip_prefix p s = Some r <-> s = p ++ r.
Proof.
  revert s. induction p as [|a p IH]; intros s; simpl.
  - split; [intros [= ->]; reflexivity | intros ->; reflexivity].
  - destruct s as [|b s].
    + split; [discriminate | discriminate].
    + destruct (Ascii.eqb_spec a b) as [->|Hne].
      * rewrite IH. split; [intros ->; reflexivity | intros [= ->]; reflexivity].
      * split; [discriminate | intros [= E _]; congruence].
Qed.

Lemma starts_with_spec (p s : string) :
  starts_with p s = true <-> exists r, s = p ++ r.
Proof.
  unfold starts_with. destruct (strip_prefix p s) as [r|] eqn:E.
  - apply strip_prefix_spec in E. split; [exists r; exact E | reflexivity].
  - split; [discriminate|]. intros [r Hr].
    apply strip_prefix_spec in Hr. congruence.
Qed.

Lemma includes_spec (p s : string) : includes p s = true <-> contains p s.
Proof.
  induction s as [|c s IH].
  - simpl. rewrite orb_false_r, starts_with_spec. split.
    + intros [r Hr]. exists "", r. exact Hr.
    + intros [b [a H]]. destruct b; [exists a; exact H | discriminate].
  - simpl. rewrite orb_true_iff, starts_with_spec, IH. split.
    + intros [[r Hr] | [b [a H]]].
      * exists "", r. exact Hr.
      * exists (String c b), a. simpl. rewrite H. reflexivity.
    + intros [b [a H]]. destruct b as [|x b]; simpl in H.
      * left. exists a. exact H.
      * right. injection H as _ H. exists b, a. exact H.
Qed.

(** ** Dialect detection *)

(** C7: [parse] takes the Atom path exactly when the text contains both
    the feed marker and the Atom namespace declaration, and the RSS path
    otherwise; whatever else the text holds, a stray rss included, plays
    no part.  On the Atom path the items are the entry elements: in
    [stray_rss_feed] the item element is not read.  On the RSS path they
    are the item elements: in [stray_feed_rss], which holds a feed tag
    without the declaration, the entry element is not read. *)
Theorem C7_dialect (newDate : string -> JSDate) (xml url : string)
    (sourceTitle : option string) :
  (contains "<feed" xml /\ contains atomNamespace xml ->
   parse newDate xml url sourceTitle = parseAtom newDate xml url sourceTitle) /\
  (~ (contains "<feed" xml /\ contains atomNamespace xml) ->
   parse newDate xml url sourceTitle = parseRSS newDate xml url sourceTitle) /\
  (forall a b c,
     parse newDate (a ++ "<feed" ++ b ++ atomNamespace ++ c) url sourceTitle
     = parseAtom newDate (a ++ "<feed" ++ b ++ atomNamespace ++ c) url sourceTitle) /\
  parse newDate stray_rss_feed url None = [stray_rss_entry] /\
  parse newDate stray_feed_rss url None = [stray_feed_item].
Proof.
  assert (Hdec : isAtom xml = true <->
                 contains "<feed" xml /\ contains atomNamespace xml).
  { unfold isAtom. rewrite andb_true_iff, !includes_spec. reflexivity. }
  split; [|split; [|split; [|split]]].
  - intros H. unfold parse. apply Hdec in H. rewrite H. reflexivity.
  - intros H. unfold parse. destruct (isAtom xml) eqn:E; [|reflexivity].
    exfalso. apply H, Hdec. reflexivity.
  - intros a b c. unfold parse.
    replace (isAtom (a ++ "<feed" ++ b ++ atomNamespace ++ c)) with true;
      [reflexivity|].
    symmetry. unfold isAtom. rewrite andb_true_iff, !includes_spec. split.
    + exists a, (b ++ atomNamespace ++ c). reflexivity.
    + exists (a ++ "<feed" ++ b), c. rewrite !append_assoc. reflexivity.
  - vm_compute. reflexivity.
  - vm_compute. reflexivity.
Qed.

(** Witness of C7: an Atom document that mentions rss, and an RSS
    document. *)
Lemma C7_dialect_witness :
  parse sampleNewDate stray_rss_feed "https://atom.example/feed" None
  = parseAtom sampleNewDate stray_rss_feed "https://atom.example/feed" None /\
  parse sampleNewDate newsFeed "https://news.example/feed" None
  = parseRSS sampleNewDate newsFeed "https://news.example/feed" None.
Proof.
  destruct (C7_dialect sampleNewDate stray_rss_feed "https://atom.example/feed" None)
    as [Hatom _].
  destruct (C7_dialect sampleNewDate newsFeed "https://news.example/feed" None)
    as [_ [Hrss _]].
  split.
  - apply Hatom. rewrite <- !includes_spec. split; reflexivity.
  - apply Hrss. rewrite <- !includes_spec. intros [H _]. discriminate H.
Defined.

(** ** The matcher *)

Lemma char_eq_refl (ci : bool) (a : ascii) : char_eq ci a a = true.
Proof. unfold char_eq. destruct ci; apply Ascii.eqb_refl. Qed.

(** The opening angle bracket matches nothing but itself. *)
Lemma char_eq_lt (ci : bool) (b : ascii) :
  char_eq ci "<" b = Ascii.eqb "<" b.
Proof.
  destruct ci; [|reflexivity].
  destruct b as [[] [] [] [] [] [] [] []]; reflexivity.
Qed.

Lemma lit_self (ci : bool) (l s : string) : lit ci l (l ++ s) = Some s.
Proof.
  induction l as [|a l IH]; simpl; [reflexivity|].
  rewrite char_eq_refl. exact IH.
Qed.

Lemma search_none (ci : bool) (r : regex) (c : ascii) (s : string) :
  search ci r (String c s) = None ->
  exec_at ci r (String c s) = None /\ search ci r s = None.
Proof.
  simpl. destruct (exec_at ci r (String c s)); [discriminate|].
  intros H. split; [reflexivity | exact H].
Qed.

Lemma matchAll_none (ci : bool) (r : regex) (s : string) :
  search ci r s = None -> matchAll ci r s = [].
Proof.
  unfold matchAll. induction s as [|c s IH]; intros H.
  - simpl in *. destruct (exec_at ci r ""); [discriminate | reflexivity].
  - apply search_none in H. destruct H as [H1 H2]. simpl. rewrite H1.
    apply IH, H2.
Qed.

(** A regular expression that opens with an angle bracket finds nothing
    in a text without one. *)
Lemma search_no_lt (ci : bool) (l : string) (r : regex) (s : string) :
  includes "<" s = false ->
  search ci (Lit (String "<" l) ;; r) s = None.
Proof.
  induction s as [|c s IH]; intros H.
  - reflexivity.
  - simpl in H. apply orb_false_iff in H. destruct H as [Hc Hs].
    unfold starts_with in Hc. cbn [strip_prefix] in Hc.
    cbn [search]. unfold exec_at. cbn [run lit]. rewrite char_eq_lt.
    destruct (Ascii.eqb "<" c); [discriminate|]. apply IH, Hs.
Qed.

(** ** Capture groups *)

Lemma star_some (p : ascii -> bool) (s : string)
    (k : string -> option match_state) (m : match_state) :
  star p s k = Some m -> exists s', k s' = Some m.
Proof.
  induction s as [|c s IH]; cbn [star]; intros H.
  - exists "". exact H.
  - destruct (p c); [|exists (String c s); exact H].
    destruct (star p s k) as [m'|] eqn:E.
    + injection H as ->. apply IH. reflexivity.
    + exists (String c s). exact H.
Qed.

Lemma star_lazy_some (p : ascii -> bool) (s : string)
    (k : string -> option match_state) (m : match_state) :
  star_lazy p s k = Some m -> exists s', k s' = Some m.
Proof.
  induction s as [|c s IH]; cbn [star_lazy]; intros H.
  - destruct (k "") eqn:E; [|discriminate]. exists "". congruence.
  - destruct (k (String c s)) eqn:E.
    + exists (String c s). congruence.
    + destruct (p c); [apply IH, H | discriminate].
Qed.

(** A successful run reaches its continuation, with the capture of its
    group if it has one and with the capture it was given otherwise. *)
Lemma run_reaches (ci : bool) (r : regex) (s : string) (cap : option string)
    (k : string -> option string -> option match_state) (m : match_state) :
  run ci r s cap k = Some m ->
  exists s' cap',
    k s' cap' = Some m /\
    (if captures r then cap' <> None else cap' = cap).
Proof.
  revert s cap k.
  induction r as [l|p|p|p|p|r1 IH1 r2 IH2|r IH]; intros s cap k H;
    cbn [run captures] in *.
  - destruct (lit ci l s) as [s'|]; [|discriminate]. exists s', cap. auto.
  - destruct s as [|c s]; [discriminate|].
    destruct (p c); [|discriminate]. exists s, cap. auto.
  - apply star_some in H. destruct H as [s' H]. exists s', cap. auto.
  - apply star_lazy_some in H. destruct H as [s' H]. exists s', cap. auto.
  - destruct s as [|c s]; [discriminate|].
    destruct (p c); [|discriminate].
    apply star_some in H. destruct H as [s' H]. exists s', cap. auto.
  - apply IH1 in H. destruct H as [s1 [cap1 [H H1]]].
    apply IH2 in H. destruct H as [s2 [cap2 [H H2]]].
    exists s2, cap2. split; [exact H|].
    destruct (captures r1), (captures r2); cbn [orb]; try assumption.
    + subst cap2. exact H1.
    + congruence.
  - apply IH in H. destruct H as [s' [cap' [H _]]].
    eexists _, _. split; [exact H | discriminate].
Qed.

Lemma exec_captures (ci : bool) (r : regex) (s : string) (m : match_state) :
  captures r = true -> exec_at ci r s = Some m -> fst m <> None.
Proof.
  intros Hc H. apply run_reaches in H. destruct H as [s' [cap' [H H']]].
  rewrite Hc in H'. injection H as <-. exact H'.
Qed.

Lemma search_captures (ci : bool) (r : regex) (s : string) (m : match_state) :
  captures r = true -> search ci r s = Some m -> fst m <> None.
Proof.
  intros Hc. induction s as [|c s IH]; cbn [search]; intros H.
  - destruct (exec_at ci r "") eqn:E; [|discriminate].
    injection H as <-. eapply exec_captures; eassumption.
  - destruct (exec_at ci r (String c s)) eqn:E.
    + injection H as <-. eapply exec_captures; eassumption.
    + apply IH, H.
Qed.

Lemma matchAll_from_captures (ci : bool) (r : regex) (skip : nat) (s : string) :
  captures r = true ->
  Forall (fun c => c <> None) (matchAll_from ci r skip s).
Proof.
  intros Hc. revert skip. induction s as [|c s IH]; intros skip.
  - destruct skip; cbn [matchAll_from]; [|constructor].
    destruct (exec_at ci r "") as [[cap rest]|] eqn:E; constructor;
      [|constructor].
    apply (exec_captures _ _ _ _ Hc E).
  - destruct skip; cbn [matchAll_from]; [|apply IH].
    destruct (exec_at ci r (String c s)) as [[cap rest]|] eqn:E; [|apply IH].
    constructor; [apply (exec_captures _ _ _ _ Hc E) | apply IH].
Qed.

(** Every regular expression of the parser has its capture group in each
    of its matches: [match[1]] is always a string. *)
Lemma parser_captures (tagName : string) :
  Forall (fun r => captures r = true)
    [itemRegex; entryRegex; linkHrefRegex;
     tagRegex tagName; nsTagRegex tagName; cdataRegex tagName].
Proof. repeat constructor. Qed.

Lemma captures_always (r : regex) : captures r = true -> always_captures r.
Proof.
  intros H. split.
  - intros s m. apply search_captures, H.
  - intros s. apply matchAll_from_captures, H.
Qed.

(** ** Defaults *)

Lemma extractTag_no_lt (xml tagName : string) :
  includes "<" xml = false -> extractTag xml tagName = None.
Proof.
  intros H. unfold extractTag, tagRegex, nsTagRegex.
  change ("<" ++ tagName) with (String "<" tagName).
  rewrite !search_no_lt by exact H.
  destruct (negb (includes ":" tagName)); reflexivity.
Qed.

Lemma extractCDATA_no_lt (xml tagName : string) :
  includes "<" xml = false -> extractCDATA xml tagName = None.
Proof.
  intros H. unfold extractCDATA, cdataRegex.
  change ("<" ++ tagName) with (String "<" tagName).
  rewrite search_no_lt by exact H. reflexivity.
Qed.

Lemma or_default_nonempty (o : option string) (d : string) :
  d <> "" -> or_default o d <> "".
Proof.
  intros Hd. unfold or_default. destruct o as [s|]; [|exact Hd].
  destruct (String.eqb_spec s ""); assumption.
Qed.

Lemma or_default_none (d : string) : or_default None d = d.
Proof. reflexivity. Qed.

Section ParserFacts.
Variable newDate : string -> JSDate.

Lemma parseRSSItem_no_lt (url : string) (st : option string) (span : string) :
  includes "<" span = false ->
  parseRSSItem newDate url st span = defaultItem url st.
Proof.
  intros H. unfold parseRSSItem, defaultItem.
  rewrite !extractTag_no_lt, !extractCDATA_no_lt by exact H. reflexivity.
Qed.

Lemma parseAtomEntry_no_lt (url : string) (st : option string) (span : string) :
  includes "<" span = false ->
  parseAtomEntry newDate url st span = defaultItem url st.
Proof.
  intros H. unfold parseAtomEntry, defaultItem, linkHrefRegex.
  rewrite !extractTag_no_lt, !extractCDATA_no_lt by exact H.
  change "<link" with (String "<" "link").
  rewrite search_no_lt by exact H. reflexivity.
Qed.

Lemma parse_titles (xml url : string) (st : option string) :
  Forall (fun item => title item <> "") (parse newDate xml url st).
Proof.
  unfold parse, parseAtom, parseRSS.
  destruct (isAtom xml); apply Forall_map, Forall_forall; intros m _;
    apply or_default_nonempty; discriminate.
Qed.

Lemma parse_no_lt (xml url : string) (st : option string) :
  includes "<" xml = false -> parse newDate xml url st = [].
Proof.
  intros H. unfold parse, parseAtom, parseRSS, itemRegex, entryRegex.
  change "<item>" with (String "<" "item>").
  change "<entry>" with (String "<" "entry>").
  rewrite !matchAll_none by (apply search_no_lt, H).
  destruct (isAtom xml); reflexivity.
Qed.

End ParserFacts.

(** C8: [parse] is a total function to lists of items: its definition
    has no failing step, every use of a match result being under its
    test and every match carrying the capture group that is read from
    it.  When a lookup finds nothing the field is defaulted or left out:
    the title is never empty and is Untitled when [extractTag] finds no
    title, the link is the empty string when the lookup finds none, and a
    span without any markup gives the all-default item.  A text in which
    the item (or entry) expression has no match gives the empty list, as
    does any text without an angle bracket; in general [parse] returns
    one item for each match of that expression, well formed or not. *)
Theorem C8_parser_total (newDate : string -> JSDate) (xml url : string)
    (sourceTitle : option string) :
  (forall tagName,
     Forall always_captures
       [itemRegex; entryRegex; linkHrefRegex;
        tagRegex tagName; nsTagRegex tagName; cdataRegex tagName]) /\
  Forall (fun item => title item <> "") (parse newDate xml url sourceTitle) /\
  (search true itemRegex xml = None ->
   parseRSS newDate xml url sourceTitle = []) /\
  (search true entryRegex xml = None ->
   parseAtom newDate xml url sourceTitle = []) /\
  (includes "<" xml = false -> parse newDate xml url sourceTitle = []) /\
  (forall span,
     extractTag span "title" = None ->
     title (parseRSSItem newDate url sourceTitle span) = "Untitled" /\
     title (parseAtomEntry newDate url sourceTitle span) = "Untitled") /\
  (forall span,
     extractTag span "link" = None ->
     link (parseRSSItem newDate url sourceTitle span) = "") /\
  (forall span,
     search true linkHrefRegex span = None ->
     link (parseAtomEntry newDate url sourceTitle span) = "") /\
  (forall span,
     includes "<" span = false ->
     parseRSSItem newDate url sourceTitle span = defaultItem url sourceTitle /\
     parseAtomEntry newDate url sourceTitle span = defaultItem url sourceTitle) /\
  length (parse newDate xml url sourceTitle)
  = length (matchAll true (if isAtom xml then entryRegex else itemRegex) xml).
Proof.
  split.
  { intros tagName. eapply Forall_impl; [|apply (parser_captures tagName)].
    apply captures_always. }
  split; [apply parse_titles|].
  split; [intros H; unfold parseRSS; rewrite matchAll_none by exact H; reflexivity|].
  split; [intros H; unfold parseAtom; rewrite matchAll_none by exact H; reflexivity|].
  split; [apply parse_no_lt|].
  split; [intros span H; simpl; rewrite H; split; reflexivity|].
  split; [intros span H; simpl; rewrite H; reflexivity|].
  split; [intros span H; simpl; rewrite H; reflexivity|].
  split.
  { intros span H. split;
      [apply parseRSSItem_no_lt | apply parseAtomEntry_no_lt]; exact H. }
  unfold parse, parseAtom, parseRSS.
  destruct (isAtom xml); apply length_map.
Qed.

(** Witness of C8: a feed cut off inside its first item, a text that is
    no feed, two spans that lack a field, and a feed of two items of
    which one carries a date that does not parse. *)
Lemma C8_parser_total_witness :
  parse sampleNewDate truncatedFeed "https://cut.example/feed" None = [] /\
  parse sampleNewDate "not a feed at all" "https://cut.example/feed" None = [] /\
  title (parseRSSItem sampleNewDate "https://cut.example/feed" None
           "<link>https://cut.example/1</link>") = "Untitled" /\
  link (parseRSSItem sampleNewDate "https://cut.example/feed" None
          "<title>No link</title>") = "" /\
  length (parse sampleNewDate brokenFeed "https://broken.example/feed" None) = 2.
Proof.
  pose proof (C8_parser_total sampleNewDate truncatedFeed
                "https://cut.example/feed" None) as [_ [_ [Hrss _]]].
  pose proof (C8_parser_total sampleNewDate "not a feed at all"
                "https://cut.example/feed" None)
    as [_ [_ [_ [_ [Hnone [Htitle [Hlink _]]]]]]].
  pose proof (C8_parser_total sampleNewDate brokenFeed
                "https://broken.example/feed" None)
    as [_ [_ [_ [_ [_ [_ [_ [_ [_ Hlen]]]]]]]]].
  split; [|split; [|split; [|split]]].
  - change (parse sampleNewDate truncatedFeed "https://cut.example/feed" None)
      with (parseRSS sampleNewDate truncatedFeed "https://cut.example/feed" None).
    apply Hrss. reflexivity.
  - apply Hnone. reflexivity.
  - apply Htitle. reflexivity.
  - apply Hlink. reflexivity.
  - rewrite Hlen. vm_compute. reflexivity.
Defined.

(** ** Global replacement of a literal *)

Lemma exec_at_lit (ci : bool) (l s : string) :
  exec_at ci (Lit l) s =
  match lit ci l s with Some s' => Some (None, s') | None => None end.
Proof. reflexivity. Qed.

Lemma replace_from_skip (ci : bool) (r : regex) (rep m rest : string) :
  replace_from ci r rep (String.length m) (m ++ rest)
  = replace_from ci r rep 0 rest.
Proof. induction m as [|c m IH]; simpl; [destruct rest|]; auto. Qed.

Lemma replace_lit_match (l rep rest : string) :
  l <> "" ->
  replace_all l rep (l ++ rest) = rep ++ replace_all l rep rest.
Proof.
  intros Hl. unfold replace_all. destruct l as [|a l]; [contradiction|].
  cbn [append replace_from]. rewrite exec_at_lit.
  change (String a (l ++ rest)) with (String a l ++ rest).
  rewrite lit_self.
  replace (String.length (String a l ++ rest) - String.length rest)
    with (S (String.length l)).
  - rewrite replace_from_skip. reflexivity.
  - rewrite length_append. cbn [String.length]. lia.
Qed.

Lemma replace_lit_nomatch (l rep : string) (c : ascii) (s : string) :
  lit false l (String c s) = None ->
  replace_all l rep (String c s) = String c (replace_all l rep s).
Proof.
  intros H. unfold replace_all. cbn [replace_from].
  rewrite exec_at_lit, H. reflexivity.
Qed.

Lemma replace_all_nil (l rep : string) :
  l <> "" -> replace_all l rep "" = "".
Proof. intros H. destruct l; [contradiction | reflexivity]. Qed.

(** ** Escaping and decoding *)

Lemma spelled_id (lo : nat) (s : string) : spelled lo lo s = s.
Proof.
  induction s as [|c s IH]; simpl; [reflexivity|].
  unfold written.
  replace ((lo <? rank c) && (rank c <=? lo))%nat with false.
  - simpl. rewrite IH. reflexivity.
  - symmetry. apply andb_false_iff.
    destruct (Nat.ltb_spec lo (rank c)); [right | left; reflexivity].
    apply Nat.leb_gt. assumption.
Qed.

Lemma rank_cases (c : ascii) :
  (rank c = 0 /\ c <> "&"%char /\ c <> "<"%char /\ c <> ">"%char
   /\ c <> ascii_of_nat 34 /\ c <> "'"%char)
  \/ special c (rank c).
Proof.
  unfold rank.
  destruct (Ascii.eqb_spec c "&") as [->|H1]; [right; constructor|].
  destruct (Ascii.eqb_spec c "<") as [->|H2]; [right; constructor|].
  destruct (Ascii.eqb_spec c ">") as [->|H3]; [right; constructor|].
  destruct (Ascii.eqb_spec c (ascii_of_nat 34)) as [->|H4]; [right; constructor|].
  destruct (Ascii.eqb_spec c "'") as [->|H5]; [right; constructor|].
  left. repeat split; assumption.
Qed.

Lemma lit_false_spec (l s r : string) :
  lit false l s = Some r <-> s = l ++ r.
Proof.
  rewrite <- strip_prefix_spec. revert s.
  induction l as [|a l IH]; intros s; simpl; [reflexivity|].
  destruct s as [|b s]; [reflexivity|].
  unfold char_eq. destruct (Ascii.eqb a b); [apply IH | reflexivity].
Qed.

Lemma replace_lit_found (l rep s rest : string) :
  lit false l s = Some rest -> l <> "" ->
  replace_all l rep s = rep ++ replace_all l rep rest.
Proof.
  intros H Hl. apply lit_false_spec in H. subst s.
  apply replace_lit_match, Hl.
Qed.

(** One step of a replacement over a text that starts with known
    characters. *)
Ltac replace_step :=
  first
    [ rewrite replace_lit_nomatch by reflexivity
    | erewrite replace_lit_found; [ | reflexivity | discriminate ] ].

Lemma lit_first (a b : ascii) (l s : string) :
  a <> b -> lit false (String a l) (String b s) = None.
Proof.
  intros H. simpl. unfold char_eq.
  destruct (Ascii.eqb_spec a b); [contradiction | reflexivity].
Qed.

(** Escaping, pass by pass. *)
Lemma escape_pass (a : ascii) (j : nat) (s : string) :
  special a j ->
  replace_all (String a "") (entity j) (spelled 0 (j - 1) s) = spelled 0 j s.
Proof.
  intros Hs. induction s as [|c s IH].
  - inversion Hs; reflexivity.
  - cbn [spelled]. destruct (rank_cases c) as [[H0 [N1 [N2 [N3 [N4 N5]]]]] | Hc].
    + unfold written. rewrite H0. cbn [Nat.ltb Nat.leb andb append].
      rewrite replace_lit_nomatch, IH; [reflexivity|].
      apply lit_first. inversion Hs; subst; congruence.
    + inversion Hs; subst; inversion Hc; subst;
        cbn -[replace_all spelled] in *;
        repeat replace_step; rewrite IH; reflexivity.
Qed.

Lemma escapeXML_spelled (s : string) : escapeXML s = spelled 0 5 s.
Proof.
  unfold escapeXML.
  rewrite <- (spelled_id 0 s) at 1.
  rewrite (escape_pass "&" 1) by constructor.
  rewrite (escape_pass "<" 2) by constructor.
  rewrite (escape_pass ">" 3) by constructor.
  change dq with (String (ascii_of_nat 34) "").
  rewrite (escape_pass (ascii_of_nat 34) 4) by constructor.
  rewrite (escape_pass "'" 5) by constructor.
  reflexivity.
Qed.

(** A run of ordinary characters at the start of a spelled text is at the
    start of the text itself. *)
Lemma lit_spelled_ordinary (x : string) (lo hi : nat) (s r : string) :
  all_chars ordinary x = true ->
  lit false x (spelled lo hi s) = Some r ->
  starts_with x s = true.
Proof.
  revert s. induction x as [|a x IH]; intros s Hx Hl; [reflexivity|].
  cbn [all_chars] in Hx. apply andb_true_iff in Hx. destruct Hx as [Ha Hx].
  unfold ordinary in Ha. apply Nat.eqb_eq in Ha.
  destruct s as [|c s]; [discriminate|].
  cbn [spelled] in Hl.
  destruct (rank_cases c) as [[H0 _] | Hc].
  - unfold written in Hl. rewrite H0 in Hl.
    cbn [Nat.ltb Nat.leb andb append lit] in Hl.
    unfold char_eq in Hl. unfold starts_with. cbn [strip_prefix].
    destruct (Ascii.eqb a c); [|discriminate].
    specialize (IH s Hx Hl). unfold starts_with in IH. exact IH.
  - exfalso. unfold written in Hl.
    destruct ((lo <? rank c) && (rank c <=? hi))%nat;
      inversion Hc as [E1 E2|E1 E2|E1 E2|E1 E2|E1 E2];
      rewrite <- E1, <- ?E2 in Hl; cbn [entity append lit] in Hl;
      unfold char_eq in Hl;
      (destruct (Ascii.eqb_spec a "&") as [->|];
       [discriminate Ha | try discriminate Hl]);
      match type of Hl with
      | (if Ascii.eqb a ?c then _ else _) = _ =>
          destruct (Ascii.eqb_spec a c) as [->|]; [discriminate Ha | discriminate Hl]
      end.
Qed.

Lemma amp_not_entity (k : nat) (a : ascii) (lo hi : nat) (s : string) :
  special a k ->
  starts_with (entity k) (String "&" s) = false ->
  lit false (entity k) (String "&" (spelled lo hi s)) = None.
Proof.
  intros Hs Hn.
  destruct (lit false (entity k) (String "&" (spelled lo hi s))) as [r|] eqn:E;
    [|reflexivity].
  exfalso.
  assert (Hx : all_chars ordinary (entity_name k) = true)
    by (inversion Hs; reflexivity).
  assert (He : entity k = String "&" (entity_name k))
    by (inversion Hs; reflexivity).
  rewrite He in E, Hn. cbn [lit] in E. unfold char_eq in E.
  rewrite Ascii.eqb_refl in E.
  pose proof (lit_spelled_ordinary _ _ _ _ _ Hx E) as Hp.
  unfold starts_with in Hn, Hp. cbn [strip_prefix] in Hn.
  rewrite Ascii.eqb_refl in Hn.
  destruct (strip_prefix (entity_name k) s); discriminate.
Qed.

(** Decoding, pass by pass: the pass for an entity restores the
    character wherever the escaping wrote the entity, and changes nothing
    else as long as the original text does not itself contain the
    entity. *)
Lemma decode_pass (a : ascii) (k : nat) (s : string) :
  special a k ->
  (2 <= k -> includes (entity k) s = false) ->
  replace_all (entity k) (String a "") (spelled (k - 1) 5 s) = spelled k 5 s.
Proof.
  intros Hs. induction s as [|c s IH]; intros Hn.
  - inversion Hs; reflexivity.
  - assert (Hc0 : 2 <= k -> starts_with (entity k) (String c s) = false).
    { intros Hk. specialize (Hn Hk). cbn [includes] in Hn.
      apply orb_false_iff in Hn. apply Hn. }
    assert (Hn' : 2 <= k -> includes (entity k) s = false).
    { intros Hk. specialize (Hn Hk). cbn [includes] in Hn.
      apply orb_false_iff in Hn. apply Hn. }
    specialize (IH Hn'). cbn [spelled].
    destruct (rank_cases c) as [[H0 [N1 _]] | Hc].
    + unfold written. rewrite H0. cbn [Nat.ltb Nat.leb andb append].
      rewrite replace_lit_nomatch, IH; [reflexivity|].
      inversion Hs; subst; apply lit_first; congruence.
    + inversion Hc as [E1 E2|E1 E2|E1 E2|E1 E2|E1 E2]; subst c;
        inversion Hs as [F1 F2|F1 F2|F1 F2|F1 F2|F1 F2]; subst a k;
        cbn -[replace_all spelled] in IH |- *;
        try (rewrite replace_lit_nomatch
               by (first [ apply (amp_not_entity 2 "<")
                         | apply (amp_not_entity 3 ">")
                         | apply (amp_not_entity 4 (ascii_of_nat 34))
                         | apply (amp_not_entity 5 "'") ];
                   [constructor | apply Hc0; lia]));
        repeat replace_step; rewrite IH; reflexivity.
Qed.

Lemma decode_escape (s : string) :
  entity_free s -> decodeHTML (escapeXML s) = s.
Proof.
  intros [H2 [H3 [H4 H5]]]. unfold decodeHTML. rewrite escapeXML_spelled.
  rewrite (decode_pass "&" 1) by (constructor || lia).
  rewrite (decode_pass "<" 2) by (constructor || intros _; exact H2).
  rewrite (decode_pass ">" 3) by (constructor || intros _; exact H3).
  change dq with (String (ascii_of_nat 34) "").
  rewrite (decode_pass (ascii_of_nat 34) 4) by (constructor || intros _; exact H4).
  rewrite (decode_pass "'" 5) by (constructor || intros _; exact H5).
  apply spelled_id.
Qed.

Example decode_escape_example :
  decodeHTML (escapeXML "Q&amp;A <b>'x'</b>") = "Q&amp;A <b>'x'</b>".
Proof.
  apply decode_escape. repeat split; reflexivity.
Qed.

Example decode_escape_failure :
  decodeHTML (escapeXML "a &lt; b") = "a < b".
Proof. reflexivity. Qed.

(** ** Trimming *)

Lemma trimStart_length (s : string) :
  String.length (trimStart s) <= String.length s.
Proof.
  induction s as [|c s IH]; simpl; [lia|].
  destruct (is_space c); simpl; lia.
Qed.

Lemma trimEnd_length (s : string) :
  String.length (trimEnd s) <= String.length s.
Proof.
  induction s as [|c s IH]; simpl; [lia|].
  destruct (trimEnd s); [destruct (is_space c)|]; simpl in *; lia.
Qed.

Lemma trimStart_fixed (c : ascii) (s : string) :
  trimStart (String c s) = String c s -> is_space c = false.
Proof.
  simpl. destruct (is_space c); [|reflexivity].
  intros H. pose proof (trimStart_length s) as L. rewrite H in L.
  simpl in L. lia.
Qed.

Lemma trimEnd_fixed (c : ascii) (s : string) :
  trimEnd (String c s) = String c s ->
  (s = "" /\ is_space c = false) \/ (s <> "" /\ trimEnd s = s).
Proof.
  simpl. destruct (trimEnd s) as [|x t] eqn:E.
  - destruct (is_space c); [discriminate|].
    intros [= <-]. left. split; reflexivity.
  - intros [= <-]. right. split; [discriminate | reflexivity].
Qed.

Lemma trimmed_parts (s : string) :
  trimmed s -> trimStart s = s /\ trimEnd s = s.
Proof.
  unfold trimmed, trim. intros H.
  assert (Hs : trimStart s = s).
  { destruct s as [|c s]; [reflexivity|]. simpl in *.
    destruct (is_space c); [|reflexivity].
    pose proof (trimEnd_length (trimStart s)) as L1.
    pose proof (trimStart_length s) as L2.
    rewrite H in L1. simpl in L1. lia. }
  split; [exact Hs|]. rewrite Hs in H. exact H.
Qed.

Lemma trimEnd_app (x y : string) :
  trimEnd y <> "" -> trimEnd (x ++ y) = x ++ trimEnd y.
Proof.
  intros Hy. induction x as [|c x IH]; simpl; [reflexivity|].
  rewrite IH. destruct (x ++ trimEnd y) eqn:E; [|reflexivity].
  destruct x; simpl in E; [contradiction | discriminate].
Qed.

Lemma written_cases (lo hi : nat) (c : ascii) :
  written lo hi c = String c "" \/
  (special c (rank c) /\ written lo hi c = entity (rank c)).
Proof.
  unfold written.
  destruct ((lo <? rank c) && (rank c <=? hi))%nat eqn:E;
    [right | left; reflexivity].
  split; [|reflexivity].
  destruct (rank_cases c) as [[H0 _] | Hc]; [|exact Hc].
  rewrite H0 in E. apply andb_true_iff in E. destruct E as [E _].
  apply Nat.ltb_lt in E. lia.
Qed.

Lemma spelled_nonempty (lo hi : nat) (s : string) :
  s <> "" -> spelled lo hi s <> "".
Proof.
  destruct s as [|c s]; [contradiction|]. intros _. cbn [spelled].
  destruct (written_cases lo hi c) as [-> | [Hc ->]]; [discriminate|].
  inversion Hc as [E1 E2|E1 E2|E1 E2|E1 E2|E1 E2]; discriminate.
Qed.

Lemma trimStart_spelled (lo hi : nat) (s : string) :
  trimStart s = s -> trimStart (spelled lo hi s) = spelled lo hi s.
Proof.
  destruct s as [|c s]; [reflexivity|]. intros H.
  apply trimStart_fixed in H. cbn [spelled].
  destruct (written_cases lo hi c) as [-> | [Hc ->]].
  - simpl. rewrite H. reflexivity.
  - inversion Hc as [E1 E2|E1 E2|E1 E2|E1 E2|E1 E2]; reflexivity.
Qed.

Lemma trimEnd_spelled (lo hi : nat) (s : string) :
  trimEnd s = s -> trimEnd (spelled lo hi s) = spelled lo hi s.
Proof.
  induction s as [|c s IH]; [reflexivity|]. intros H.
  apply trimEnd_fixed in H. destruct H as [[-> Hc] | [Hs H]].
  - cbn [spelled]. rewrite append_nil_r.
    destruct (written_cases lo hi c) as [-> | [Hsp ->]].
    + simpl. rewrite Hc. reflexivity.
    + inversion Hsp as [E1 E2|E1 E2|E1 E2|E1 E2|E1 E2]; reflexivity.
  - cbn [spelled]. specialize (IH H).
    rewrite trimEnd_app; rewrite IH; [reflexivity|].
    apply spelled_nonempty, Hs.
Qed.

Lemma trim_escapeXML (s : string) :
  trimmed s -> trim (escapeXML s) = escapeXML s.
Proof.
  intros H. apply trimmed_parts in H. destruct H as [H1 H2].
  rewrite escapeXML_spelled. unfold trim.
  rewrite trimStart_spelled by exact H1. apply trimEnd_spelled, H2.
Qed.

(** What [extractTag] makes of the text the builder wrote for [s]. *)
Lemma decode_trim_escape (s : string) :
  trimmed s -> entity_free s -> decodeHTML (trim (escapeXML s)) = s.
Proof.
  intros Ht He. rewrite trim_escapeXML by exact Ht. apply decode_escape, He.
Qed.

(** ** Where a literal cannot match *)

Lemma nomatch_app (ci : bool) (l a b : string) :
  nomatch ci l a -> nomatch ci l b -> nomatch ci l (a ++ b).
Proof.
  intros Ha Hb. induction a as [|c a IH]; [exact Hb|].
  destruct Ha as [H1 H2]. split.
  - intros rest. specialize (H1 (b ++ rest)).
    cbn [append] in *. rewrite append_assoc. exact H1.
  - apply IH, H2.
Qed.

(** A text without the first character of [l]. *)
Lemma nomatch_lacking (ci : bool) (a : ascii) (l s : string) :
  all_chars (fun c => negb (char_eq ci a c)) s = true ->
  nomatch ci (String a l) s.
Proof.
  induction s as [|c s IH]; [intros _; exact I|].
  cbn [all_chars]. intros H. apply andb_true_iff in H. destruct H as [Hc Hs].
  split; [|apply IH, Hs].
  intros rest. cbn [append lit].
  destruct (char_eq ci a c); [discriminate | reflexivity].
Qed.

Lemma lit_guard (ci : bool) (g : ascii) (l y rest : string) :
  lit ci l y = None ->
  all_chars (fun a => negb (char_eq ci a g)) l = true ->
  lit ci l (y ++ String g rest) = None.
Proof.
  revert y. induction l as [|a l IH]; intros y Hy Hg; [discriminate|].
  cbn [all_chars] in Hg. apply andb_true_iff in Hg. destruct Hg as [Ha Hg].
  destruct y as [|b y]; cbn [append lit] in *.
  - destruct (char_eq ci a g); [discriminate | reflexivity].
  - destruct (char_eq ci a b); [apply IH; assumption | reflexivity].
Qed.

(** A text in which [l] does not occur, followed by a character that is
    not in [l]. *)
Lemma nomatch_guarded (ci : bool) (g : ascii) (l d tail : string) :
  occurs ci l d = false ->
  all_chars (fun a => negb (char_eq ci a g)) l = true ->
  nomatch ci l (String g tail) ->
  nomatch ci l (d ++ String g tail).
Proof.
  intros Hd Hg Ht. induction d as [|c d IH]; [exact Ht|].
  cbn [occurs] in Hd.
  destruct (lit ci l (String c d)) eqn:E; [discriminate|].
  split; [|apply IH, Hd].
  intros rest. cbn [append]. rewrite append_assoc.
  change (String c (d ++ String g tail ++ rest))
    with (String c d ++ String g (tail ++ rest)).
  apply lit_guard; assumption.
Qed.

(** ** Borders *)

Lemma mismatch_lit (ci : bool) (l s rest : string) :
  mismatch ci l s = true -> lit ci l (s ++ rest) = None.
Proof.
  revert s. induction l as [|a l IH]; intros s H; [discriminate|].
  destruct s as [|b s]; [discriminate|]. cbn [mismatch append lit] in *.
  destruct (char_eq ci a b); [apply IH, H | reflexivity].
Qed.

Lemma lit_straddle (ci : bool) (whole l y rest : string) :
  tails_mismatch ci whole l = true ->
  lit ci l y = None ->
  lit ci l (y ++ whole ++ rest) = None.
Proof.
  revert y. induction l as [|a l IH]; intros y Hb Hy; [discriminate|].
  cbn [tails_mismatch] in Hb. apply andb_true_iff in Hb. destruct Hb as [Hm Hb].
  destruct y as [|b y].
  - cbn [append]. apply mismatch_lit, Hm.
  - cbn [append lit] in *.
    destruct (char_eq ci a b); [apply IH; assumption | reflexivity].
Qed.

(** ** The lazy star *)

Lemma star_lazy_skip (k : string -> option match_state) (body tail : string) :
  fails_inside k body tail ->
  star_lazy any (body ++ tail) k = star_lazy any tail k.
Proof.
  induction body as [|c b IH]; [reflexivity|].
  intros [H1 H2]. cbn [append star_lazy]. cbn [append] in H1. rewrite H1.
  cbn [any]. apply IH, H2.
Qed.

Lemma star_lazy_here (p : ascii -> bool) (k : string -> option match_state)
    (s : string) (m : match_state) :
  k s = Some m -> star_lazy p s k = Some m.
Proof. intros H. destruct s; cbn [star_lazy]; rewrite H; reflexivity. Qed.

Lemma substring_prefix (a b : string) :
  substring 0 (String.length a) (a ++ b) = a.
Proof.
  induction a as [|c a IH]; simpl.
  - destruct b; reflexivity.
  - rewrite IH. reflexivity.
Qed.

Lemma consumed_app (a b : string) : consumed (a ++ b) b = a.
Proof.
  unfold consumed. rewrite length_append.
  replace (String.length a + String.length b - String.length b)
    with (String.length a) by lia.
  apply substring_prefix.
Qed.

Lemma nomatch_unmatched (ci : bool) (l body tail : string) :
  nomatch ci l body -> unmatched ci l body tail.
Proof.
  induction body as [|c b IH]; [intros _; exact I|].
  intros [H1 H2]. split; [apply H1 | apply IH, H2].
Qed.

Lemma occurs_unmatched (ci : bool) (l body rest : string) :
  borderless ci l = true -> occurs ci l body = false ->
  unmatched ci l body (l ++ rest).
Proof.
  intros Hb. induction body as [|c b IH]; [intros _; exact I|].
  cbn [occurs]. destruct (lit ci l (String c b)) eqn:E; [discriminate|].
  intros Ho. split; [|apply IH, Ho].
  destruct l as [|a l]; [discriminate|].
  cbn [borderless] in Hb. cbn [append lit] in *.
  destruct (char_eq ci a c); [|reflexivity].
  change (String a (l ++ rest)) with (String a l ++ rest).
  apply lit_straddle; assumption.
Qed.

(** A group with a lazy star followed by the literal [l]: the capture is
    the text up to the first place where [l] matches. *)
Lemma run_lazy_group (ci : bool) (l body rest : string) (cap : option string)
    (k : string -> option string -> option match_state) (m : match_state) :
  unmatched ci l body (l ++ rest) ->
  k rest (Some body) = Some m ->
  run ci (Group (StarLazy any) ;; Lit l) (body ++ l ++ rest) cap k = Some m.
Proof.
  intros Hu Hk. cbn [run].
  rewrite star_lazy_skip.
  - apply star_lazy_here. rewrite lit_self, consumed_app. exact Hk.
  - clear Hk. generalize (body ++ l ++ rest) as whole. intros whole.
    induction body as [|c b IH]; [exact I|].
    destruct Hu as [H1 H2]. split; [|apply IH, H2].
    rewrite H1. reflexivity.
Qed.

(** ** Searching *)

Lemma run_lit_fails (ci : bool) (l : string) (r : regex) (s : string) :
  lit ci l s = None -> exec_at ci (Lit l ;; r) s = None.
Proof. intros H. unfold exec_at. cbn [run]. rewrite H. reflexivity. Qed.

Lemma search_here (ci : bool) (r : regex) (s : string) (m : match_state) :
  exec_at ci r s = Some m -> search ci r s = Some m.
Proof. intros H. destruct s; cbn [search]; rewrite H; reflexivity. Qed.

Lemma search_skip (ci : bool) (l : string) (r : regex) (pre s : string) :
  nomatch ci l pre ->
  search ci (Lit l ;; r) (pre ++ s) = search ci (Lit l ;; r) s.
Proof.
  induction pre as [|c pre IH]; [reflexivity|].
  intros [H1 H2]. cbn [append search].
  rewrite run_lit_fails by (apply (H1 s)). apply IH, H2.
Qed.

Lemma matchAll_skip (ci : bool) (l : string) (r : regex) (pre s : string) :
  nomatch ci l pre ->
  matchAll ci (Lit l ;; r) (pre ++ s) = matchAll ci (Lit l ;; r) s.
Proof.
  unfold matchAll. induction pre as [|c pre IH]; [reflexivity|].
  intros [H1 H2]. cbn [append matchAll_from].
  rewrite run_lit_fails by (apply (H1 s)). apply IH, H2.
Qed.

Lemma matchAll_from_skip (ci : bool) (r : regex) (m rest : string) :
  matchAll_from ci r (String.length m) (m ++ rest) = matchAll_from ci r 0 rest.
Proof. induction m as [|c m IH]; [reflexivity | exact IH]. Qed.

Lemma matchAll_here (ci : bool) (r : regex) (c : ascii) (m rest : string)
    (cap : option string) :
  exec_at ci r (String c m ++ rest) = Some (cap, rest) ->
  matchAll ci r (String c m ++ rest) = cap :: matchAll ci r rest.
Proof.
  intros H. unfold matchAll. cbn [append matchAll_from] in *. rewrite H.
  f_equal.
  replace (String.length (String c (m ++ rest)) - String.length rest - 1)
    with (String.length m).
  - apply matchAll_from_skip.
  - cbn [String.length]. rewrite length_append. lia.
Qed.

(** ** Elements the builder writes, read back *)

Lemma run_lit (ci : bool) (l s s' : string) (cap : option string)
    (k : string -> option string -> option match_state) :
  lit ci l s = Some s' -> run ci (Lit l) s cap k = k s' cap.
Proof. intros H. cbn [run]. rewrite H. reflexivity. Qed.

Lemma run_star_stop (ci : bool) (p : ascii -> bool) (c : ascii) (s : string)
    (cap : option string)
    (k : string -> option string -> option match_state) :
  p c = false -> run ci (Star p) (String c s) cap k = k (String c s) cap.
Proof. intros H. cbn [run star]. rewrite H. reflexivity. Qed.

Lemma exec_tag (tagName content rest : string) :
  unmatched true ("</" ++ tagName ++ ">") content
            (("</" ++ tagName ++ ">") ++ rest) ->
  exec_at true (tagRegex tagName)
    (("<" ++ tagName) ++ ">" ++ content ++ ("</" ++ tagName ++ ">") ++ rest)
  = Some (Some content, rest).
Proof.
  intros H. unfold exec_at, tagRegex.
  cbn [run]. rewrite lit_self.
  change (">" ++ content ++ ("</" ++ tagName ++ ">") ++ rest)
    with (String ">" (content ++ ("</" ++ tagName ++ ">") ++ rest)).
  cbn [star]. replace (none_of ">" ">") with false by reflexivity.
  replace (lit true ">" (String ">" (content ++ ("</" ++ tagName ++ ">") ++ rest)))
    with (Some (content ++ ("</" ++ tagName ++ ">") ++ rest)) by reflexivity.
  apply (run_lazy_group true ("</" ++ tagName ++ ">") content rest None
           (fun s' cap => Some (cap, s'))); [exact H | reflexivity].
Qed.

Lemma exec_cdata (tagName content rest : string) :
  unmatched true ("]]></" ++ tagName ++ ">") content
            (("]]></" ++ tagName ++ ">") ++ rest) ->
  exec_at true (cdataRegex tagName)
    (("<" ++ tagName) ++ "><![CDATA[" ++ content
     ++ ("]]></" ++ tagName ++ ">") ++ rest)
  = Some (Some content, rest).
Proof.
  intros H. unfold exec_at, cdataRegex.
  cbn [run]. rewrite lit_self.
  change ("><![CDATA[" ++ content ++ ("]]></" ++ tagName ++ ">") ++ rest)
    with (String ">" ("<![CDATA[" ++ content ++ ("]]></" ++ tagName ++ ">") ++ rest)).
  cbn [star]. replace (none_of ">" ">") with false by reflexivity.
  change (String ">" ("<![CDATA[" ++ content ++ ("]]></" ++ tagName ++ ">") ++ rest))
    with ("><![CDATA[" ++ content ++ ("]]></" ++ tagName ++ ">") ++ rest).
  rewrite lit_self.
  apply (run_lazy_group true ("]]></" ++ tagName ++ ">") content rest None
           (fun s' cap => Some (cap, s'))); [exact H | reflexivity].
Qed.

Lemma all_chars_app (p : ascii -> bool) (a b : string) :
  all_chars p (a ++ b) = all_chars p a && all_chars p b.
Proof.
  induction a as [|c a IH]; simpl; [reflexivity|].
  rewrite IH, andb_assoc. reflexivity.
Qed.

Lemma nomatch_no_lt (ci : bool) (l s : string) :
  no_lt s -> nomatch ci (String "<" l) s.
Proof.
  unfold no_lt. induction s as [|c s IH]; [intros _; exact I|].
  cbn [all_chars]. intros H. apply andb_true_iff in H. destruct H as [Hc Hs].
  split; [|apply IH, Hs].
  intros rest. cbn [append lit]. rewrite char_eq_lt.
  destruct (Ascii.eqb "<" c); [discriminate | reflexivity].
Qed.

Lemma escapeXML_no_lt (s : string) : no_lt (escapeXML s).
Proof.
  rewrite escapeXML_spelled. unfold no_lt.
  induction s as [|c s IH]; [reflexivity|].
  cbn [spelled]. rewrite all_chars_app, IH, andb_true_r.
  destruct (rank_cases c) as [[H0 [_ [N2 _]]] | Hc].
  - unfold written. rewrite H0. cbn [Nat.ltb Nat.leb andb all_chars].
    destruct (Ascii.eqb_spec "<" c); [congruence | reflexivity].
  - inversion Hc as [E1 E2|E1 E2|E1 E2|E1 E2|E1 E2]; reflexivity.
Qed.

(** ** Numbers and dates in the output *)

Lemma all_chars_uint (p : ascii -> bool) (d : Decimal.uint) :
  all_chars p "0123456789" = true ->
  all_chars p (NilEmpty.string_of_uint d) = true.
Proof.
  intros H. cbn [all_chars] in H.
  repeat (apply andb_true_iff in H; destruct H as [? H]).
  induction d; cbn [NilEmpty.string_of_uint all_chars];
    try reflexivity; apply andb_true_iff; split; assumption.
Qed.

Lemma all_chars_decimal (p : ascii -> bool) (n : Z) :
  all_chars p "-0123456789" = true -> all_chars p (decimal n) = true.
Proof.
  intros H. cbn [all_chars] in H.
  apply andb_true_iff in H. destruct H as [Hm Hd].
  assert (Hu : forall d, all_chars p (NilZero.string_of_uint d) = true).
  { intros d. unfold NilZero.string_of_uint.
    destruct d; try (apply (all_chars_uint _ (_ _)); exact Hd).
    cbn [all_chars]. apply andb_true_iff in Hd. destruct Hd as [-> _].
    reflexivity. }
  unfold decimal, NilZero.string_of_int.
  destruct (Z.to_int n) as [d|d]; [apply Hu|].
  cbn [all_chars]. rewrite Hm. apply Hu.
Qed.

Lemma all_chars_trimZeros (p : ascii -> bool) (s : string) :
  all_chars p s = true -> all_chars p (trimZeros s) = true.
Proof.
  induction s as [|c s IH]; [reflexivity|].
  cbn [all_chars trimZeros]. intros H.
  apply andb_true_iff in H. destruct H as [Hc Hs]. specialize (IH Hs).
  destruct (trimZeros s) as [|c' t].
  - destruct (Ascii.eqb c "0"); cbn [all_chars]; rewrite ?Hc; reflexivity.
  - cbn [all_chars] in *. rewrite Hc. exact IH.
Qed.

Ltac split_chars H :=
  cbn [all_chars] in H;
  repeat (apply andb_true_iff in H; destruct H as [? H]).
Ltac by_chars H :=
  let H' := fresh in
  pose proof H as H'; split_chars H'; cbn [all_chars];
  repeat match goal with
         | E : ?p ?c = true |- context [?p ?c] => rewrite E
         end;
  reflexivity.

Lemma all_chars_exponential (p : ascii -> bool) (digits : string) :
  all_chars p "-0123456789.e+" = true -> all_chars p digits = true ->
  all_chars p (exponential digits) = true.
Proof.
  intros H Hd.
  assert (Hn : all_chars p "-0123456789" = true) by by_chars H.
  assert (Hm : all_chars p "e+" = true) by by_chars H.
  assert (Hdot : p "."%char = true) by (split_chars H; assumption).
  pose proof (all_chars_trimZeros p digits Hd) as Ht.
  pose proof (all_chars_decimal p (Z.of_nat (String.length digits) - 1) Hn) as He.
  unfold exponential.
  destruct (trimZeros digits) as [|c [|c' rest]]; [exact Hd|..];
    cbn [all_chars] in Ht; apply andb_true_iff in Ht; destruct Ht as [Hc Ht].
  - change (String c "" ++ "e+" ++ ?e) with (String c ("e+" ++ e)).
    cbn [all_chars]. rewrite Hc, all_chars_app, Hm. exact He.
  - change (String c "" ++ "." ++ String c' rest ++ "e+" ++ ?e)
      with (String c (String "." (String c' rest ++ "e+" ++ e))).
    cbn [all_chars]. rewrite Hc, Hdot, !all_chars_app, Hm, He.
    cbn [all_chars]. rewrite Ht. reflexivity.
Qed.

Lemma all_chars_number (p : ascii -> bool) (n : Z) :
  all_chars p "-0123456789.e+Infinity" = true ->
  all_chars p (number_to_string n) = true.
Proof.
  intros H.
  assert (Hx : all_chars p "-0123456789.e+" = true) by by_chars H.
  assert (Hn : all_chars p "-0123456789" = true) by by_chars H.
  assert (Hi : all_chars p "Infinity" = true) by by_chars H.
  assert (Hm : forall x, all_chars p (magnitude_to_string x) = true).
  { intros x. unfold magnitude_to_string.
    destruct (x <? 2 ^ 53)%Z; [apply all_chars_decimal, Hn|].
    destruct (2 ^ 1024 <=? numberValue x)%Z; [exact Hi|].
    destruct (String.length _ <=? 21)%nat.
    - apply all_chars_decimal, Hn.
    - apply all_chars_exponential; [exact Hx | apply all_chars_decimal, Hn]. }
  unfold number_to_string. destruct (n <? 0)%Z; [|apply Hm].
  change ("-" ++ ?s) with (String "-" s). cbn [all_chars].
  rewrite Hm, andb_true_r. split_chars Hn. assumption.
Qed.

Lemma number_no_lt (n : Z) : no_lt (number_to_string n).
Proof. apply all_chars_number. reflexivity. Qed.

Lemma padStart2_no_lt (s : string) : no_lt s -> no_lt (padStart2 s).
Proof.
  unfold no_lt. destruct s as [|c [|c' s]]; intros H; exact H.
Qed.

Lemma nth_no_lt (n : nat) (l : list string) (d : string) :
  Forall no_lt l -> no_lt d -> no_lt (nth n l d).
Proof.
  intros Hl Hd. revert n. induction Hl; intros [|n]; simpl; auto.
Qed.

Lemma no_lt_app (a b : string) : no_lt a -> no_lt b -> no_lt (a ++ b).
Proof.
  unfold no_lt. intros Ha Hb. rewrite all_chars_app, Ha, Hb. reflexivity.
Qed.

Lemma formatDate_no_lt (d : JSDate) : no_lt (formatDate d).
Proof.
  destruct d as [t|]; [|reflexivity]. unfold formatDate.
  repeat first
    [ apply no_lt_app
    | apply padStart2_no_lt
    | apply number_no_lt
    | apply nth_no_lt; [repeat constructor | reflexivity]
    | reflexivity ].
Qed.

(** ** Lines *)

Lemma unlines_app (a b : list string) :
  unlines (a ++ b) = unlines a ++ unlines b.
Proof.
  induction a as [|x a IH]; simpl; [reflexivity|].
  rewrite IH, !append_assoc. reflexivity.
Qed.

Lemma join_unlines (ls : list string) (x : string) :
  join nl (ls ++ [x]) = unlines ls ++ x.
Proof.
  induction ls as [|a ls IH]; [reflexivity|].
  cbn [app unlines]. rewrite !append_assoc, <- IH.
  destruct ls; reflexivity.
Qed.

Ltac no_lt_tac :=
  first [ apply escapeXML_no_lt | apply formatDate_no_lt | apply number_no_lt ].

(** Proves [nomatch ci l s] for a text [s] made of written-out
    characters and escaped parts. *)
Ltac nomatch_tac :=
  rewrite ?append_assoc;
  repeat first
    [ exact I
    | split; [ intros ?; reflexivity | ]
    | progress cbn [append]
    | match goal with
      | |- nomatch _ _ ((if ?b then _ else _) ++ _) => destruct b
      end
    | apply nomatch_app; [ apply nomatch_no_lt; no_lt_tac | ] ].

Section ItemSpan.
Variable newDate : string -> JSDate.
Variables (sourceUrl : string) (sourceTitle : option string).

Lemma span_title (t l d tail : string) :
  text_safe t ->
  extractTag (itemHead t l d ++ tail) "title" = Some t.
Proof.
  intros [Ht He]. unfold extractTag.
  replace (search true (tagRegex "title") (itemHead t l d ++ tail))
    with (Some (Some (escapeXML t),
                nl ++ element "link" (escapeXML l) ++ nl
                ++ "<description><![CDATA[" ++ d ++ "]]></description>" ++ tail)).
  - cbn [group1 fst]. rewrite decode_trim_escape by assumption. reflexivity.
  - symmetry. unfold itemHead, tagRegex. rewrite append_assoc.
    rewrite search_skip by nomatch_tac.
    apply search_here.
    unfold element. rewrite !append_assoc.
    apply (exec_tag "title").
    apply nomatch_unmatched, nomatch_no_lt, escapeXML_no_lt.
Qed.

Lemma span_link (t l d tail : string) :
  text_safe l ->
  extractTag (itemHead t l d ++ tail) "link" = Some l.
Proof.
  intros [Ht He]. unfold extractTag.
  replace (search true (tagRegex "link") (itemHead t l d ++ tail))
    with (Some (Some (escapeXML l),
                nl ++ "<description><![CDATA[" ++ d ++ "]]></description>" ++ tail)).
  - cbn [group1 fst]. rewrite decode_trim_escape by assumption. reflexivity.
  - symmetry.
    replace (itemHead t l d ++ tail)
      with ((nl ++ element "title" (escapeXML t) ++ nl)
            ++ (("<" ++ "link") ++ ">" ++ escapeXML l ++ ("</" ++ "link" ++ ">")
                ++ nl ++ "<description><![CDATA[" ++ d
                ++ "]]></description>" ++ tail))
      by (unfold itemHead, element; rewrite !append_assoc; reflexivity).
    unfold tagRegex.
    rewrite search_skip by (unfold element; nomatch_tac).
    apply search_here, (exec_tag "link").
    apply nomatch_unmatched, nomatch_no_lt, escapeXML_no_lt.
Qed.

Lemma span_description (t l d tail : string) :
  occurs true "]]></description>" d = false ->
  extractCDATA (itemHead t l d ++ tail) "description" = Some (trim d).
Proof.
  intros Hd. unfold extractCDATA.
  replace (search true (cdataRegex "description") (itemHead t l d ++ tail))
    with (Some (Some d, tail)); [reflexivity|].
  symmetry.
  replace (itemHead t l d ++ tail)
    with ((nl ++ element "title" (escapeXML t) ++ nl
           ++ element "link" (escapeXML l) ++ nl)
          ++ (("<" ++ "description") ++ "><![CDATA[" ++ d
              ++ ("]]></" ++ "description" ++ ">") ++ tail))
    by (unfold itemHead, element; rewrite !append_assoc; reflexivity).
  unfold cdataRegex.
  rewrite search_skip by (unfold element; nomatch_tac).
  apply search_here, (exec_cdata "description").
  apply occurs_unmatched; [reflexivity | exact Hd].
Qed.

(** The three fields of the item parsed from a built span. *)
Lemma span_fields (t l d tail : string) :
  text_safe t -> t <> "" -> text_safe l -> cdata_safe d ->
  let item := parseRSSItem newDate sourceUrl sourceTitle (itemHead t l d ++ tail) in
  title item = t /\ link item = l /\ description item = d.
Proof.
  intros Ht Hne Hl [Hd [Hdne Hdo]] item. subst item. cbn [parseRSSItem title link description].
  rewrite span_title, span_link, span_description by assumption.
  rewrite Hd. unfold or_else, truthy, or_default.
  apply String.eqb_neq in Hne. apply String.eqb_neq in Hdne.
  rewrite Hne, Hdne. cbn [negb]. rewrite Hdne.
  repeat split. destruct (String.eqb_spec l ""); congruence.
Qed.

End ItemSpan.

(** ** The shape of a built document *)

Lemma nomatch_unlines_cons (ci : bool) (l x : string) (ls : list string) :
  nomatch ci l (x ++ nl) -> nomatch ci l (unlines ls) ->
  nomatch ci l (unlines (x :: ls)).
Proof.
  intros Hx Hls. cbn [unlines]. rewrite <- append_assoc.
  apply nomatch_app; assumption.
Qed.

Lemma nomatch_unlines_concat (ci : bool) (l : string) (lss : list (list string)) :
  Forall (fun ls => nomatch ci l (unlines ls)) lss ->
  nomatch ci l (unlines (List.concat lss)).
Proof.
  induction 1 as [|ls lss H _ IH]; [exact I|].
  cbn [List.concat]. rewrite unlines_app. apply nomatch_app; assumption.
Qed.

Lemma nomatch_push_if (ci : bool) (l : string) (field : option string)
    (line : string -> string) :
  (forall v, nomatch ci l (line v ++ nl)) ->
  nomatch ci l (unlines (push_if field line)).
Proof.
  intros H. unfold push_if. destruct (if_truthy field); [|exact I].
  apply nomatch_unlines_cons; [apply H | exact I].
Qed.

Lemma nomatch_push_if_number (ci : bool) (l : string) (field : option Z)
    (line : Z -> string) :
  (forall v, nomatch ci l (line v ++ nl)) ->
  nomatch ci l (unlines (push_if_number field line)).
Proof.
  intros H. unfold push_if_number. destruct field as [n|]; [|exact I].
  destruct (n =? 0)%Z; [exact I|].
  apply nomatch_unlines_cons; [apply H | exact I].
Qed.

Lemma nomatch_push_if_object {A : Type} (ci : bool) (l : string)
    (field : option A) (lines : A -> list string) :
  (forall v, nomatch ci l (unlines (lines v))) ->
  nomatch ci l (unlines (push_if_object field lines)).
Proof. intros H. destruct field; [apply H | exact I]. Qed.

(** Proves [nomatch ci l (unlines ls)] for the line lists of the
    builder. *)
Ltac lines_tac :=
  repeat first
    [ exact I
    | apply nomatch_unlines_concat; repeat apply Forall_cons; try apply Forall_nil
    | apply nomatch_push_if; intros ?
    | apply nomatch_push_if_number; intros ?
    | apply nomatch_push_if_object; intros ?
    | apply nomatch_unlines_cons
    | progress unfold imageLines
    | progress (unfold element, attribute, guidLine; nomatch_tac) ].

Lemma buildItem_shape (item : FeedItem) :
  buildItem item = "<item>" ++ itemSpan item ++ "</item>".
Proof.
  unfold buildItem.
  replace (buildItemLines item)
    with (List.app
            ("<item>"
             :: element "title" (escapeXML (title item))
             :: element "link" (escapeXML (link item))
             :: ("<description><![CDATA[" ++ description item
                 ++ "]]></description>")
             :: itemRest item)
            ["</item>"]).
  - rewrite join_unlines. unfold itemSpan, itemHead. cbn [unlines].
    rewrite !append_assoc. reflexivity.
  - unfold buildItemLines, itemRest. cbn [List.concat app].
    rewrite ?app_nil_r.
    repeat first [ rewrite <- app_assoc | progress cbn [app] ].
    reflexivity.
Qed.

Lemma itemRest_nomatch (item : FeedItem) :
  nomatch true "</item>" (unlines (itemRest item)).
Proof. unfold itemRest. lines_tac. Qed.

Lemma itemSpan_nomatch (item : FeedItem) :
  occurs true "</item>" (description item) = false ->
  nomatch true "</item>" (itemSpan item).
Proof.
  intros Hd.
  replace (itemSpan item)
    with ((nl ++ element "title" (escapeXML (title item)) ++ nl
           ++ element "link" (escapeXML (link item)) ++ nl
           ++ "<description><![CDATA[")
          ++ description item
          ++ String "]" ("]></description>" ++ nl ++ unlines (itemRest item)))
    by (unfold itemSpan, itemHead, element; rewrite !append_assoc; reflexivity).
  apply nomatch_app; [unfold element; nomatch_tac|].
  apply nomatch_guarded; [exact Hd | reflexivity |].
  change (String "]" ("]></description>" ++ nl ++ unlines (itemRest item)))
    with (("]]></description>" ++ nl) ++ unlines (itemRest item)).
  apply nomatch_app; [nomatch_tac | apply itemRest_nomatch].
Qed.

Lemma exec_item (item : FeedItem) (rest : string) :
  occurs true "</item>" (description item) = false ->
  exec_at true itemRegex (buildItem item ++ rest)
  = Some (Some (itemSpan item), rest).
Proof.
  intros Hd. rewrite buildItem_shape, !append_assoc.
  unfold exec_at, itemRegex. cbn [run]. rewrite lit_self.
  apply (run_lazy_group true "</item>" (itemSpan item) rest None
           (fun s' cap => Some (cap, s'))); [|reflexivity].
  apply nomatch_unmatched, itemSpan_nomatch, Hd.
Qed.

Lemma build_shape (b : RSSFeedBuilder) :
  build b = unlines (channelLines (config b)) ++ itemsText (items b).
Proof.
  unfold build, buildLines, itemsText. cbn [List.concat].
  rewrite app_nil_r.
  change ["</channel>"; "</rss>"] with (List.app ["</channel>"] ["</rss>"]).
  rewrite !app_assoc, join_unlines, !unlines_app. cbn [unlines].
  rewrite !append_assoc. reflexivity.
Qed.

Lemma channel_nomatch (c : FeedConfig) :
  nomatch true "<item>" (unlines (channelLines c)).
Proof. unfold channelLines. lines_tac. Qed.

Lemma matchAll_items (its : list FeedItem) :
  Forall (fun item => occurs true "</item>" (description item) = false) its ->
  matchAll true itemRegex (itemsText its)
  = map (fun item => Some (itemSpan item)) its.
Proof.
  unfold itemsText. induction 1 as [|item its H _ IH]; [reflexivity|].
  cbn [map unlines]. rewrite !append_assoc.
  rewrite buildItem_shape at 1.
  change ("<item>" ++ itemSpan item ++ "</item>")
    with (String "<" ("item>" ++ itemSpan item ++ "</item>")).
  rewrite matchAll_here
    with (cap := Some (itemSpan item)).
  - f_equal. unfold itemRegex. rewrite matchAll_skip by nomatch_tac. exact IH.
  - pose proof (exec_item item (nl ++ unlines (map buildItem its)
                                ++ "</channel>" ++ nl ++ "</rss>") H) as E.
    rewrite buildItem_shape in E. exact E.
Qed.

(** ** Round trip *)

Section RoundTrip.
Variable newDate : string -> JSDate.

Lemma parseRSS_build (b : RSSFeedBuilder) (url : string) (st : option string) :
  Forall round_trips (items b) ->
  parseRSS newDate (build b) url st
  = map (fun item => parseRSSItem newDate url st (itemSpan item)) (items b).
Proof.
  intros H. unfold parseRSS. rewrite build_shape.
  unfold itemRegex at 1. rewrite matchAll_skip by apply channel_nomatch.
  fold itemRegex. rewrite matchAll_items.
  - rewrite map_map. reflexivity.
  - eapply Forall_impl; [|exact H]. intros item Hi. apply Hi.
Qed.

Lemma round_trip_fields (its : list FeedItem) (url : string) (st : option string) :
  Forall round_trips its ->
  let parsed := map (fun item => parseRSSItem newDate url st (itemSpan item)) its in
  map title parsed = map title its /\
  map link parsed = map link its /\
  map description parsed = map description its.
Proof.
  induction 1 as [|item its Hi _ IH]; [repeat split|].
  destruct Hi as [Ht [Hne [Hl [Hd _]]]].
  destruct (span_fields newDate url st (title item) (link item)
              (description item) (nl ++ unlines (itemRest item))
              Ht Hne Hl Hd) as [E1 [E2 E3]].
  fold (itemSpan item) in E1, E2, E3.
  destruct IH as [I1 [I2 I3]]. cbn [map] in *.
  rewrite E1, E2, E3, I1, I2, I3. repeat split.
Qed.

End RoundTrip.

(** C5, counterexample: the document built from [entityItem] is parsed
    back with another title (the entity text of the title is decoded)
    and another description (the white space around it is gone). *)
Lemma C5_counterexample :
  let parsed :=
    parse sampleNewDate
      (build {| config := sampleConfig; items := [entityItem] |})
      "https://rss.example.workers.dev/rss" None in
  map title parsed = ["Using < in HTML"] /\
  title entityItem = "Using &lt; in HTML" /\
  map description parsed = ["<p>Write the entity, not the sign.</p>"] /\
  description entityItem
    = nl ++ "  <p>Write the entity, not the sign.</p>" ++ nl.
Proof. repeat split; vm_compute; reflexivity. Qed.

(** C5, amended: let every item have a non-empty title, a title and a
    link without white space at either end and without the texts of the
    entities lt, gt, quot and apos, and a non-empty description without
    white space at either end in which neither the end of its CDATA
    element nor the closing item tag occurs; let the built document not
    be classified as Atom.  Then parsing the built document gives back,
    item by item, the same titles and links (the characters that are
    escaped included) and the same descriptions. *)
Theorem C5_round_trip (newDate : string -> JSDate) (c : FeedConfig)
    (its : list FeedItem) (url : string) (sourceTitle : option string) :
  Forall round_trips its ->
  isAtom (build {| config := c; items := its |}) = false ->
  let parsed :=
    parse newDate (build {| config := c; items := its |}) url sourceTitle in
  map title parsed = map title its /\
  map link parsed = map link its /\
  map description parsed = map description its.
Proof.
  intros H Ha parsed. subst parsed. unfold parse. rewrite Ha.
  rewrite parseRSS_build by exact H.
  apply round_trip_fields, H.
Qed.

(** Witness of C5: an item whose title and description hold the five
    escaped characters and markup, and a plain item with an empty link. *)
Lemma C5_round_trip_witness :
  let parsed :=
    parse sampleNewDate
      (build {| config := sampleConfig; items := [markupItem; plainItem] |})
      "https://rss.example.workers.dev/rss" (Some "Blog") in
  map title parsed = [title markupItem; "AT&amp;T"] /\
  map link parsed = ["https://blog.example/post?id=7&lang=en"; ""] /\
  map description parsed = [description markupItem; "plain text"].
Proof.
  apply (C5_round_trip sampleNewDate sampleConfig [markupItem; plainItem]).
  - repeat constructor; try reflexivity; discriminate.
  - vm_compute. reflexivity.
Defined.

(** ** The dialect of a built document *)

Lemma lit_false_strip (l s : string) : lit false l s = strip_prefix l s.
Proof.
  revert s. induction l as [|a l IH]; intros s; [reflexivity|].
  destruct s as [|b s]; [reflexivity|]. cbn [lit strip_prefix].
  unfold char_eq. destruct (Ascii.eqb a b); [apply IH | reflexivity].
Qed.

Lemma occurs_includes (l s : string) : occurs false l s = includes l s.
Proof.
  induction s as [|c s IH]; cbn [occurs includes]; unfold starts_with;
    rewrite lit_false_strip.
  - destruct (strip_prefix l ""); reflexivity.
  - rewrite IH. destruct (strip_prefix l (String c s)); reflexivity.
Qed.

Lemma nomatch_includes (a : ascii) (l s : string) :
  nomatch false (String a l) s -> includes (String a l) s = false.
Proof.
  induction s as [|c s IH]; [reflexivity|].
  intros [H1 H2]. cbn [includes]. rewrite (IH H2), orb_false_r.
  unfold starts_with. rewrite <- lit_false_strip.
  specialize (H1 ""). rewrite append_nil_r in H1. rewrite H1. reflexivity.
Qed.

Lemma itemSpan_no_feed (item : FeedItem) :
  includes "<feed" (description item) = false ->
  nomatch false "<feed" (itemSpan item).
Proof.
  intros Hd. rewrite <- occurs_includes in Hd.
  replace (itemSpan item)
    with ((nl ++ element "title" (escapeXML (title item)) ++ nl
           ++ element "link" (escapeXML (link item)) ++ nl
           ++ "<description><![CDATA[")
          ++ description item
          ++ String "]" ("]></description>" ++ nl ++ unlines (itemRest item)))
    by (unfold itemSpan, itemHead, element; rewrite !append_assoc; reflexivity).
  apply nomatch_app; [unfold element; nomatch_tac|].
  apply nomatch_guarded; [exact Hd | reflexivity |].
  change (String "]" ("]></description>" ++ nl ++ unlines (itemRest item)))
    with (("]]></description>" ++ nl) ++ unlines (itemRest item)).
  apply nomatch_app; [nomatch_tac | unfold itemRest; lines_tac].
Qed.

Lemma itemsText_no_feed (its : list FeedItem) :
  Forall (fun item => includes "<feed" (description item) = false) its ->
  nomatch false "<feed" (itemsText its).
Proof.
  unfold itemsText. induction 1 as [|item its H _ IH]; [nomatch_tac|].
  cbn [map unlines]. rewrite buildItem_shape, !append_assoc.
  change ("<item>" ++ itemSpan item ++ "</item>" ++ nl
          ++ unlines (map buildItem its) ++ "</channel>" ++ nl ++ "</rss>")
    with ("<item>" ++ itemSpan item
          ++ ("</item>" ++ nl)
          ++ unlines (map buildItem its) ++ "</channel>" ++ nl ++ "</rss>").
  apply nomatch_app; [nomatch_tac|].
  apply nomatch_app; [apply itemSpan_no_feed, H|].
  apply nomatch_app; [nomatch_tac | exact IH].
Qed.

(** A built document is read as RSS unless a description holds the feed
    marker. *)
Lemma build_not_atom (c : FeedConfig) (its : list FeedItem) :
  Forall (fun item => includes "<feed" (description item) = false) its ->
  isAtom (build {| config := c; items := its |}) = false.
Proof.
  intros H. unfold isAtom. rewrite build_shape. cbn [config items].
  rewrite nomatch_includes; [reflexivity|].
  apply nomatch_app; [unfold channelLines; lines_tac | apply itemsText_no_feed, H].
Qed.

(** * Properties of the escaping *)

Lemma escapeChar_written (c : ascii) : escapeChar c = written 0 5 c.
Proof.
  unfold escapeChar, written, rank.
  destruct (Ascii.eqb c "&"); [reflexivity|].
  destruct (Ascii.eqb c "<"); [reflexivity|].
  destruct (Ascii.eqb c ">"); [reflexivity|].
  destruct (Ascii.eqb c (ascii_of_nat 34)); [reflexivity|].
  destruct (Ascii.eqb c "'"); reflexivity.
Qed.

Lemma spelled_app (lo hi : nat) (a b : string) :
  spelled lo hi (a ++ b) = spelled lo hi a ++ spelled lo hi b.
Proof.
  induction a as [|c a IH]; simpl; [reflexivity|].
  rewrite IH, append_assoc. reflexivity.
Qed.

(** X1: the five passes of [escapeXML] amount to one pass that writes each
    character on its own: the escaped text of a concatenation is the
    concatenation of the escaped texts, and a character is written as
    [escapeChar] gives it. *)
Theorem X1_escapeXML_one_pass (a b : string) (c : ascii) :
  escapeXML "" = "" /\
  escapeXML (String c a) = escapeChar c ++ escapeXML a /\
  escapeXML (a ++ b) = escapeXML a ++ escapeXML b.
Proof.
  rewrite !escapeXML_spelled, escapeChar_written.
  split; [reflexivity|]. split; [reflexivity | apply spelled_app].
Qed.

Lemma written_delimiter (c : ascii) :
  all_chars (fun x => negb (delimiter x)) (written 0 5 c) = true.
Proof.
  destruct (rank_cases c) as [[H0 [N1 [N2 [N3 [N4 N5]]]]] | Hc].
  - unfold written. rewrite H0. cbn [Nat.ltb Nat.leb andb all_chars].
    unfold delimiter.
    destruct (Ascii.eqb_spec c "<"); [contradiction|].
    destruct (Ascii.eqb_spec c ">"); [contradiction|].
    destruct (Ascii.eqb_spec c (ascii_of_nat 34)); [contradiction|].
    destruct (Ascii.eqb_spec c "'"); [contradiction|]. reflexivity.
  - inversion Hc as [E1 E2|E1 E2|E1 E2|E1 E2|E1 E2];
      unfold written; rewrite <- E2; reflexivity.
Qed.

Lemma spelled_delimiter (s : string) :
  all_chars (fun x => negb (delimiter x)) (spelled 0 5 s) = true.
Proof.
  induction s as [|c s IH]; [reflexivity|].
  cbn [spelled]. rewrite all_chars_app, written_delimiter, IH. reflexivity.
Qed.

Lemma spelled_ordinary (lo hi : nat) (s : string) :
  all_chars ordinary s = true -> spelled lo hi s = s.
Proof.
  induction s as [|c s IH]; [reflexivity|].
  cbn [all_chars spelled]. intros H. apply andb_true_iff in H.
  destruct H as [Hc Hs]. unfold ordinary in Hc. apply Nat.eqb_eq in Hc.
  unfold written. rewrite Hc.
  replace ((lo <? 0) && (0 <=? hi))%nat with false by (destruct lo; reflexivity).
  cbn [append]. rewrite IH by assumption. reflexivity.
Qed.

Lemma written_length (lo hi : nat) (c : ascii) :
  1 <= String.length (written lo hi c) <= 6.
Proof.
  destruct (written_cases lo hi c) as [-> | [Hc ->]]; [simpl; lia|].
  inversion Hc as [E1 E2|E1 E2|E1 E2|E1 E2|E1 E2]; rewrite <- E2; simpl; lia.
Qed.

Lemma spelled_length (lo hi : nat) (s : string) :
  String.length s <= String.length (spelled lo hi s) <= 6 * String.length s.
Proof.
  induction s as [|c s IH]; [simpl; lia|].
  cbn [spelled String.length]. rewrite length_append.
  pose proof (written_length lo hi c). lia.
Qed.

(** What is written for a character, case by case. *)
Lemma written_all (c : ascii) :
  (written 0 5 c = String c "" /\ c <> "&"%char) \/
  (c = "&"%char /\ written 0 5 c = "&amp;") \/
  (c = "<"%char /\ written 0 5 c = "&lt;") \/
  (c = ">"%char /\ written 0 5 c = "&gt;") \/
  (c = ascii_of_nat 34 /\ written 0 5 c = "&quot;") \/
  (c = "'"%char /\ written 0 5 c = "&apos;").
Proof.
  unfold written, rank.
  destruct (Ascii.eqb_spec c "&") as [->|H1]; [right; left; split; reflexivity|].
  destruct (Ascii.eqb_spec c "<") as [->|H2];
    [right; right; left; split; reflexivity|].
  destruct (Ascii.eqb_spec c ">") as [->|H3];
    [right; right; right; left; split; reflexivity|].
  destruct (Ascii.eqb_spec c (ascii_of_nat 34)) as [->|H4];
    [right; right; right; right; left; split; reflexivity|].
  destruct (Ascii.eqb_spec c "'") as [->|H5];
    [right; right; right; right; right; split; reflexivity|].
  left. split; [reflexivity | assumption].
Qed.

Lemma string_cons_inj (a b : ascii) (x y : string) :
  String a x = String b y -> a = b /\ x = y.
Proof. intros H. injection H as -> ->. split; reflexivity. Qed.

(** An ampersand of an escaped text is followed by the name of an
    entity. *)
Lemma spelled_ampersand (s u v : string) :
  spelled 0 5 s = u ++ String "&" v ->
  Exists (fun name => starts_with name v = true) entityNames.
Proof.
  revert u. induction s as [|c s IH]; intros u H.
  - destruct u; discriminate.
  - cbn [spelled] in H.
    assert (Hnames : forall name rest, In name entityNames ->
              name ++ rest = v ->
              Exists (fun name => starts_with name v = true) entityNames).
    { intros name rest Hin <-. apply Exists_exists. exists name.
      split; [assumption|]. apply starts_with_spec. exists rest. reflexivity. }
    destruct (written_all c) as [[E N] | [[_ E] | [[_ E] | [[_ E] | [[_ E] | [_ E]]]]]];
      rewrite E in H; cbn [append] in H;
      (destruct u as [|x0 u]; cbn [append] in H;
       apply string_cons_inj in H; destruct H as [H0 H];
       [ first [ contradiction
               | apply (Hnames "amp;" (spelled 0 5 s)); [simpl; tauto | exact H]
               | apply (Hnames "lt;" (spelled 0 5 s)); [simpl; tauto | exact H]
               | apply (Hnames "gt;" (spelled 0 5 s)); [simpl; tauto | exact H]
               | apply (Hnames "quot;" (spelled 0 5 s)); [simpl; tauto | exact H]
               | apply (Hnames "apos;" (spelled 0 5 s)); [simpl; tauto | exact H] ]
       | ]);
      repeat (destruct u as [|? u]; cbn [append] in H;
              [ discriminate H
              | apply string_cons_inj in H; destruct H as [_ H] ]);
      apply (IH u H).
Qed.

(** X2: the text [escapeXML] returns holds none of the characters that
    end a text node or an attribute value, each of its ampersands starts
    an entity, and text without any of the five characters is returned as
    it is. *)
Theorem X2_escapeXML_safe (s : string) :
  all_chars (fun c => negb (delimiter c)) (escapeXML s) = true /\
  (forall u v, escapeXML s = u ++ String "&" v ->
     Exists (fun name => starts_with name v = true) entityNames) /\
  (all_chars ordinary s = true -> escapeXML s = s) /\
  String.length s <= String.length (escapeXML s) <= 6 * String.length s.
Proof.
  rewrite escapeXML_spelled.
  split; [apply spelled_delimiter|].
  split; [intros u v; apply spelled_ampersand|].
  split; [apply spelled_ordinary | apply spelled_length].
Qed.

Lemma written_prefix_free (c d : ascii) (x y : string) :
  written 0 5 c ++ x = written 0 5 d ++ y -> c = d /\ x = y.
Proof.
  destruct (written_all c) as [[E N] | [[C E] | [[C E] | [[C E] | [[C E] | [C E]]]]]];
    destruct (written_all d)
      as [[F M] | [[D F] | [[D F] | [[D F] | [[D F] | [D F]]]]]];
    rewrite E, F; cbn [append]; intros H; subst;
    try discriminate H;
    repeat (apply string_cons_inj in H; destruct H as [? H]);
    subst; try contradiction; split; reflexivity.
Qed.

Lemma spelled_injective (a b : string) :
  spelled 0 5 a = spelled 0 5 b -> a = b.
Proof.
  revert b. induction a as [|c a IH]; intros [|d b] H.
  - reflexivity.
  - exfalso. apply (spelled_nonempty 0 5 (String d b)); [discriminate|].
    symmetry. exact H.
  - exfalso. apply (spelled_nonempty 0 5 (String c a)); [discriminate|].
    exact H.
  - cbn [spelled] in H. apply written_prefix_free in H.
    destruct H as [-> H]. f_equal. apply IH, H.
Qed.

(** X3: [escapeXML] loses nothing: two different texts are never escaped to
    the same text. *)
Theorem X3_escapeXML_injective (a b : string) :
  a <> b -> escapeXML a <> escapeXML b.
Proof.
  intros Hab H. apply Hab. rewrite !escapeXML_spelled in H.
  apply spelled_injective, H.
Qed.

Lemma X3_escapeXML_injective_witness :
  "a<b" <> "a&lt;b" /\ escapeXML "a<b" <> escapeXML "a&lt;b".
Proof.
  split; [discriminate|]. apply X3_escapeXML_injective. discriminate.
Defined.

Lemma replace_all_lacking (a : ascii) (l rep s : string) :
  all_chars (fun c => negb (Ascii.eqb a c)) s = true ->
  replace_all (String a l) rep s = s.
Proof.
  induction s as [|c s IH]; intros H.
  - reflexivity.
  - cbn [all_chars] in H. apply andb_true_iff in H. destruct H as [Hc Hs].
    rewrite replace_lit_nomatch.
    + rewrite IH by assumption. reflexivity.
    + apply lit_first. intros ->. rewrite Ascii.eqb_refl in Hc. discriminate.
Qed.

(** X4: decoding what was escaped gives the text back when the text holds
    none of the four entities [&lt;], [&gt;], [&quot;] and [&apos;]
    ([&amp;] itself is allowed), and text without an ampersand is decoded
    to itself. *)
Theorem X4_decodeHTML_escapeXML (s : string) :
  entity_free s ->
  decodeHTML (escapeXML s) = s /\
  (all_chars (fun c => negb (Ascii.eqb "&" c)) s = true -> decodeHTML s = s).
Proof.
  intros H. split; [apply decode_escape, H|].
  intros Hs. unfold decodeHTML.
  do 5 (rewrite (fun l rep => replace_all_lacking "&" l rep s) by assumption).
  reflexivity.
Qed.

Lemma X4_decodeHTML_escapeXML_witness :
  entity_free (title markupItem) /\
  decodeHTML (escapeXML (title markupItem)) = title markupItem.
Proof.
  assert (H : entity_free (title markupItem)) by (repeat split; reflexivity).
  split; [exact H|].
  exact (proj1 (X4_decodeHTML_escapeXML (title markupItem) H)).
Defined.

(** * The form of parsed items *)

(** ** White space *)

Lemma trimStart_idem (s : string) : trimStart (trimStart s) = trimStart s.
Proof.
  induction s as [|c s IH]; [reflexivity|]. simpl.
  destruct (is_space c) eqn:E; [exact IH|]. simpl. rewrite E. reflexivity.
Qed.

Lemma trimEnd_idem (s : string) : trimEnd (trimEnd s) = trimEnd s.
Proof.
  induction s as [|c s IH]; [reflexivity|]. simpl.
  destruct (trimEnd s) as [|x t] eqn:E.
  - destruct (is_space c) eqn:Ec; [reflexivity|]. simpl. rewrite Ec. reflexivity.
  - cbn [trimEnd]. cbn [trimEnd] in IH. rewrite IH. reflexivity.
Qed.

Lemma trimStart_trimEnd (s : string) :
  trimStart s = s -> trimStart (trimEnd s) = trimEnd s.
Proof.
  destruct s as [|c s]; [reflexivity|]. intros H.
  apply trimStart_fixed in H. simpl.
  destruct (trimEnd s); [rewrite H|]; simpl; rewrite H; reflexivity.
Qed.

Lemma trim_trimmed (s : string) : trimmed (trim s).
Proof.
  unfold trimmed, trim.
  rewrite (trimStart_trimEnd (trimStart s)) by apply trimStart_idem.
  apply trimEnd_idem.
Qed.

Lemma trimmed_of_parts (s : string) :
  trimStart s = s -> trimEnd s = s -> trimmed s.
Proof. intros H1 H2. unfold trimmed, trim. rewrite H1. exact H2. Qed.

Lemma trimEnd_suffix (a b : string) :
  trimEnd (a ++ b) = a ++ b -> trimEnd b = b.
Proof.
  induction a as [|c a IH]; [trivial|]. cbn [append]. intros H.
  apply trimEnd_fixed in H. destruct H as [[E _] | [_ H]]; [|apply IH, H].
  destruct a; [simpl in E; subst b; reflexivity | discriminate].
Qed.

Lemma trimEnd_cons (c : ascii) (s : string) :
  is_space c = false -> trimEnd s = s -> trimEnd (String c s) = String c s.
Proof.
  intros Hc Hs. simpl. rewrite Hs. destruct s; [rewrite Hc|]; reflexivity.
Qed.

Lemma trimStart_all (p : ascii -> bool) (s : string) :
  all_chars p s = true -> all_chars p (trimStart s) = true.
Proof.
  induction s as [|c s IH]; [trivial|]. cbn [all_chars trimStart]. intros H.
  apply andb_true_iff in H. destruct H as [Hc Hs].
  destruct (is_space c); [apply IH, Hs|].
  cbn [all_chars]. rewrite Hc, Hs. reflexivity.
Qed.

Lemma trimEnd_all (p : ascii -> bool) (s : string) :
  all_chars p s = true -> all_chars p (trimEnd s) = true.
Proof.
  induction s as [|c s IH]; [trivial|]. cbn [all_chars trimEnd]. intros H.
  apply andb_true_iff in H. destruct H as [Hc Hs]. specialize (IH Hs).
  destruct (trimEnd s).
  - destruct (is_space c); [reflexivity|]. cbn [all_chars]. rewrite Hc. reflexivity.
  - cbn [all_chars] in *. rewrite Hc, IH. reflexivity.
Qed.

Lemma trim_all (p : ascii -> bool) (s : string) :
  all_chars p s = true -> all_chars p (trim s) = true.
Proof. intros H. apply trimEnd_all, trimStart_all, H. Qed.

(** ** A replacement by one character keeps a text trimmed *)

Lemma replace_all_nonempty (l : string) (x : ascii) (s : string) :
  l <> "" -> s <> "" -> replace_all l (String x "") s <> "".
Proof.
  intros Hl Hs. destruct s as [|c s]; [contradiction|].
  destruct (lit false l (String c s)) as [rest|] eqn:E.
  - rewrite (replace_lit_found _ _ _ _ E Hl). discriminate.
  - rewrite (replace_lit_nomatch _ _ _ _ E). discriminate.
Qed.

Lemma replace_all_trimStart (l : string) (x : ascii) (s : string) :
  l <> "" -> is_space x = false ->
  trimStart s = s ->
  trimStart (replace_all l (String x "") s) = replace_all l (String x "") s.
Proof.
  intros Hl Hx H. destruct s as [|c s].
  - rewrite replace_all_nil by exact Hl. reflexivity.
  - apply trimStart_fixed in H.
    destruct (lit false l (String c s)) as [rest|] eqn:E.
    + rewrite (replace_lit_found _ _ _ _ E Hl). simpl. rewrite Hx. reflexivity.
    + rewrite (replace_lit_nomatch _ _ _ _ E). simpl. rewrite H. reflexivity.
Qed.

Lemma replace_all_trimEnd (l : string) (x : ascii) (s : string) :
  l <> "" -> is_space x = false ->
  trimEnd s = s ->
  trimEnd (replace_all l (String x "") s) = replace_all l (String x "") s.
Proof.
  intros Hl Hx.
  remember (String.length s) as n eqn:Hn. revert s Hn.
  induction n as [n IH] using lt_wf_ind. intros s Hn H.
  destruct s as [|c s].
  - rewrite replace_all_nil by exact Hl. reflexivity.
  - destruct (lit false l (String c s)) as [rest|] eqn:E.
    + rewrite (replace_lit_found _ _ _ _ E Hl). cbn [append].
      apply lit_false_spec in E.
      apply trimEnd_cons; [exact Hx|].
      apply (IH (String.length rest)); [|reflexivity|].
      * rewrite Hn, E, length_append.
        destruct l; [contradiction | simpl; lia].
      * rewrite E in H. apply trimEnd_suffix in H. exact H.
    + rewrite (replace_lit_nomatch _ _ _ _ E).
      apply trimEnd_fixed in H. destruct H as [[-> Hc] | [Hs H]].
      * rewrite replace_all_nil by exact Hl. simpl. rewrite Hc. reflexivity.
      * assert (IHs : trimEnd (replace_all l (String x "") s)
                      = replace_all l (String x "") s).
        { apply (IH (String.length s)); [subst n; simpl; lia | reflexivity | exact H]. }
        simpl. rewrite IHs.
        destruct (replace_all l (String x "") s) eqn:R; [|reflexivity].
        exfalso. apply (replace_all_nonempty l x s Hl Hs). exact R.
Qed.

Lemma replace_all_trimmed (l : string) (x : ascii) (s : string) :
  l <> "" -> is_space x = false ->
  trimmed s -> trimmed (replace_all l (String x "") s).
Proof.
  intros Hl Hx H. apply trimmed_parts in H. destruct H as [H1 H2].
  apply trimmed_of_parts.
  - apply replace_all_trimStart; assumption.
  - apply replace_all_trimEnd; assumption.
Qed.

Lemma decodeHTML_trimmed (s : string) : trimmed s -> trimmed (decodeHTML s).
Proof.
  intros H. unfold decodeHTML. change dq with (String (ascii_of_nat 34) "").
  repeat (apply replace_all_trimmed; [discriminate | reflexivity | ]).
  exact H.
Qed.

Lemma extractTag_trimmed (xml tagName v : string) :
  extractTag xml tagName = Some v -> trimmed v.
Proof.
  unfold extractTag.
  destruct (search true (tagRegex tagName) xml) as [m|].
  - intros [= <-]. apply decodeHTML_trimmed, trim_trimmed.
  - destruct (negb (includes ":" tagName)); [|discriminate].
    destruct (search true (nsTagRegex tagName) xml) as [m|]; [|discriminate].
    intros [= <-]. apply decodeHTML_trimmed, trim_trimmed.
Qed.

Lemma extractCDATA_trimmed (xml tagName v : string) :
  extractCDATA xml tagName = Some v -> trimmed v.
Proof.
  unfold extractCDATA.
  destruct (search true (cdataRegex tagName) xml) as [m|]; [|discriminate].
  intros [= <-]. apply trim_trimmed.
Qed.

(** ** The forms of [a || b] *)

Lemma or_else_cases (a b : option string) :
  or_else a b = a \/ or_else a b = b.
Proof. unfold or_else. destruct (truthy a); [left | right]; reflexivity. Qed.

Lemma or_default_cases (a : option string) (d : string) :
  (a = Some (or_default a d) /\ or_default a d <> "") \/ or_default a d = d.
Proof.
  destruct a as [s|]; [|right; reflexivity]. simpl.
  destruct (String.eqb_spec s ""); [right; reflexivity|].
  left. split; [reflexivity | assumption].
Qed.

Lemma if_truthy_some (a : option string) (v : string) :
  if_truthy a = Some v -> a = Some v /\ v <> "".
Proof.
  unfold if_truthy, truthy. destruct a as [s|]; [|discriminate].
  destruct (String.eqb_spec s ""); simpl; [discriminate|].
  intros [= <-]. split; [reflexivity | assumption].
Qed.

Lemma set_clean_if_truthy (a : option string) :
  (forall v, a = Some v -> trimmed v) -> set_clean (if_truthy a).
Proof.
  intros H v Hv. apply if_truthy_some in Hv. destruct Hv as [Ha Hne].
  split; [exact Hne | apply H, Ha].
Qed.

Lemma or_else_trimmed (a b : option string) :
  (forall v, a = Some v -> trimmed v) -> (forall v, b = Some v -> trimmed v) ->
  forall v, or_else a b = Some v -> trimmed v.
Proof.
  intros Ha Hb v. destruct (or_else_cases a b) as [-> | ->]; auto.
Qed.

Lemma or_default_trimmed (a : option string) (d : string) :
  (forall v, a = Some v -> trimmed v) -> trimmed d -> trimmed (or_default a d).
Proof.
  intros Ha Hd. destruct (or_default_cases a d) as [[E _] | ->]; [|exact Hd].
  apply Ha, E.
Qed.

(** ** What a capture group under [+] holds *)

Lemma star_split (p : ascii -> bool) (s : string)
    (k : string -> option match_state) (m : match_state) :
  star p s k = Some m ->
  exists u s', s = u ++ s' /\ all_chars p u = true /\ k s' = Some m.
Proof.
  induction s as [|c s IH]; simpl; intros H.
  - exists "", "". auto.
  - destruct (p c) eqn:Hc.
    + destruct (star p s k) as [m'|] eqn:E.
      * destruct (IH H) as [u [s' [-> [Hu Hk]]]].
        exists (String c u), s'. cbn [all_chars]. rewrite Hc, Hu. auto.
      * exists "", (String c s). auto.
    + exists "", (String c s). auto.
Qed.

Lemma run_group_plus (ci : bool) (p : ascii -> bool) (s : string)
    (cap : option string)
    (k : string -> option string -> option match_state) (m : match_state) :
  run ci (Group (Plus p)) s cap k = Some m ->
  exists s' cap', k s' cap' = Some m /\ captured p cap'.
Proof.
  cbn [run]. destruct s as [|c s]; [discriminate|].
  destruct (p c) eqn:Hc; [|discriminate]. intros H.
  apply star_split in H. destruct H as [u [s' [-> [Hu Hk]]]].
  exists s', (Some (consumed (String c (u ++ s')) s')).
  split; [exact Hk|].
  exists (String c u). split; [|split].
  - f_equal. apply (consumed_app (String c u) s').
  - discriminate.
  - cbn [all_chars]. rewrite Hc, Hu. reflexivity.
Qed.

Lemma run_groups (ci : bool) (p : ascii -> bool) (r : regex) :
  groups_plus p r ->
  forall s cap k m,
    run ci r s cap k = Some m ->
    exists s' cap', k s' cap' = Some m /\ (cap' = cap \/ captured p cap').
Proof.
  induction r as [l|q|q|q|q|r1 IH1 r2 IH2|g IH]; intros Hg s cap k m H.
  - cbn [run] in H. destruct (lit ci l s) as [s'|]; [|discriminate].
    exists s', cap. auto.
  - cbn [run] in H. destruct s as [|c s]; [discriminate|].
    destruct (q c); [|discriminate]. exists s, cap. auto.
  - cbn [run] in H. apply star_some in H. destruct H as [s' H].
    exists s', cap. auto.
  - cbn [run] in H. apply star_lazy_some in H. destruct H as [s' H].
    exists s', cap. auto.
  - cbn [run] in H. destruct s as [|c s]; [discriminate|].
    destruct (q c); [|discriminate].
    apply star_some in H. destruct H as [s' H]. exists s', cap. auto.
  - destruct Hg as [Hg1 Hg2]. cbn [run] in H.
    apply (IH1 Hg1) in H. destruct H as [s1 [cap1 [H C1]]].
    apply (IH2 Hg2) in H. destruct H as [s2 [cap2 [H C2]]].
    exists s2, cap2. split; [exact H|].
    destruct C2 as [-> | C2]; [exact C1 | right; exact C2].
  - cbn [groups_plus] in Hg. subst g.
    apply run_group_plus in H. destruct H as [s' [cap' [H C]]].
    exists s', cap'. auto.
Qed.

Lemma search_groups (ci : bool) (p : ascii -> bool) (r : regex) (s : string)
    (m : match_state) :
  groups_plus p r -> search ci r s = Some m ->
  fst m = None \/ captured p (fst m).
Proof.
  intros Hg. induction s as [|c s IH]; cbn [search]; intros H.
  - destruct (exec_at ci r "") as [m'|] eqn:E; [|discriminate].
    injection H as ->. unfold exec_at in E.
    apply (run_groups ci p r Hg) in E. destruct E as [s' [cap' [[= <-] C]]]. exact C.
  - destruct (exec_at ci r (String c s)) as [m'|] eqn:E; [|apply IH, H].
    injection H as ->. unfold exec_at in E.
    apply (run_groups ci p r Hg) in E. destruct E as [s' [cap' [[= <-] C]]]. exact C.
Qed.

Lemma group1_all (ci : bool) (p : ascii -> bool) (r : regex) (s : string)
    (m : match_state) :
  groups_plus p r -> search ci r s = Some m ->
  all_chars p (group1 m) = true.
Proof.
  intros Hg H. unfold group1.
  destruct (search_groups ci p r s m Hg H) as [-> | [u [-> [_ Hu]]]];
    [reflexivity | exact Hu].
Qed.

Lemma group1_nonempty (ci : bool) (p : ascii -> bool) (r : regex) (s : string)
    (m : match_state) :
  groups_plus p r -> captures r = true -> search ci r s = Some m ->
  group1 m <> "".
Proof.
  intros Hg Hc H. unfold group1.
  destruct (search_groups ci p r s m Hg H) as [E | [u [-> [Hu _]]]];
    [|exact Hu].
  exfalso. apply (search_captures ci r s m Hc H). exact E.
Qed.

(** ** The items of the parser *)

Section Normalised.
Variable newDate : string -> JSDate.
Variables (url : string) (st : option string).

Lemma parseRSSItem_normalised (span : string) :
  normalised (parseRSSItem newDate url st span) /\
  trimmed (link (parseRSSItem newDate url st span)).
Proof.
  unfold normalised, parseRSSItem. cbn [title link description author category
    comments enclosure guid].
  repeat match goal with |- _ /\ _ => split end; try reflexivity.
  - apply or_default_nonempty. discriminate.
  - apply or_default_trimmed; [apply extractTag_trimmed | reflexivity].
  - apply or_default_trimmed; [|reflexivity].
    apply or_else_trimmed; [apply extractCDATA_trimmed | apply extractTag_trimmed].
  - apply set_clean_if_truthy, or_else_trimmed; apply extractTag_trimmed.
  - apply set_clean_if_truthy, extractTag_trimmed.
  - apply set_clean_if_truthy, extractTag_trimmed.
  - apply or_default_trimmed; [apply extractTag_trimmed | reflexivity].
Qed.

Lemma parseAtomEntry_normalised (span : string) :
  normalised (parseAtomEntry newDate url st span) /\
  all_chars (none_of quotes) (link (parseAtomEntry newDate url st span)) = true.
Proof.
  unfold normalised, parseAtomEntry. cbn [title link description author category
    comments enclosure guid].
  repeat match goal with |- _ /\ _ => split end; try reflexivity.
  - apply or_default_nonempty. discriminate.
  - apply or_default_trimmed; [apply extractTag_trimmed | reflexivity].
  - apply or_default_trimmed; [|reflexivity].
    repeat apply or_else_trimmed;
      first [apply extractCDATA_trimmed | apply extractTag_trimmed].
  - destruct (if_truthy (extractTag span "author")) as [a|];
      [|intros v; discriminate].
    apply set_clean_if_truthy, extractTag_trimmed.
  - apply set_clean_if_truthy, extractTag_trimmed.
  - apply set_clean_if_truthy, extractTag_trimmed.
  - destruct (search true linkHrefRegex span) as [m|] eqn:E; [|reflexivity].
    apply (group1_all true (none_of quotes) linkHrefRegex span m); [|exact E].
    cbn. tauto.
Qed.

Lemma parse_source (xml : string) :
  Forall (fun item => source item = sourceOf url st) (parse newDate xml url st).
Proof.
  unfold parse, parseAtom, parseRSS.
  destruct (isAtom xml); apply Forall_map, Forall_forall; intros; reflexivity.
Qed.

End Normalised.

(** X5: every item the parser returns is in one form, whatever the
    feed text: the title is not empty; title and description have no white
    space around them; author, category and guid, when set, are not empty
    and have no white space around them; comments and enclosure are never
    set; the source is the one the call names.  The link of an item of an
    RSS feed has no white space around it; the link of an entry of an Atom
    feed, which is read from an attribute and neither trimmed nor decoded,
    holds no quote. *)
Theorem X5_parse_normalised (newDate : string -> JSDate) (xml url : string)
    (sourceTitle : option string) :
  Forall (fun item => normalised item /\ source item = sourceOf url sourceTitle)
         (parse newDate xml url sourceTitle) /\
  Forall (fun item => trimmed (link item))
         (parseRSS newDate xml url sourceTitle) /\
  Forall (fun item => all_chars (none_of quotes) (link item) = true)
         (parseAtom newDate xml url sourceTitle).
Proof.
  split; [|split].
  - unfold parse, parseAtom, parseRSS.
    destruct (isAtom xml); apply Forall_map, Forall_forall; intros m _;
      (split; [|reflexivity]).
    + apply parseAtomEntry_normalised.
    + apply parseRSSItem_normalised.
  - apply Forall_map, Forall_forall. intros m _. apply parseRSSItem_normalised.
  - apply Forall_map, Forall_forall. intros m _. apply parseAtomEntry_normalised.
Qed.

(** ** What the parser leaves out *)



(** ** A title in a CDATA section *)

Lemma cdataSection_nomatch (l t : string) :
  l = "</title>" ->
  occurs true l t = false -> nomatch true l (cdataSection t).
Proof.
  intros -> H. unfold cdataSection.
  apply nomatch_app; [nomatch_tac|].
  change (t ++ "]]>") with (t ++ String "]" "]>").
  apply nomatch_guarded; [exact H | reflexivity | nomatch_tac].
Qed.

Lemma cdataSection_trimmed (t : string) : trim (cdataSection t) = cdataSection t.
Proof.
  unfold trim, cdataSection.
  change (trimStart ("<![CDATA[" ++ t ++ "]]>")) with ("<![CDATA[" ++ t ++ "]]>").
  rewrite <- append_assoc. rewrite trimEnd_app; [reflexivity | discriminate].
Qed.

Lemma decodeHTML_nonempty (s : string) : s <> "" -> decodeHTML s <> "".
Proof.
  intros H. unfold decodeHTML. change dq with (String (ascii_of_nat 34) "").
  repeat (apply replace_all_nonempty; [discriminate|]). exact H.
Qed.

Lemma extractTag_cdata_title (t rest : string) :
  occurs true "</title>" t = false ->
  extractTag ("<title>" ++ cdataSection t ++ "</title>" ++ rest) "title"
  = Some (decodeHTML (cdataSection t)).
Proof.
  intros H. unfold extractTag.
  rewrite (search_here true (tagRegex "title") _ (Some (cdataSection t), rest)).
  - cbn [group1 fst]. rewrite cdataSection_trimmed. reflexivity.
  - apply (exec_tag "title" (cdataSection t) rest).
    apply nomatch_unmatched, cdataSection_nomatch; [reflexivity | exact H].
Qed.

(** X7: a CDATA section is unwrapped in a description only.  The title of
    an item or of an entry that a feed writes in a CDATA section is
    returned with the markers of the section around it (and decoded like
    any other text); when the title holds no ampersand, it is the
    section as the feed wrote it. *)
Theorem X7_cdata_title_kept (newDate : string -> JSDate) (url : string)
    (sourceTitle : option string) (t rest : string) :
  occurs true "</title>" t = false ->
  let span := "<title>" ++ cdataSection t ++ "</title>" ++ rest in
  title (parseRSSItem newDate url sourceTitle span)
    = decodeHTML (cdataSection t) /\
  title (parseAtomEntry newDate url sourceTitle span)
    = decodeHTML (cdataSection t) /\
  (all_chars (fun c => negb (Ascii.eqb "&" c)) t = true ->
   decodeHTML (cdataSection t) = cdataSection t).
Proof.
  intros H span. subst span.
  assert (E : or_default (Some (decodeHTML (cdataSection t))) "Untitled"
              = decodeHTML (cdataSection t)).
  { cbn [or_default].
    destruct (String.eqb_spec (decodeHTML (cdataSection t)) "") as [F|]; [|reflexivity].
    exfalso. apply (decodeHTML_nonempty (cdataSection t)); [discriminate | exact F]. }
  cbn [parseRSSItem parseAtomEntry title].
  rewrite (extractTag_cdata_title t rest H).
  split; [exact E|]. split; [exact E|].
  intros Ht. unfold decodeHTML.
  assert (Hall : all_chars (fun c => negb (Ascii.eqb "&" c)) (cdataSection t) = true).
  { unfold cdataSection. rewrite !all_chars_app, Ht. reflexivity. }
  do 5 (rewrite (fun l rep => replace_all_lacking "&" l rep (cdataSection t))
          by exact Hall).
  reflexivity.
Qed.

Lemma X7_cdata_title_kept_witness :
  title (parseRSSItem sampleNewDate "https://news.example/feed" None
           ("<title>" ++ cdataSection "Tom & Jerry" ++ "</title>"
            ++ "<link>https://news.example/1</link>"))
  = "<![CDATA[Tom & Jerry]]>".
Proof.
  exact (proj1 (X7_cdata_title_kept sampleNewDate "https://news.example/feed" None
                  "Tom & Jerry" "<link>https://news.example/1</link>"
                  eq_refl)).
Defined.

(** * Dates in the output *)

(** ** The fields of a date *)

Section CalendarFacts.
Local Open Scope Z_scope.

Lemma civil_bounds (day : Z) :
  1 <= snd (fst (UTC.civil day)) <= 12 /\ 1 <= snd (UTC.civil day) <= 31.
Proof.
  unfold UTC.civil. cbv zeta. cbn [fst snd].
  set (z := day + 719468).
  set (doe := z - z / 146097 * 146097).
  assert (Hdoe : 0 <= doe < 146097) by (unfold doe; Z.div_mod_to_equations; lia).
  clearbody doe. clear z.
  set (yoe := (doe - doe / 1460 + doe / 36524 - doe / 146096) / 365).
  set (doy := doe - (365 * yoe + yoe / 4 - yoe / 100)).
  assert (Hdoy : 0 <= doy <= 365)
    by (unfold doy, yoe; Z.div_mod_to_equations; lia).
  clearbody doy. clear Hdoe.
  set (mp := (5 * doy + 2) / 153).
  assert (Hmp : 0 <= mp <= 11) by (unfold mp; Z.div_mod_to_equations; lia).
  split.
  - destruct (Z.ltb_spec mp 10); lia.
  - unfold mp. Z.div_mod_to_equations. lia.
Qed.

Lemma time_bounds (t : Z) :
  0 <= UTC.WeekDay t <= 6 /\ 0 <= UTC.MonthFromTime t <= 11 /\
  1 <= UTC.DateFromTime t <= 31 /\ 0 <= UTC.HourFromTime t <= 23 /\
  0 <= UTC.MinFromTime t <= 59 /\ 0 <= UTC.SecFromTime t <= 59.
Proof.
  pose proof (civil_bounds (UTC.Day t)) as [Hm Hd].
  unfold UTC.WeekDay, UTC.MonthFromTime, UTC.DateFromTime, UTC.HourFromTime,
    UTC.MinFromTime, UTC.SecFromTime.
  repeat split; try lia; Z.div_mod_to_equations; lia.
Qed.

End CalendarFacts.

Lemma nth_table (n : Z) (table : list string) (d : string) :
  (0 <= n < Z.of_nat (length table))%Z -> In (nth (Z.to_nat n) table d) table.
Proof. intros H. apply nth_In. lia. Qed.

Lemma below_100 (n : Z) (P : Z -> bool) :
  forallb (fun k => P (Z.of_nat k)) (seq 0 100) = true ->
  (0 <= n <= 99)%Z -> P n = true.
Proof.
  intros H Hn. rewrite forallb_forall in H.
  rewrite <- (Z2Nat.id n) by lia. apply H, in_seq. lia.
Qed.

Lemma padStart2_two_digits (n : Z) :
  (0 <= n <= 99)%Z -> two_digits (padStart2 (number_to_string n)).
Proof.
  intros H.
  pose proof (below_100 n
    (fun k => (String.length (padStart2 (number_to_string k)) =? 2)%nat
              && all_chars is_digit (padStart2 (number_to_string k)))
    ltac:(vm_compute; reflexivity) H) as E.
  cbv beta in E. apply andb_true_iff in E. destruct E as [E1 E2].
  split; [apply Nat.eqb_eq, E1 | exact E2].
Qed.

(** X8: for a valid date [formatDate] prints the RFC 822 form: a day name
    and a month name of its two tables (the lookups are always in range,
    so never the text [undefined]), the year, and the day of the month,
    the hours, the minutes and the seconds on two digits each. *)
Theorem X8_formatDate_shape (t : Z) :
  exists day dayNum month hours minutes seconds,
    formatDate (ValidDate t)
    = day ++ ", " ++ dayNum ++ " " ++ month ++ " "
      ++ number_to_string (UTC.YearFromTime t) ++ " "
      ++ hours ++ ":" ++ minutes ++ ":" ++ seconds ++ " GMT" /\
    In day days /\ In month months /\
    two_digits dayNum /\ two_digits hours /\
    two_digits minutes /\ two_digits seconds.
Proof.
  pose proof (time_bounds t) as [Hw [Hm [Hd [Hh [Hmi Hs]]]]].
  eexists _, _, _, _, _, _. split; [reflexivity|].
  repeat match goal with |- _ /\ _ => split end.
  - apply nth_table. simpl. lia.
  - apply nth_table. simpl. lia.
  - apply padStart2_two_digits. lia.
  - apply padStart2_two_digits. lia.
  - apply padStart2_two_digits. lia.
  - apply padStart2_two_digits. lia.
Qed.

(** ** The digits of a number *)

Section Digits.
Local Open Scope N_scope.

Lemma of_uint_acc_bound (d : Decimal.uint) (acc : positive) :
  N.pos (Pos.of_uint_acc d acc)
  < (N.pos acc + 1) * 10 ^ N.of_nat (Decimal.nb_digits d).
Proof.
  revert acc. induction d; intros acc; cbn [Pos.of_uint_acc Decimal.nb_digits];
    [ simpl; lia | .. ];
    rewrite Nat2N.inj_succ, N.pow_succ_r';
    match goal with
    | |- N.pos (Pos.of_uint_acc _ ?a) < _ =>
        specialize (IHd a);
        set (p := 10 ^ N.of_nat (Decimal.nb_digits d)) in *;
        assert (0 < p) by (apply N.neq_0_lt_0, N.pow_nonzero; lia);
        nia
    end.
Qed.

Lemma of_uint_bound (d : Decimal.uint) :
  Pos.of_uint d < 10 ^ N.of_nat (Decimal.nb_digits d).
Proof.
  induction d; cbn [Pos.of_uint Decimal.nb_digits];
    [ simpl; lia | .. ];
    rewrite Nat2N.inj_succ, N.pow_succ_r';
    set (p := 10 ^ N.of_nat (Decimal.nb_digits d)) in *;
    assert (0 < p) by (apply N.neq_0_lt_0, N.pow_nonzero; lia);
    try lia;
    match goal with
    | |- N.pos (Pos.of_uint_acc _ ?a) < _ =>
        pose proof (of_uint_acc_bound d a); fold p in H0; nia
    end.
Qed.

End Digits.

Lemma string_of_uint_length (d : Decimal.uint) :
  String.length (NilEmpty.string_of_uint d) = Decimal.nb_digits d.
Proof. induction d; simpl; congruence. Qed.

Lemma decimal_length (n : Z) (d : nat) :
  (10 ^ Z.of_nat d <= n)%Z -> d < String.length (decimal n).
Proof.
  intros H.
  assert (Hpos : (0 < 10 ^ Z.of_nat d)%Z) by (apply Z.pow_pos_nonneg; lia).
  destruct n as [|p|p]; try lia.
  unfold decimal. cbn [Z.to_int NilZero.string_of_int].
  pose proof (DecimalPos.Unsigned.to_uint_nonnil p) as Hn.
  pose proof (DecimalPos.Unsigned.of_to p) as E.
  pose proof (of_uint_bound (Pos.to_uint p)) as B. rewrite E in B.
  unfold NilZero.string_of_uint.
  destruct (Pos.to_uint p) as [|u|u|u|u|u|u|u|u|u|u] eqn:U; [contradiction|..];
    rewrite <- U in *; rewrite string_of_uint_length;
    destruct (Nat.lt_ge_cases d (Decimal.nb_digits (Pos.to_uint p))) as [L|L];
    try exact L; exfalso;
    assert (Hp : (10 ^ N.of_nat (Decimal.nb_digits (Pos.to_uint p))
                  <= 10 ^ N.of_nat d)%N)
      by (apply N.pow_le_mono_r; lia);
    apply N2Z.inj_le in Hp; rewrite !N2Z.inj_pow, !nat_N_Z in Hp;
    apply N2Z.inj_lt in B; rewrite N2Z.inj_pow, nat_N_Z in B;
    change (Z.of_N 10) with 10%Z in *; change (Z.of_N (N.pos p)) with (Z.pos p) in B;
    lia.
Qed.

Lemma numberValue_small (v : Z) : (v < 2 ^ 53)%Z -> numberValue v = v.
Proof.
  intros H. unfold numberValue.
  destruct (Z.leb_spec (Z.log2 v + 1) 53) as [_|L]; [reflexivity|].
  exfalso. destruct (Z.le_gt_cases v 0) as [N|P].
  - rewrite Z.log2_nonpos in L by exact N. lia.
  - pose proof (proj1 (Z.log2_lt_pow2 v 53 P) H). lia.
Qed.

Lemma numberValue_large (x : Z) : (2 ^ 53 <= x)%Z -> (2 ^ 53 <= numberValue x)%Z.
Proof.
  intros H. unfold numberValue.
  destruct (Z.leb_spec (Z.log2 x + 1) 53) as [_|L]; [exact H|].
  cbv zeta.
  set (shift := (Z.log2 x + 1 - 53)%Z).
  assert (Hs : (0 < shift)%Z) by (unfold shift; lia).
  assert (Hx : (0 < x)%Z) by (assert (0 < 2 ^ 53)%Z by reflexivity; lia).
  pose proof (Z.log2_spec x Hx) as [Hlo _].
  replace (Z.log2 x) with (52 + shift)%Z in Hlo by (unfold shift; lia).
  rewrite Z.pow_add_r in Hlo by lia.
  assert (Hq : (2 ^ 52 <= Z.shiftr x shift)%Z).
  { rewrite Z.shiftr_div_pow2 by lia.
    apply Z.div_le_lower_bound; [apply Z.pow_pos_nonneg; lia | lia]. }
  set (q := Z.shiftr x shift) in *.
  match goal with
  | |- (_ <= Z.shiftl ?t shift)%Z =>
      assert (Hq' : (2 ^ 52 <= t)%Z) by (destruct (_ || _); lia);
      generalize dependent t; intros q' Hq'
  end.
  rewrite Z.shiftl_mul_pow2 by lia.
  assert (Hp : (2 <= 2 ^ shift)%Z).
  { change 2%Z with (2 ^ 1)%Z at 1. apply Z.pow_le_mono_r; lia. }
  change (2 ^ 53)%Z with (2 ^ 52 * 2)%Z.
  assert (0 < 2 ^ 52)%Z by reflexivity. nia.
Qed.

Lemma nearest_denotes (x unit v : Z) :
  nearest x unit = Some v -> numberValue v = x.
Proof.
  unfold nearest. cbv zeta.
  destruct (Z.eqb_spec (numberValue (x / unit * unit)) x) as [E1|_];
    destruct (Z.eqb_spec (numberValue (x / unit * unit + unit)) x) as [E2|_];
    repeat match goal with |- context [if ?b then _ else _] => destruct b end;
    intros [= <-]; assumption.
Qed.

Lemma shortest_large (x : Z) (e : nat) :
  (2 ^ 53 <= x)%Z -> (2 ^ 53 <= shortest x e)%Z.
Proof.
  intros Hx. induction e as [|e IH]; [exact Hx|].
  cbn [shortest]. destruct (nearest x _) as [v|] eqn:E; [|exact IH].
  apply nearest_denotes in E.
  destruct (Z.le_gt_cases (2 ^ 53) v) as [L|L]; [exact L|].
  rewrite numberValue_small in E by exact L. lia.
Qed.

Lemma exponential_long (digits : string) :
  21 < String.length digits -> 4 <= String.length (exponential digits).
Proof.
  intros H. unfold exponential.
  assert (He : 1 < String.length (decimal (Z.of_nat (String.length digits) - 1))).
  { apply decimal_length. change (10 ^ Z.of_nat 1)%Z with 10%Z. lia. }
  destruct (trimZeros digits) as [|c [|c' rest]]; [lia|..];
    rewrite !length_append; cbn [String.length]; lia.
Qed.

Lemma number_to_string_long (n : Z) :
  (1000 <= n)%Z -> 4 <= String.length (number_to_string n).
Proof.
  intros H. unfold number_to_string.
  destruct (Z.ltb_spec n 0) as [N|_]; [lia|].
  unfold magnitude_to_string.
  destruct (Z.ltb_spec n (2 ^ 53)) as [_|L].
  - apply (decimal_length n 3). exact H.
  - destruct (2 ^ 1024 <=? numberValue n)%Z; [cbn; lia|].
    set (digits := decimal _).
    assert (Hd : 3 < String.length digits).
    { apply decimal_length.
      pose proof (shortest_large (numberValue n)
                    (String.length (decimal (numberValue n)) - 1)
                    (numberValue_large n L)) as B.
      assert (10 ^ Z.of_nat 3 <= 2 ^ 53)%Z by (vm_compute; discriminate).
      lia. }
    destruct (Nat.leb_spec (String.length digits) 21) as [_|G]; [exact Hd|].
    apply exponential_long, G.
Qed.

Lemma zeroPadded_2 (n : Z) : zeroPadded n 2 = padStart2 (number_to_string n).
Proof.
  unfold zeroPadded. destruct (number_to_string n) as [|a [|b s]]; reflexivity.
Qed.

Lemma zeroPadded_long (n : Z) (k : nat) :
  k <= String.length (number_to_string n) -> zeroPadded n k = number_to_string n.
Proof.
  intros H. unfold zeroPadded.
  replace (k - String.length (number_to_string n)) with 0 by lia. reflexivity.
Qed.

(** X9: from the year 1000 on, [formatDate] prints what the language's own
    [toUTCString] prints, which the JSON endpoint uses for the same dates;
    the two differ on an invalid date. *)
Theorem X9_formatDate_toUTCString (t : Z) :
  (1000 <= UTC.YearFromTime t)%Z ->
  formatDate (ValidDate t) = toUTCString (ValidDate t) /\
  formatDate InvalidDate <> toUTCString InvalidDate.
Proof.
  intros H. split; [|discriminate].
  unfold formatDate, toUTCString. rewrite !zeroPadded_2.
  destruct (Z.leb_spec 0 (UTC.YearFromTime t)); [|lia].
  rewrite Z.abs_eq by lia.
  rewrite zeroPadded_long by (apply number_to_string_long, H).
  pose proof (time_bounds t) as [Hw [Hm _]].
  replace (nth (Z.to_nat (UTC.WeekDay t)) days "undefined")
    with (nth (Z.to_nat (UTC.WeekDay t)) weekdayNames "")
    by (apply nth_indep; simpl; lia).
  replace (nth (Z.to_nat (UTC.MonthFromTime t)) months "undefined")
    with (nth (Z.to_nat (UTC.MonthFromTime t)) monthNames "")
    by (apply nth_indep; simpl; lia).
  reflexivity.
Qed.

Lemma X9_formatDate_toUTCString_witness :
  formatDate (ValidDate 1737331200000) = toUTCString (ValidDate 1737331200000).
Proof.
  refine (proj1 (X9_formatDate_toUTCString 1737331200000 _)).
  vm_compute. discriminate.
Defined.

(** * Attribution and the order of the sources *)

Lemma combineItems_in (results : list (list FeedItem)) (maxItems : option Z)
    (item : FeedItem) :
  In item (combineItems results maxItems) -> In item (concat results).
Proof.
  intros H. destruct (combine_prefix results maxItems) as [rest Hrest].
  apply (Permutation_in item (sort_perm compareFn (concat results))).
  rewrite <- combine_unlimited, <- Hrest. apply in_or_app. left. exact H.
Qed.

Lemma sourceOf_attribution (s : SourceFeed) :
  sourceOf (feed_url s) (Some (feed_title s)) = attribution s.
Proof.
  unfold sourceOf, attribution, if_truthy, truthy.
  destruct (feed_title s =? ""); reflexivity.
Qed.

Section Attribution.
Variable newDate : string -> JSDate.
Variable fetch : string -> Promise Response.

Lemma itemsOf_attribution (s : SourceFeed) (item : FeedItem) :
  In item (itemsOf newDate fetch s) ->
  succeeded fetch s = true /\ source item = attribution s.
Proof.
  unfold itemsOf, succeeded.
  destruct (response_body (fetch (feed_url s))) as [xml|]; [|contradiction].
  intros H. split; [reflexivity|]. rewrite <- sourceOf_attribution.
  pose proof (parse_source newDate (feed_url s) (Some (feed_title s)) xml) as F.
  rewrite Forall_forall in F. apply F, H.
Qed.

Lemma settled_in (sources : list SourceFeed) (item : FeedItem) :
  In item (concat (settled newDate fetch sources)) ->
  exists s, In s sources /\ In item (itemsOf newDate fetch s).
Proof.
  unfold settled. rewrite in_concat. intros [l [Hl Hi]].
  apply in_map_iff in Hl. destruct Hl as [s [<- Hs]]. exists s. auto.
Qed.

End Attribution.

(** X10: every item [aggregate] returns comes from one of the sources whose
    request succeeded, and carries the attribution of that source: its
    URL and title, or no source at all when the title of the source is
    empty. *)
Theorem X10_aggregate_attribution (newDate : string -> JSDate)
    (fetch : string -> Promise Response)
    (sources : list SourceFeed) (maxItems : option Z) :
  exists out,
    aggregate newDate fetch sources maxItems = Fulfilled out /\
    forall item, In item out ->
      exists s,
        In s sources /\ succeeded fetch s = true /\
        In item (itemsOf newDate fetch s) /\
        source item = attribution s.
Proof.
  exists (combineItems (settled newDate fetch sources) maxItems).
  split; [apply aggregate_settles|].
  intros item H. apply combineItems_in, settled_in in H.
  destruct H as [s [Hs Hi]]. exists s.
  destruct (itemsOf_attribution newDate fetch s item Hi) as [Hok Hsrc]. auto.
Qed.

(** ** The order of the sources *)

Lemma concat_Permutation {A : Type} (l l' : list (list A)) :
  Permutation l l' -> Permutation (concat l) (concat l').
Proof.
  induction 1 as [|x l l' _ IH|x y l|l l' l'' _ IH1 _ IH2]; simpl.
  - constructor.
  - apply Permutation_app_head, IH.
  - rewrite !app_assoc. apply Permutation_app_tail, Permutation_app_comm.
  - eapply Permutation_trans; eassumption.
Qed.

Lemma filter_Permutation {A : Type} (f : A -> bool) (l l' : list A) :
  Permutation l l' -> Permutation (filter f l) (filter f l').
Proof.
  induction 1 as [|x l l' _ IH|x y l|l l' l'' _ IH1 _ IH2]; simpl.
  - constructor.
  - destruct (f x); [constructor|]; exact IH.
  - destruct (f x), (f y); try reflexivity. constructor.
  - eapply Permutation_trans; eassumption.
Qed.

(** Among items of distinct keys at most one has a given key. *)
Lemma with_key_short {A : Type} (key : A -> Z) (k : Z) (l : list A) :
  NoDup (map key l) -> length (with_key key k l) <= 1.
Proof.
  induction l as [|x l IH]; simpl; [lia|]. intros H.
  inversion H as [|? ? Hx Hl]; subst. specialize (IH Hl).
  destruct (Z.eqb_spec (key x) k) as [E|]; [|exact IH]. simpl.
  destruct (with_key key k l) as [|y t] eqn:F; [simpl; lia|].
  exfalso. apply Hx.
  assert (Hy : In y (with_key key k l)) by (rewrite F; left; reflexivity).
  unfold with_key in Hy. apply filter_In in Hy. destruct Hy as [Hy Ey].
  apply Z.eqb_eq in Ey. rewrite E, <- Ey. apply in_map, Hy.
Qed.

Lemma Permutation_short {A : Type} (l l' : list A) :
  Permutation l l' -> length l <= 1 -> l = l'.
Proof.
  intros H L. destruct l as [|x [|y t]]; [| |simpl in L; lia].
  - apply Permutation_nil in H. subst. reflexivity.
  - apply Permutation_length_1_inv in H. subst. reflexivity.
Qed.

Lemma with_key_Permutation {A : Type} (key : A -> Z) (k : Z) (l l' : list A) :
  Permutation l l' -> NoDup (map key l) ->
  with_key key k l = with_key key k l'.
Proof.
  intros H N. apply Permutation_short.
  - apply filter_Permutation, H.
  - apply with_key_short, N.
Qed.

Lemma valid_dates_Permutation (l l' : list FeedItem) :
  Permutation l l' -> valid_dates l -> valid_dates l'.
Proof. intros H V. unfold valid_dates in *. eapply Permutation_Forall; eassumption. Qed.

Lemma sort_Permutation (l l' : list FeedItem) :
  Permutation l l' -> valid_dates l -> distinct_times l ->
  sort compareFn l = sort compareFn l'.
Proof.
  intros H V N.
  apply (sort_unique compareFn timestamp l' (sort compareFn l)).
  - apply compareFn_by_key, (valid_dates_Permutation l l' H V).
  - apply sort_descending, compareFn_by_key, V.
  - intros k. rewrite sort_with_key by (apply compareFn_by_key, V).
    apply with_key_Permutation; assumption.
Qed.

Lemma combineItems_Permutation (r r' : list (list FeedItem)) (m : option Z) :
  Permutation (concat r) (concat r') ->
  valid_dates (concat r) -> distinct_times (concat r) ->
  combineItems r m = combineItems r' m.
Proof.
  intros H V N. unfold combineItems.
  rewrite (sort_Permutation _ _ H V N). reflexivity.
Qed.

(** X11: the order in which the sources are listed decides nothing but the
    order of items of equal time.  Listing the same sources in another
    order gives, without a limit, the same items in some order; and when
    no date is invalid and no two items have the same time, the same list
    of items, with or without a limit. *)
Theorem X11_aggregate_source_order (newDate : string -> JSDate)
    (fetch : string -> Promise Response)
    (sources sources' : list SourceFeed) (maxItems : option Z) :
  Permutation sources sources' ->
  exists out out',
    aggregate newDate fetch sources maxItems = Fulfilled out /\
    aggregate newDate fetch sources' maxItems = Fulfilled out' /\
    (maxItems = None -> Permutation out out') /\
    (valid_dates (concat (settled newDate fetch sources)) ->
     distinct_times (concat (settled newDate fetch sources)) ->
     out = out').
Proof.
  intros H.
  assert (P : Permutation (concat (settled newDate fetch sources))
                          (concat (settled newDate fetch sources'))).
  { apply concat_Permutation. unfold settled. apply Permutation_map, H. }
  exists (combineItems (settled newDate fetch sources) maxItems),
         (combineItems (settled newDate fetch sources') maxItems).
  split; [apply aggregate_settles|]. split; [apply aggregate_settles|]. split.
  - intros ->. rewrite !combine_unlimited.
    eapply Permutation_trans; [apply sort_perm|].
    eapply Permutation_trans; [exact P|]. symmetry. apply sort_perm.
  - intros V N. apply combineItems_Permutation; assumption.
Qed.

Lemma X11_aggregate_source_order_witness :
  aggregate sampleNewDate sampleFetch [newsSource; archiveSource] (Some 3%Z)
    = Fulfilled [mondayItem; saturdayItem; undatedItem] /\
  aggregate sampleNewDate sampleFetch [archiveSource; newsSource] (Some 3%Z)
    = Fulfilled [mondayItem; saturdayItem; undatedItem].
Proof.
  destruct (X11_aggregate_source_order sampleNewDate sampleFetch
              [newsSource; archiveSource] [archiveSource; newsSource]
              (Some 3%Z) (perm_swap _ _ _))
    as [out [out' [H1 [H2 [_ H]]]]].
  assert (E : out = [mondayItem; saturdayItem; undatedItem]).
  { assert (F : aggregate sampleNewDate sampleFetch [newsSource; archiveSource]
                  (Some 3%Z) = Fulfilled [mondayItem; saturdayItem; undatedItem])
      by (vm_compute; reflexivity).
    rewrite F in H1. injection H1 as <-. reflexivity. }
  rewrite H1, H2, <- H, E; [split; reflexivity | |].
  - vm_compute. repeat constructor; discriminate.
  - vm_compute. repeat constructor; simpl; intuition discriminate.
Defined.

(** * Feed metadata *)

(** ** The first place where a literal matches *)

Lemma occurs_app (ci : bool) (l a b : string) : occurs ci l (a ++ l ++ b) = true.
Proof.
  induction a as [|c a IH]; cbn [append occurs].
  - destruct l; cbn [append occurs].
    + destruct b; reflexivity.
    + change (String a (l ++ b)) with (String a l ++ b).
      rewrite lit_self. reflexivity.
  - rewrite IH. destruct (lit ci l (String c (a ++ l ++ b))); reflexivity.
Qed.

Lemma first_occurrence (ci : bool) (l s : string) :
  occurs ci l s = true ->
  exists body tail rest,
    s = body ++ tail /\ lit ci l tail = Some rest /\ unmatched ci l body tail.
Proof.
  induction s as [|c s IH]; cbn [occurs].
  - destruct (lit ci l "") as [rest|] eqn:E; [|discriminate].
    intros _. exists "", "", rest. repeat split. exact E.
  - destruct (lit ci l (String c s)) as [rest|] eqn:E.
    + intros _. exists "", (String c s), rest. repeat split. exact E.
    + intros H. destruct (IH H) as [body [tail [rest [-> [Hl Hu]]]]].
      exists (String c body), tail, rest. repeat split; assumption.
Qed.

Lemma unmatched_app (ci : bool) (l a b tail : string) :
  nomatch ci l a -> unmatched ci l b tail -> unmatched ci l (a ++ b) tail.
Proof.
  intros Ha Hb. induction a as [|c a IH]; [exact Hb|].
  destruct Ha as [H1 H2]. cbn [append unmatched]. split; [|apply IH, H2].
  change (String c (a ++ b) ++ tail) with (String c ((a ++ b) ++ tail)).
  rewrite append_assoc. apply (H1 (b ++ tail)).
Qed.

(** A group with a lazy star followed by a literal, in any letter case:
    the capture is the text up to the first place where the literal
    matches. *)
Lemma run_lazy_first (ci : bool) (l body tail rest : string)
    (cap : option string)
    (k : string -> option string -> option match_state) (m : match_state) :
  unmatched ci l body tail -> lit ci l tail = Some rest ->
  k rest (Some body) = Some m ->
  run ci (Group (StarLazy any) ;; Lit l) (body ++ tail) cap k = Some m.
Proof.
  intros Hu Hl Hk. cbn [run].
  rewrite star_lazy_skip.
  - apply star_lazy_here. rewrite Hl, consumed_app. exact Hk.
  - clear Hl Hk. generalize (body ++ tail) as whole. intros whole.
    induction body as [|c b IH]; [exact I|].
    destruct Hu as [H1 H2]. split; [|apply IH, H2].
    rewrite H1. reflexivity.
Qed.

(** ** An element with plain text *)

Lemma star_greedy (p : ascii -> bool) (u w : string)
    (k : string -> option match_state) (m : match_state) :
  all_chars p u = true ->
  match w with String c _ => p c = false | "" => True end ->
  k w = Some m ->
  star p (u ++ w) k = Some m.
Proof.
  intros Hu Hw Hk. induction u as [|x u IH]; cbn [append].
  - destruct w as [|c w]; cbn [star]; [|rewrite Hw]; exact Hk.
  - cbn [all_chars] in Hu. apply andb_true_iff in Hu. destruct Hu as [Hx Hu].
    cbn [star]. rewrite Hx, (IH Hu). reflexivity.
Qed.

Lemma no_lt_none_of (s : string) : no_lt s -> all_chars (none_of "<") s = true.
Proof.
  unfold no_lt. induction s as [|c s IH]; [trivial|]. cbn [all_chars].
  intros H. apply andb_true_iff in H. destruct H as [Hc Hs].
  rewrite (IH Hs), andb_true_r. unfold none_of.
  cbn [list_ascii_of_string existsb]. rewrite orb_false_r, Ascii.eqb_sym.
  exact Hc.
Qed.

(** What [textRegex] finds at the start of an element whose text holds no
    opening angle bracket and is not empty. *)
Lemma exec_text (tag body rest : string) :
  body <> "" -> no_lt body ->
  exec_at true (textRegex tag) (element tag body ++ rest)
  = Some (Some body, rest).
Proof.
  intros Hne Hb. unfold exec_at, textRegex, element. cbn [run].
  replace (("<" ++ tag ++ ">" ++ body ++ "</" ++ tag ++ ">") ++ rest)
    with (("<" ++ tag ++ ">") ++ body ++ ("</" ++ tag ++ ">") ++ rest)
    by (rewrite !append_assoc; reflexivity).
  rewrite lit_self. set (closing := "</" ++ tag ++ ">").
  destruct body as [|c body]; [contradiction|].
  pose proof (no_lt_none_of _ Hb) as Hall. cbn [all_chars] in Hall.
  apply andb_true_iff in Hall. destruct Hall as [Hc Hall].
  cbn [append]. rewrite Hc.
  apply star_greedy; [exact Hall | subst closing; reflexivity |].
  rewrite lit_self.
  change (String c (body ++ closing ++ rest))
    with (String c body ++ closing ++ rest).
  rewrite consumed_app. reflexivity.
Qed.

Lemma matchTrimmed_element (tag pre body rest : string) :
  nomatch true ("<" ++ tag ++ ">") pre -> body <> "" -> no_lt body ->
  matchTrimmed (textRegex tag) (pre ++ element tag body ++ rest)
  = Some (trim body).
Proof.
  intros Hpre Hne Hb. unfold matchTrimmed.
  unfold textRegex at 1. rewrite search_skip by exact Hpre.
  fold (textRegex tag).
  rewrite (search_here true (textRegex tag) _ _ (exec_text tag body rest Hne Hb)).
  reflexivity.
Qed.

(** ** The channel of a built document *)

Lemma channel_shape (c : FeedConfig) :
  unlines (channelLines c)
  = documentHead ++ "<channel>"
    ++ channelHead (config_title c) (config_link c) (config_description c)
    ++ unlines (channelRest c).
Proof.
  unfold channelLines. cbn [List.concat].
  rewrite unlines_app. fold (channelRest c) || idtac.
  unfold documentHead, channelHead. cbn [unlines].
  rewrite !append_assoc. reflexivity.
Qed.

Lemma documentHead_nomatch : nomatch true "<channel>" documentHead.
Proof. unfold documentHead, attribute. nomatch_tac. Qed.

Lemma channelHead_nomatch (t l d : string) :
  nomatch true "</channel>" (channelHead t l d).
Proof. unfold channelHead, element. nomatch_tac. Qed.

Lemma itemsText_closes (pre : string) (its : list FeedItem) :
  occurs true "</channel>" (pre ++ itemsText its) = true.
Proof.
  unfold itemsText. rewrite <- append_assoc. apply occurs_app.
Qed.

Lemma exec_channel (body tail rest : string) :
  unmatched true "</channel>" body tail ->
  lit true "</channel>" tail = Some rest ->
  exec_at true channelRegex ("<channel>" ++ body ++ tail)
  = Some (Some body, rest).
Proof.
  intros Hu Hl. unfold exec_at, channelRegex. cbn [run]. rewrite lit_self.
  apply (run_lazy_first true "</channel>" body tail rest None
           (fun s' cap => Some (cap, s'))); [exact Hu | exact Hl | reflexivity].
Qed.

(** The channel of a built document, as [channelRegex] captures it,
    starts with the three required elements. *)
Lemma search_channel (c : FeedConfig) (its : list FeedItem) :
  exists body rest,
    search true channelRegex (build {| config := c; items := its |})
    = Some (Some (channelHead (config_title c) (config_link c)
                              (config_description c) ++ body), rest).
Proof.
  destruct (first_occurrence true "</channel>" _
              (itemsText_closes (unlines (channelRest c)) its))
    as [body [tail [rest [E [Hl Hu]]]]].
  exists body, rest.
  set (head := channelHead (config_title c) (config_link c)
                           (config_description c)).
  replace (build {| config := c; items := its |})
    with (documentHead ++ "<channel>" ++ (head ++ body) ++ tail).
  - unfold channelRegex at 1. rewrite search_skip by apply documentHead_nomatch.
    apply search_here, exec_channel; [|exact Hl].
    apply unmatched_app; [apply channelHead_nomatch | exact Hu].
  - rewrite build_shape, channel_shape. cbn [config items]. fold head.
    rewrite !append_assoc, E. reflexivity.
Qed.

Lemma escapeXML_nonempty (s : string) : s <> "" -> escapeXML s <> "".
Proof. rewrite escapeXML_spelled. apply spelled_nonempty. Qed.

Lemma channelHead_fields (t l d body : string) :
  t <> "" -> l <> "" -> d <> "" ->
  matchTrimmed (textRegex "title") (channelHead t l d ++ body)
    = Some (trim (escapeXML t)) /\
  matchTrimmed (textRegex "link") (channelHead t l d ++ body)
    = Some (trim (escapeXML l)) /\
  matchTrimmed (textRegex "description") (channelHead t l d ++ body)
    = Some (trim (escapeXML d)).
Proof.
  intros Ht Hl Hd. unfold channelHead. split; [|split].
  - rewrite !append_assoc.
    apply (matchTrimmed_element "title" nl);
      [nomatch_tac | apply escapeXML_nonempty, Ht | apply escapeXML_no_lt].
  - replace ((nl ++ element "title" (escapeXML t) ++ nl
              ++ element "link" (escapeXML l) ++ nl
              ++ element "description" (escapeXML d) ++ nl) ++ body)
      with ((nl ++ element "title" (escapeXML t) ++ nl)
            ++ element "link" (escapeXML l)
            ++ (nl ++ element "description" (escapeXML d) ++ nl ++ body))
      by (rewrite !append_assoc; reflexivity).
    apply (matchTrimmed_element "link");
      [unfold element; nomatch_tac
      | apply escapeXML_nonempty, Hl | apply escapeXML_no_lt].
  - replace ((nl ++ element "title" (escapeXML t) ++ nl
              ++ element "link" (escapeXML l) ++ nl
              ++ element "description" (escapeXML d) ++ nl) ++ body)
      with ((nl ++ element "title" (escapeXML t) ++ nl
             ++ element "link" (escapeXML l) ++ nl)
            ++ element "description" (escapeXML d)
            ++ (nl ++ body))
      by (rewrite !append_assoc; reflexivity).
    apply (matchTrimmed_element "description");
      [unfold element; nomatch_tac
      | apply escapeXML_nonempty, Hd | apply escapeXML_no_lt].
Qed.

(** X12: [extractFeedMetadata] reads from a document of the builder the
    title, the description and the link of its channel, when none of
    them is empty and the document is not taken for an Atom feed; it
    returns them as they are written, escaped: an entity is not
    decoded. *)
Theorem X12_extractFeedMetadata_build (c : FeedConfig) (its : list FeedItem) :
  config_title c <> "" -> config_link c <> "" -> config_description c <> "" ->
  isAtom (build {| config := c; items := its |}) = false ->
  extractFeedMetadata (build {| config := c; items := its |})
  = {| metadata_title := Some (trim (escapeXML (config_title c)));
       metadata_description := Some (trim (escapeXML (config_description c)));
       metadata_link := Some (trim (escapeXML (config_link c))) |}.
Proof.
  intros Ht Hl Hd Hatom. unfold extractFeedMetadata.
  change (includes "<feed" (build {| config := c; items := its |})
          && includes ("xmlns=" ++ dq ++ "http://www.w3.org/2005/Atom" ++ dq)
                      (build {| config := c; items := its |}))
    with (isAtom (build {| config := c; items := its |})).
  rewrite Hatom.
  destruct (search_channel c its) as [body [rest ->]].
  cbn [group1 fst].
  destruct (channelHead_fields (config_title c) (config_link c)
              (config_description c) body Ht Hl Hd) as [-> [-> ->]].
  reflexivity.
Qed.

Lemma X12_extractFeedMetadata_build_witness :
  extractFeedMetadata (build {| config := labConfig; items := [markupItem] |})
  = {| metadata_title := Some "R&amp;D News";
       metadata_description := Some "Notes from the lab";
       metadata_link := Some "https://lab.example/?feed=rss&amp;lang=en" |}.
Proof.
  rewrite X12_extractFeedMetadata_build;
    [reflexivity | discriminate | discriminate | discriminate
    | vm_compute; reflexivity].
Defined.

(** ** Every field of the metadata *)

Lemma matchTrimmed_clean (p : ascii -> bool) (r : regex) (s v : string) :
  groups_plus p r -> matchTrimmed r s = Some v ->
  trimmed v /\ all_chars p v = true.
Proof.
  intros Hg. unfold matchTrimmed.
  destruct (search true r s) as [m|] eqn:E; [|discriminate].
  intros [= <-]. split; [apply trim_trimmed|].
  apply trim_all, (group1_all true p r s m Hg E).
Qed.

Lemma search_absent (ci : bool) (l : string) (r : regex) (s : string) :
  occurs ci l s = false -> search ci (Lit l ;; r) s = None.
Proof.
  induction s as [|c s IH]; cbn [occurs search]; intros H.
  - destruct (lit ci l "") eqn:E; [discriminate|].
    rewrite run_lit_fails by exact E. reflexivity.
  - destruct (lit ci l (String c s)) eqn:E; [discriminate|].
    rewrite run_lit_fails by exact E. apply IH, H.
Qed.

(** X13: whatever the text, a title or a description [extractFeedMetadata]
    returns has no white space around it and holds no opening angle
    bracket, and so no markup; a link has no white space around it and
    holds no quote when it is read from an Atom feed, no opening angle
    bracket otherwise.  A text that is not taken for an Atom feed and has
    no channel element, in any letter case, gives no field at all. *)
Theorem X13_extractFeedMetadata_clean (xml : string) :
  (forall t, metadata_title (extractFeedMetadata xml) = Some t ->
     trimmed t /\ all_chars (none_of "<") t = true) /\
  (forall d, metadata_description (extractFeedMetadata xml) = Some d ->
     trimmed d /\ all_chars (none_of "<") d = true) /\
  (forall l, metadata_link (extractFeedMetadata xml) = Some l ->
     trimmed l /\
     all_chars (none_of (if isAtom xml then quotes else "<")) l = true) /\
  (isAtom xml = false -> occurs true "<channel>" xml = false ->
   extractFeedMetadata xml = noMetadata).
Proof.
  unfold extractFeedMetadata.
  change (includes "<feed" xml
          && includes ("xmlns=" ++ dq ++ "http://www.w3.org/2005/Atom" ++ dq) xml)
    with (isAtom xml).
  destruct (isAtom xml).
  - cbn [metadata_title metadata_description metadata_link].
    repeat split; try discriminate;
      eapply matchTrimmed_clean; try eassumption; cbn; tauto.
  - destruct (search true channelRegex xml) as [m|] eqn:E.
    + cbn [metadata_title metadata_description metadata_link].
      split; [|split; [|split]].
      * intros t. apply matchTrimmed_clean. cbn. tauto.
      * intros t. apply matchTrimmed_clean. cbn. tauto.
      * intros t. apply matchTrimmed_clean. cbn. tauto.
      * intros _ H. unfold channelRegex in E.
        rewrite search_absent in E by exact H. discriminate.
    + cbn [metadata_title metadata_description metadata_link].
      repeat split; try discriminate.
Qed.

(** * The endpoints of the worker *)

(** ** Tags in a description *)

Lemma after_gt_none (s : string) :
  after_gt s = None <-> all_chars (fun c => negb (Ascii.eqb c ">")) s = true.
Proof.
  induction s as [|c s IH]; simpl; [tauto|].
  destruct (Ascii.eqb c ">"); simpl; [split; discriminate | exact IH].
Qed.

Lemma after_gt_length (s r : string) :
  after_gt s = Some r -> String.length r < String.length s.
Proof.
  induction s as [|c s IH]; simpl; [discriminate|].
  destruct (Ascii.eqb c ">").
  - intros [= ->]. lia.
  - intros H. specialize (IH H). lia.
Qed.

Lemma star_until_gt (s : string) (k : string -> option match_state) :
  star (none_of ">") s
       (fun s' => match lit false ">" s' with Some r => k r | None => None end)
  = match after_gt s with Some r => k r | None => None end.
Proof.
  induction s as [|c s IH]; [reflexivity|].
  cbn [star after_gt]. rewrite IH.
  assert (E : none_of ">" c = negb (Ascii.eqb c ">"))
    by (unfold none_of; cbn [list_ascii_of_string existsb];
        rewrite orb_false_r; reflexivity).
  rewrite E. cbn [lit]. unfold char_eq. rewrite (Ascii.eqb_sym ">" c).
  destruct (Ascii.eqb c ">"); cbn [negb]; [reflexivity|].
  destruct (after_gt s) as [r|]; [destruct (k r)|]; reflexivity.
Qed.

(** Where the expression for a tag matches, and what it leaves. *)
Lemma exec_markup (s : string) :
  exec_at false markupRegex s =
  match s with
  | String c s' =>
      if Ascii.eqb c "<" then
        match after_gt s' with Some r => Some (None, r) | None => None end
      else None
  | "" => None
  end.
Proof.
  unfold exec_at, markupRegex. cbn [run]. destruct s as [|c s]; [reflexivity|].
  cbn [lit]. unfold char_eq at 1. rewrite (Ascii.eqb_sym "<" c).
  destruct (Ascii.eqb c "<"); [|reflexivity].
  apply (star_until_gt s (fun r => Some (None, r))).
Qed.

Lemma replace_from_all (ci : bool) (r : regex) (p : ascii -> bool)
    (skip : nat) (s : string) :
  all_chars p s = true -> all_chars p (replace_from ci r "" skip s) = true.
Proof.
  revert skip. induction s as [|c s IH]; intros skip H.
  - destruct skip; cbn [replace_from]; [|reflexivity].
    destruct (exec_at ci r "") as [[? rest]|]; [|reflexivity].
    destruct (String.length "" - String.length rest); reflexivity.
  - cbn [all_chars] in H. apply andb_true_iff in H. destruct H as [Hc Hs].
    destruct skip as [|n]; cbn [replace_from]; [|apply IH, Hs].
    destruct (exec_at ci r (String c s)) as [[? rest]|];
      [destruct (String.length (String c s) - String.length rest)|];
      cbn [append all_chars]; rewrite ?Hc; cbn [andb]; apply IH, Hs.
Qed.

Lemma tag_free_cons (c : ascii) (s : string) :
  (Ascii.eqb c "<" = true -> after_gt s = None) -> tag_free s ->
  tag_free (String c s).
Proof.
  intros Hc Hs. unfold tag_free in *. cbn [search].
  rewrite exec_markup, Hs. destruct (Ascii.eqb c "<"); [|reflexivity].
  rewrite Hc; reflexivity.
Qed.

Lemma tag_free_inv (c : ascii) (s : string) :
  tag_free (String c s) ->
  (Ascii.eqb c "<" = true -> after_gt s = None) /\ tag_free s.
Proof.
  intros H. apply search_none in H. destruct H as [E Hs]. split; [|exact Hs].
  rewrite exec_markup in E. intros Hc. rewrite Hc in E.
  destruct (after_gt s); [discriminate | reflexivity].
Qed.

Lemma strip_tag_free (skip : nat) (s : string) :
  tag_free (replace_from false markupRegex "" skip s).
Proof.
  revert skip. induction s as [|c s IH]; intros skip.
  - destruct skip; reflexivity.
  - destruct skip as [|n]; cbn [replace_from]; [|apply IH].
    rewrite exec_markup.
    destruct (Ascii.eqb c "<") eqn:Ec.
    + destruct (after_gt s) as [r|] eqn:E.
      * apply after_gt_length in E.
        destruct (String.length (String c s) - String.length r) as [|n] eqn:L;
          [cbn [String.length] in L; lia|].
        apply IH.
      * apply tag_free_cons; [|apply IH]. intros _.
        apply after_gt_none, replace_from_all, after_gt_none, E.
    + apply tag_free_cons; [|apply IH]. congruence.
Qed.

Lemma substring_all (p : ascii -> bool) (n : nat) (s : string) :
  all_chars p s = true -> all_chars p (substring 0 n s) = true.
Proof.
  revert n. induction s as [|c s IH]; intros [|n] H; try reflexivity.
  cbn [substring all_chars] in *. apply andb_true_iff in H.
  destruct H as [Hc Hs]. rewrite Hc. apply IH, Hs.
Qed.

Lemma substring_tag_free (n : nat) (s : string) :
  tag_free s -> tag_free (substring 0 n s).
Proof.
  revert n. induction s as [|c s IH]; intros [|n] H; try reflexivity.
  cbn [substring]. apply tag_free_inv in H. destruct H as [Hc Hs].
  apply tag_free_cons; [|apply IH, Hs].
  intros E. apply after_gt_none, substring_all, after_gt_none, Hc, E.
Qed.

Lemma substring_length (n : nat) (s : string) :
  String.length (substring 0 n s) <= n.
Proof.
  revert n. induction s as [|c s IH]; intros [|n]; simpl; try lia.
  specialize (IH n). lia.
Qed.

Lemma includes_cons (p : string) (c : ascii) (s : string) :
  includes p (String c s) = false -> includes p s = false.
Proof. cbn [includes]. intros H. apply orb_false_iff in H. apply H. Qed.

Lemma strip_plain (s : string) :
  includes "<" s = false -> replace_from false markupRegex "" 0 s = s.
Proof.
  induction s as [|c s IH]; intros H; [reflexivity|].
  pose proof (search_no_lt false "" (Star (none_of ">") ;; Lit ">")%re _ H) as E.
  apply search_none in E. destruct E as [E _].
  cbn [replace_from]. unfold markupRegex. rewrite E.
  f_equal. apply IH, (includes_cons _ _ _ H).
Qed.

(** X14: the description of an entry of the JSON endpoint has at most 200
    characters and holds no tag, whatever the description of the item;
    it is the start of that description when this holds no opening angle
    bracket.  The image of an entry holds no quote. *)
Theorem X14_newsItem_text (item : FeedItem) :
  String.length (news_description (newsItem item)) <= 200 /\
  tag_free (news_description (newsItem item)) /\
  (includes "<" (description item) = false ->
   news_description (newsItem item) = substring 0 200 (description item)) /\
  all_chars (none_of quotes) (news_image (newsItem item)) = true.
Proof.
  cbn [newsItem news_description news_image].
  split; [apply substring_length|].
  split; [apply substring_tag_free, strip_tag_free|].
  split; [intros H; rewrite strip_plain by exact H; reflexivity|].
  destruct (search true imgRegex (description item)) as [m|] eqn:E;
    [|reflexivity].
  apply (group1_all true (none_of quotes) imgRegex (description item) m);
    [cbn; tauto | exact E].
Qed.

(** ** The two endpoints *)

Lemma firstn_in {A : Type} (n : nat) (l : list A) (x : A) :
  In x (firstn n l) -> In x l.
Proof. rewrite <- (firstn_skipn n l) at 2. intros H. apply in_or_app. auto. Qed.

Section Endpoints.
Variable newDate : string -> JSDate.
Variable fetch : string -> Promise Response.
Variable sources : list SourceFeed.
Variable maxItems : option Z.

Lemma news_source_named (item : FeedItem) :
  Forall (fun s => feed_title s <> "") sources ->
  In item (combineItems (settled newDate fetch sources) maxItems) ->
  In (news_source (newsItem item)) (map feed_title sources).
Proof.
  intros Hnamed H. apply combineItems_in, settled_in in H.
  destruct H as [s [Hs Hi]].
  destruct (itemsOf_attribution newDate fetch s item Hi) as [_ Hsrc].
  rewrite Forall_forall in Hnamed. specialize (Hnamed s Hs).
  cbn [newsItem news_source]. rewrite Hsrc. unfold attribution.
  destruct (String.eqb_spec (feed_title s) ""); [contradiction|].
  cbn [option_map source_title or_default].
  destruct (String.eqb_spec (feed_title s) ""); [contradiction|].
  apply in_map, Hs.
Qed.

End Endpoints.

Section Handlers.
Variable newDate : string -> JSDate.
Variable fetch : string -> Promise Response.
Variable clock : nat -> Z.
Variable aggregatorConfig : AggregatorConfig.

Lemma generateRSSFeed_settles (n : nat) :
  generateRSSFeed newDate fetch clock aggregatorConfig n
  = (Fulfilled
       {| http_body :=
            Some (build {| config := servedConfig aggregatorConfig (clock n);
                           items :=
                             combineItems
                               (settled newDate fetch
                                  (aggregator_sources aggregatorConfig))
                               (aggregator_maxItems aggregatorConfig) |});
          http_status := 200;
          http_headers :=
            [ ("Content-Type", "application/rss+xml; charset=utf-8");
              ("Cache-Control", "public, max-age=900, s-maxage=900") ] |},
     S n).
Proof.
  unfold generateRSSFeed, tryCatch, Timed.bind, await, dateNow, ret.
  rewrite aggregate_settles. reflexivity.
Qed.

Lemma getNewsAPI_settles (cors : list (string * string)) (n : nat) :
  getNewsAPI newDate fetch aggregatorConfig cors n
  = (Fulfilled
       {| http_body :=
            Some (JSON.stringify (JSON.Arr (map newsValue (map newsItem
              (firstn 50
                 (combineItems
                    (settled newDate fetch (aggregator_sources aggregatorConfig))
                    (aggregator_maxItems aggregatorConfig)))))));
          http_status := 200;
          http_headers :=
            [ ("Content-Type", "application/json");
              ("Cache-Control", "public, max-age=900, s-maxage=900") ]
            ++ cors |},
     n).
Proof.
  unfold getNewsAPI, tryCatch, Timed.bind, await, ret.
  rewrite aggregate_settles. reflexivity.
Qed.

Lemma debugEntry_reports (s : SourceFeed) (n : nat) :
  exists e n',
    debugEntry newDate fetch clock s n = (Fulfilled e, n') /\
    reports newDate fetch s e.
Proof.
  unfold debugEntry, reports, tryCatch, Timed.bind, await, dateNow, ret.
  destruct (fetch (feed_url s)) as [response|reason].
  - destruct (text response) as [xml|reason];
      eexists; eexists; (split; [reflexivity|]); cbn; repeat split.
  - eexists; eexists; (split; [reflexivity|]); cbn; repeat split.
Qed.

Lemma forEach_total {A B : Type} (body : A -> Timed B) (P : A -> B -> Prop)
    (l : list A) :
  (forall x n, exists b n', body x n = (Fulfilled b, n') /\ P x b) ->
  forall n, exists bs n',
    forEach body l n = (Fulfilled bs, n') /\ Forall2 P l bs.
Proof.
  intros H. induction l as [|x l IH]; intros n.
  - exists [], n. split; [reflexivity | constructor].
  - destruct (H x n) as [b [n1 [E1 Pb]]].
    destruct (IH n1) as [bs [n2 [E2 Pbs]]].
    exists (b :: bs), n2. split; [|constructor; assumption].
    cbn [forEach]. unfold Timed.bind at 1. rewrite E1.
    unfold Timed.bind. rewrite E2. reflexivity.
Qed.

Lemma getDebugInfo_settles (cors : list (string * string)) (n : nat) :
  exists results n',
    getDebugInfo newDate fetch clock aggregatorConfig cors n
    = (Fulfilled
         {| http_body := Some (JSON.stringify2 (JSON.Arr results));
            http_status := 200;
            http_headers := [("Content-Type", "application/json")] ++ cors |},
       n') /\
    Forall2 (reports newDate fetch) (aggregator_sources aggregatorConfig) results.
Proof.
  destruct (forEach_total (debugEntry newDate fetch clock)
              (reports newDate fetch) (aggregator_sources aggregatorConfig)
              debugEntry_reports n) as [results [n' [E R]]].
  exists results, n'. split; [|exact R].
  unfold getDebugInfo, Timed.bind. rewrite E. reflexivity.
Qed.

End Handlers.

(** X15: the JSON endpoint never answers with its error: whatever the
    network does, the status is 200 and the body is the array of the
    first 50 items [aggregate] returns, one entry each, in their order,
    with their titles and links.  When every configured source has a
    title, every entry names one of them as its source.  The clock is not
    read. *)
Theorem X15_getNewsAPI_answers (newDate : string -> JSDate)
    (fetch : string -> Promise Response) (aggregatorConfig : AggregatorConfig)
    (cors : list (string * string)) (n : nat) :
  exists out,
    aggregate newDate fetch (aggregator_sources aggregatorConfig)
              (aggregator_maxItems aggregatorConfig) = Fulfilled out /\
    let items := map newsItem (firstn 50 out) in
    getNewsAPI newDate fetch aggregatorConfig cors n
    = (Fulfilled
         {| http_body := Some (JSON.stringify (JSON.Arr (map newsValue items)));
            http_status := 200;
            http_headers :=
              [ ("Content-Type", "application/json");
                ("Cache-Control", "public, max-age=900, s-maxage=900") ]
              ++ cors |},
       n) /\
    length items = Nat.min 50 (length out) /\
    map news_title items = map title (firstn 50 out) /\
    map news_link items = map link (firstn 50 out) /\
    (Forall (fun s => feed_title s <> "") (aggregator_sources aggregatorConfig) ->
     Forall (fun entry => In (news_source entry)
                             (map feed_title (aggregator_sources aggregatorConfig)))
            items).
Proof.
  eexists. split; [apply aggregate_settles|]. cbv zeta.
  split; [|split; [|split; [|split]]].
  - apply getNewsAPI_settles.
  - rewrite length_map, length_firstn. reflexivity.
  - rewrite map_map. reflexivity.
  - rewrite map_map. reflexivity.
  - intros Hnamed. apply Forall_map, Forall_forall. intros item H.
    apply (news_source_named newDate fetch
             (aggregator_sources aggregatorConfig)
             (aggregator_maxItems aggregatorConfig) item Hnamed).
    apply (firstn_in _ _ _ H).
Qed.




Lemma reports_succeeded (newDate : string -> JSDate)
    (fetch : string -> Promise Response) (s : SourceFeed) (e : JSON.value) :
  reports newDate fetch s e -> succeeded fetch s = true ->
  JSON.field "status" e = Some (JSON.Str "success") /\
  JSON.field "itemCount" e
    = Some (JSON.Num (Z.of_nat (length (itemsOf newDate fetch s)))).
Proof.
  unfold reports, succeeded, itemsOf, response_body.
  intros [_ [_ H]].
  destruct (fetch (feed_url s)) as [response|]; [|discriminate].
  destruct (ok response); [|discriminate].
  destruct (text response) as [xml|]; [|discriminate].
  intros _. destruct H as [H1 [_ [H3 _]]]. split; assumption.
Qed.

(** X17: the debug endpoint always answers, with status 200 and the array
    of one entry for each configured source, in their order, whatever the
    network and the clock do: a request that fails, or a body that
    cannot be read, gives the entry of an error and the loop goes on.
    For a source the aggregator reads, the entry counts the items the
    aggregator takes from it. *)
Theorem X17_getDebugInfo_answers (newDate : string -> JSDate)
    (fetch : string -> Promise Response) (clock : nat -> Z)
    (aggregatorConfig : AggregatorConfig)
    (cors : list (string * string)) (n : nat) :
  exists results n',
    getDebugInfo newDate fetch clock aggregatorConfig cors n
    = (Fulfilled
         {| http_body := Some (JSON.stringify2 (JSON.Arr results));
            http_status := 200;
            http_headers := [("Content-Type", "application/json")] ++ cors |},
       n') /\
    Forall2 (reports newDate fetch) (aggregator_sources aggregatorConfig)
            results /\
    Forall2 (fun s e =>
               succeeded fetch s = true ->
               JSON.field "status" e = Some (JSON.Str "success") /\
               JSON.field "itemCount" e
                 = Some (JSON.Num (Z.of_nat (length (itemsOf newDate fetch s)))))
            (aggregator_sources aggregatorConfig) results.
Proof.
  destruct (getDebugInfo_settles newDate fetch clock aggregatorConfig cors n)
    as [results [n' [E R]]].
  exists results, n'. split; [exact E|]. split; [exact R|].
  revert R. apply Forall2_impl. intros s e H. apply reports_succeeded, H.
Qed.

(** ** The router *)

Section Router.
Variable newDate : string -> JSDate.
Variable fetch : string -> Promise Response.
Variable clock : nat -> Z.
Variable aggregatorConfig : AggregatorConfig.
Variables (home widget info : string).

Lemma fetchHandler_cases (request : Request) (n : nat) :
  exists response n',
    fetchHandler newDate fetch clock aggregatorConfig home widget info request n
    = (Fulfilled response, n') /\
    ((method request = "OPTIONS" /\ response = preflightResponse /\ n' = n) \/
     (method request <> "OPTIONS" /\ In (pathname request) routes /\
      http_status response = 200%Z) \/
     (method request <> "OPTIONS" /\ ~ In (pathname request) routes /\
      response = notFoundResponse /\ n' = n)).
Proof.
  unfold fetchHandler.
  destruct (String.eqb_spec (method request) "OPTIONS") as [Hm|Hm].
  { eexists; eexists. split; [reflexivity|]. left. auto. }
  destruct (String.eqb_spec (pathname request) "/rss") as [H1|H1].
  { eexists; eexists. split; [apply generateRSSFeed_settles|].
    right; left. rewrite H1. cbn. tauto. }
  destruct (String.eqb_spec (pathname request) "/feed") as [H2|H2].
  { eexists; eexists. split; [apply generateRSSFeed_settles|].
    right; left. rewrite H2. cbn. tauto. }
  cbn [orb].
  destruct (String.eqb_spec (pathname request) "/") as [H3|H3].
  { eexists; eexists. split; [reflexivity|].
    right; left. rewrite H3. cbn. tauto. }
  destruct (String.eqb_spec (pathname request) "/embed") as [H4|H4].
  { eexists; eexists. split; [reflexivity|].
    right; left. rewrite H4. cbn. tauto. }
  destruct (String.eqb_spec (pathname request) "/embed-info") as [H5|H5].
  { eexists; eexists. split; [reflexivity|].
    right; left. rewrite H5. cbn. tauto. }
  destruct (String.eqb_spec (pathname request) "/api/news") as [H6|H6].
  { eexists; eexists. split; [apply getNewsAPI_settles|].
    right; left. rewrite H6. cbn. tauto. }
  destruct (String.eqb_spec (pathname request) "/debug") as [H7|H7].
  { destruct (getDebugInfo_settles newDate fetch clock aggregatorConfig
                corsHeaders n) as [results [n' [E _]]].
    eexists; eexists. split; [exact E|].
    right; left. rewrite H7. cbn. tauto. }
  eexists; eexists. split; [reflexivity|].
  right; right. repeat split; try assumption.
  cbn. intuition congruence.
Qed.

End Router.

(** X18: the worker always answers, and never with the status 500:
    whatever the request, the network and the clock, its promise is
    fulfilled; a preflight request is answered, on every path, with the
    three CORS headers and no body; another request is answered with the
    status 200 on each of the seven paths of the worker and with 404 and
    the text Not Found on every other path. *)
Theorem X18_fetchHandler_answers (newDate : string -> JSDate)
    (fetch : string -> Promise Response) (clock : nat -> Z)
    (aggregatorConfig : AggregatorConfig) (home widget info : string)
    (request : Request) (n : nat) :
  exists response n',
    fetchHandler newDate fetch clock aggregatorConfig home widget info request n
    = (Fulfilled response, n') /\
    (method request = "OPTIONS" -> response = preflightResponse) /\
    (method request <> "OPTIONS" -> In (pathname request) routes ->
     http_status response = 200%Z) /\
    (method request <> "OPTIONS" -> ~ In (pathname request) routes ->
     response = notFoundResponse) /\
    (http_status response = 200%Z \/ http_status response = 404%Z).
Proof.
  destruct (fetchHandler_cases newDate fetch clock aggregatorConfig
              home widget info request n) as [response [n' [E H]]].
  exists response, n'. split; [exact E|].
  destruct H as [[Hm [-> _]] | [[Hm [Hp Hs]] | [Hm [Hp [-> _]]]]];
    (split; [intros; first [reflexivity | contradiction]|]);
    (split; [intros; first [assumption | reflexivity | contradiction]|]);
    (split; [intros; first [reflexivity | contradiction]|]).
  - left. reflexivity.
  - left. exact Hs.
  - right. reflexivity.
Qed.

(** X19: a preflight request, and a request for a path other than the four
    that are answered from the sources, is answered without the network
    and without the clock: the answer is the same whatever they are. *)
Theorem X19_fetchHandler_static (newDate newDate' : string -> JSDate)
    (fetch fetch' : string -> Promise Response) (clock clock' : nat -> Z)
    (aggregatorConfig : AggregatorConfig) (home widget info : string)
    (request : Request) (n : nat) :
  method request = "OPTIONS" \/ ~ In (pathname request) networkRoutes ->
  fetchHandler newDate fetch clock aggregatorConfig home widget info request n
  = fetchHandler newDate' fetch' clock' aggregatorConfig home widget info
                 request n /\
  snd (fetchHandler newDate fetch clock aggregatorConfig home widget info
                    request n) = n.
Proof.
  intros H. unfold fetchHandler.
  destruct (String.eqb_spec (method request) "OPTIONS") as [Hm|Hm];
    [split; reflexivity|].
  destruct H as [H|H]; [contradiction|].
  destruct (String.eqb_spec (pathname request) "/rss") as [H1|H1];
    [exfalso; apply H; rewrite H1; cbn; tauto|].
  destruct (String.eqb_spec (pathname request) "/feed") as [H2|H2];
    [exfalso; apply H; rewrite H2; cbn; tauto|].
  cbn [orb].
  destruct (String.eqb_spec (pathname request) "/"); [split; reflexivity|].
  destruct (String.eqb_spec (pathname request) "/embed"); [split; reflexivity|].
  destruct (String.eqb_spec (pathname request) "/embed-info");
    [split; reflexivity|].
  destruct (String.eqb_spec (pathname request) "/api/news") as [H6|H6];
    [exfalso; apply H; rewrite H6; cbn; tauto|].
  destruct (String.eqb_spec (pathname request) "/debug") as [H7|H7];
    [exfalso; apply H; rewrite H7; cbn; tauto|].
  split; reflexivity.
Qed.

Lemma X19_fetchHandler_static_witness :
  fetchHandler sampleNewDate sampleFetch (fun _ => 0%Z)
    (Config.aggregatorConfig 2025) "home" "widget" "info"
    {| method := "GET"; pathname := "/embed" |} 0
  = fetchHandler (fun _ => InvalidDate) (fun _ => Rejected "offline")
      (fun i => Z.of_nat i) (Config.aggregatorConfig 2025)
      "home" "widget" "info" {| method := "GET"; pathname := "/embed" |} 0.
Proof.
  refine (proj1 (X19_fetchHandler_static _ _ _ _ _ _ _ _ _ _ _ 0 _)).
  right. cbn. intuition discriminate.
Defined.

(** ** Adding items to a builder *)





